(** * Entity-management core: a shallow embedding of the TypeScript sources

    The development follows the layout of the repository:

    - [Js]          the fragments of the JavaScript runtime the code relies on
                    (numbers that are integers, [Array.prototype.slice],
                    [Array.prototype.forEach], the insertion-ordered [Map],
                    completion records of calls);
    - [Shared]      [packages/shared]: types.ts and utils.ts
                    ([Result], [paginate], [touchEntity], ...);
    - [Validation]  [packages/shared/validation.ts];
    - [Backend]     [packages/backend]: models.ts, repository.ts and the
                    service layer ([onEvent], [emitEvent]);
    - [Frontend]    [packages/frontend/state.ts]: the [NotificationManager].

    Conventions.  A JavaScript [Date] is the integer number of milliseconds
    since the epoch; a call of [new Date()] is an extra argument [now] of the
    function that performs it.  A slot of TypeScript type [T | undefined]
    (an optional property, or a value of a generic type that may be
    instantiated with [void]) is an [option]: [None] is [undefined].
    Function values are compared by reference in JavaScript, so a callback is
    a reference [FnRef] and its behaviour is looked up in an environment.
    The [async] methods of the in-memory repository contain no [await]: they
    run to completion when called, and are state transformers here.
    Numbers that count or index ([page], [pageSize], lengths, counters) are
    integers, as the specification types them; on integers below 2^53 the
    floating-point operations of the code are exact.  A counter that is
    incremented without bound ([loginCount], [views], [idCounter]) is
    incremented by [Js.number_add], which rounds as the addition of the
    language does. *)

From Stdlib Require Import ZArith List String Ascii Bool Lia DecimalString.
From Stdlib Require Import Permutation Sorted.
From Stdlib Require DecimalZ.
Import ListNotations.
Local Open Scope Z_scope.
Local Open Scope list_scope.

(* ================================================================== *)
(** * The JavaScript runtime fragments                                  *)
(* ================================================================== *)

Declare Scope method_scope.
Delimit Scope method_scope with method.
Declare Scope action_scope.
Delimit Scope action_scope with action.

Module Js.

(** Milliseconds since the epoch. *)
Definition Date := Z.

(** The result of an arithmetic expression over integers: the quotient
    [total / pageSize] is infinite or [NaN] when [pageSize] is zero. *)
Inductive Number :=
| Finite (z : Z)
| PosInfinity
| NegInfinity
| NaN.

(** [a + b] for numbers that hold integers.  A number is a double: an
    integer is a number when its absolute value is at most 2^53, or when
    it is a multiple of the power of two that leaves it 53 significant
    bits.  The sum of two numbers is their exact sum rounded to the
    nearest number, a tie going to the even significand, so that
    [2^53 + 1] is [2^53].  The integers modelled are below 2^1024 in
    absolute value, where no sum is infinite. *)
Definition round_to_number (z : Z) : Z :=
  let m := Z.abs z in
  if m <? 2 ^ 53 then z
  else
    let e := Z.log2 m - 52 in
    let significand := Z.shiftr m e in
    let rest := m - Z.shiftl significand e in
    let half := Z.shiftl 1 (e - 1) in
    let rounded :=
      if rest <? half then significand
      else if half <? rest then significand + 1
      else if Z.even significand then significand
      else significand + 1 in
    Z.sgn z * Z.shiftl rounded e.

Definition number_add (a b : Z) : Z := round_to_number (a + b).

(** [Math.ceil(a / b)] for integers [a] and [b].  For [b <> 0] the
    quotient is rounded up ([Z.div] rounds down for either sign of [b]);
    the rounding of the floating-point quotient of two integers below
    2^53 never reaches the next integer, so the result is exact. *)
Definition ceil_div (a b : Z) : Number :=
  if b =? 0 then
    if a =? 0 then NaN
    else if 0 <? a then PosInfinity else NegInfinity
  else Finite (- ((- a) / b)).

(** [Array.prototype.slice(start, end)] with integer arguments: negative
    indices count from the end, both are clamped to the length, and an
    empty range yields the empty array. *)
Definition slice {T : Type} (l : list T) (start end_ : Z) : list T :=
  let len := Z.of_nat (List.length l) in
  let k := if start <? 0 then Z.max (len + start) 0 else Z.min start len in
  let final := if end_ <? 0 then Z.max (len + end_) 0 else Z.min end_ len in
  firstn (Z.to_nat (final - k)) (skipn (Z.to_nat k) l).

(** How a call ends: it returns, or it throws an [Error] with a message. *)
Inductive Outcome (T : Type) :=
| Returned (v : T)
| Thrown (message : string).
Arguments Returned {T} v.
Arguments Thrown {T} message.

(** ** The insertion-ordered [Map<string, V>]

    Entries are kept in insertion order; [set] on a key already present
    replaces the value in place, [delete] drops the entry. *)
Definition Map (V : Type) := list (string * V).

Definition Map_empty {V : Type} : Map V := [].

Fixpoint Map_get {V : Type} (k : string) (m : Map V) : option V :=
  match m with
  | [] => None
  | (k', v) :: m' => if String.eqb k k' then Some v else Map_get k m'
  end.

Definition Map_has {V : Type} (k : string) (m : Map V) : bool :=
  match Map_get k m with Some _ => true | None => false end.

Fixpoint Map_replace {V : Type} (k : string) (v : V) (m : Map V) : Map V :=
  match m with
  | [] => []
  | (k', v') :: m' =>
      if String.eqb k k' then (k', v) :: m' else (k', v') :: Map_replace k v m'
  end.

Definition Map_set {V : Type} (k : string) (v : V) (m : Map V) : Map V :=
  if Map_has k m then Map_replace k v m else m ++ [(k, v)].

Definition Map_delete {V : Type} (k : string) (m : Map V) : Map V :=
  filter (fun kv => negb (String.eqb k (fst kv))) m.

Definition Map_values {V : Type} (m : Map V) : list V := map snd m.

Definition Map_keys {V : Type} (m : Map V) : list string := map fst m.

(** ** Function references and [Array.prototype.forEach]

    A callback is known by its reference.  [forEach] reads the length of
    the array once, before the first call, then visits the indices
    [0 .. len-1] of the array as it is when each index is reached (an
    index that is no longer there is skipped).  A callback that throws
    ends the traversal: the exception leaves [forEach].

    [S] is the whole program state, [read] the current content of the
    array object being traversed, [call] the invocation of one callback. *)
Definition FnRef := nat.

Section ForEach.
Context {S X : Type}.
Variable read : S -> list X.
Variable call : X -> S -> S * Outcome unit.

Fixpoint forEach_from (remaining k : nat) (s : S) : S * Outcome unit :=
  match remaining with
  | O => (s, Returned tt)
  | Datatypes.S remaining' =>
      match nth_error (read s) k with
      | None => forEach_from remaining' (Datatypes.S k) s
      | Some x =>
          match call x s with
          | (s', Thrown message) => (s', Thrown message)
          | (s', Returned _) => forEach_from remaining' (Datatypes.S k) s'
          end
      end
  end.

Definition forEach (s : S) : S * Outcome unit :=
  forEach_from (List.length (read s)) 0 s.

(** The traversal of a fixed list of callbacks, one after the other,
    up to the first one that throws. *)
Fixpoint call_each (xs : list X) (s : S) : S * Outcome unit :=
  match xs with
  | [] => (s, Returned tt)
  | x :: xs' =>
      match call x s with
      | (s', Thrown message) => (s', Thrown message)
      | (s', Returned _) => call_each xs' s'
      end
  end.
End ForEach.

(** ** Methods of an object with private state

    A method reads and writes the fields of [this] and returns a value:
    a state transformer over the type [St] of the fields. *)
Definition Method (St A : Type) := St -> A * St.

Definition ret {St A : Type} (a : A) : Method St A := fun st => (a, st).

Definition bind {St A B : Type} (m : Method St A) (f : A -> Method St B)
  : Method St B :=
  fun st => let (a, st') := m st in f a st'.

Definition this_get {St : Type} : Method St St := fun st => (st, st).

Definition this_update {St : Type} (f : St -> St) : Method St unit :=
  fun st => (tt, f st).

Notation "x <- m ;; k" := (bind m (fun x => k))
  (at level 61, m at next level, right associativity) : method_scope.
Notation "'_' <- m ;; k" := (bind m (fun _ => k))
  (at level 61, m at next level, right associativity) : method_scope.

(** A JavaScript value stored in a property of an object literal. *)
Inductive Value :=
| VString (s : string)
| VDate (d : Date)
| VNumber (z : Z)
| VBoolean (b : bool).

(** An object literal: its own properties, in the order written. *)
Definition Object := list (string * Value).

Definition ownKeys (o : Object) : list string := map fst o.

(** ** Strings

    A string is the sequence of its UTF-16 code units; the strings
    modelled are those whose code units are below 256.  Among these the
    white space and line terminators of the language, which [trim] strips
    and [\s] matches, are TAB, LF, VT, FF, CR, SP and NBSP. *)
Definition is_whitespace (c : Ascii.ascii) : bool :=
  match Ascii.N_of_ascii c with
  | 9 | 10 | 11 | 12 | 13 | 32 | 160 => true
  | _ => false
  end%N.

Fixpoint trimStart (s : string) : string :=
  match s with
  | EmptyString => EmptyString
  | String c s' => if is_whitespace c then trimStart s' else s
  end.

Definition reverse (s : string) : string :=
  string_of_list_ascii (rev (list_ascii_of_string s)).

Definition trimEnd (s : string) : string := reverse (trimStart (reverse s)).

(** [String.prototype.trim]. *)
Definition trim (s : string) : string := trimEnd (trimStart s).

(** ** Regular expressions

    The patterns of the code are built from character classes,
    concatenation and [+], and are anchored at both ends, so that
    [test] asks whether the whole string belongs to the language of the
    pattern.  [test] is computed with derivatives. *)
Inductive RegExp :=
| Never
| Epsilon
| Class (accepts : Ascii.ascii -> bool)
| Seq (r1 r2 : RegExp)
| Alt (r1 r2 : RegExp)
| Star (r : RegExp).

(** [r+]. *)
Definition Plus (r : RegExp) : RegExp := Seq r (Star r).

Fixpoint nullable (r : RegExp) : bool :=
  match r with
  | Never => false
  | Epsilon => true
  | Class _ => false
  | Seq r1 r2 => nullable r1 && nullable r2
  | Alt r1 r2 => nullable r1 || nullable r2
  | Star _ => true
  end.

Fixpoint derive (c : Ascii.ascii) (r : RegExp) : RegExp :=
  match r with
  | Never => Never
  | Epsilon => Never
  | Class accepts => if accepts c then Epsilon else Never
  | Seq r1 r2 =>
      if nullable r1
      then Alt (Seq (derive c r1) r2) (derive c r2)
      else Seq (derive c r1) r2
  | Alt r1 r2 => Alt (derive c r1) (derive c r2)
  | Star r' => Seq (derive c r') (Star r')
  end.

(** [/^r$/.test(s)]. *)
Fixpoint RegExp_test (r : RegExp) (s : string) : bool :=
  match s with
  | EmptyString => nullable r
  | String c s' => RegExp_test (derive c r) s'
  end.

(** ** [Array.prototype.sort]

    The sort is stable, and [comparefn a b < 0] puts [a] before [b]: for
    a comparator that orders the elements consistently the result is the
    stable sort, computed here by insertion from the right. *)
Section Sort.
Context {T : Type}.
Variable comparefn : T -> T -> Z.

Fixpoint sort_insert (x : T) (sorted : list T) : list T :=
  match sorted with
  | [] => [x]
  | y :: rest =>
      if comparefn y x <? 0 then y :: sort_insert x rest else x :: sorted
  end.

Definition sort (l : list T) : list T := fold_right sort_insert [] l.
End Sort.

(** ** Methods that may throw

    An action reads and writes the state and returns or throws; a
    sequence of actions stops at the first one that throws. *)
Definition Action (St A : Type) := St -> Outcome A * St.

Definition act_ret {St A : Type} (a : A) : Action St A :=
  fun st => (Returned a, st).

Definition act_bind {St A B : Type} (m : Action St A) (f : A -> Action St B)
  : Action St B :=
  fun st =>
    match m st with
    | (Returned a, st') => f a st'
    | (Thrown message, st') => (Thrown message, st')
    end.

Definition act_outcome {St A : Type} (o : Outcome A) : Action St A :=
  fun st => (o, st).

Notation "x <- m ;; k" := (act_bind m (fun x => k))
  (at level 61, m at next level, right associativity) : action_scope.
Notation "'_' <- m ;; k" := (act_bind m (fun _ => k))
  (at level 61, m at next level, right associativity) : action_scope.

End Js.

(* ================================================================== *)
(** * packages/shared: types.ts and utils.ts                            *)
(* ================================================================== *)

Module Shared.

(** [interface SharedEntity { id; createdAt; updatedAt }].  A type
    [T extends SharedEntity] is a type with these three properties; the
    object spread [{...entity, updatedAt: d}] of [touchEntity] is the
    update [with_updatedAt d entity].  The laws say that the update
    writes [updatedAt] and nothing else. *)
Module SharedEntity.
Class t (T : Type) := {
  id : T -> string;
  createdAt : T -> Js.Date;
  updatedAt : T -> Js.Date;
  with_updatedAt : Js.Date -> T -> T;
  id_with_updatedAt : forall d e, id (with_updatedAt d e) = id e;
  createdAt_with_updatedAt :
    forall d e, createdAt (with_updatedAt d e) = createdAt e;
  updatedAt_with_updatedAt :
    forall d e, updatedAt (with_updatedAt d e) = d;
  with_updatedAt_same : forall e, with_updatedAt (updatedAt e) e = e;
  with_updatedAt_twice :
    forall d d' e, with_updatedAt d (with_updatedAt d' e) = with_updatedAt d e
}.
End SharedEntity.

(** [interface Result<T, E = string> { ok; value?; error? }]. *)
Module Result.
Record t (T E : Type) := mk {
  ok : bool;
  value : option T;
  error : option E
}.
Arguments mk {T E} ok value error.
Arguments ok {T E} _.
Arguments value {T E} _.
Arguments error {T E} _.
End Result.

(** The TypeScript type [void]: its only value is [undefined], so no
    defined value inhabits it. *)
Definition void := Empty_set.

Inductive SharedEventType := created | updated | deleted.
Inductive EventSource := backend | frontend.

(** [interface SharedEvent<T> { type; payload; timestamp; source }]. *)
Module SharedEvent.
Record t (T : Type) := mk {
  type : SharedEventType;
  payload : T;
  timestamp : Js.Date;
  source : EventSource
}.
Arguments mk {T} type payload timestamp source.
Arguments type {T} _.
Arguments payload {T} _.
Arguments timestamp {T} _.
Arguments source {T} _.
End SharedEvent.

Inductive SortOrder := asc | desc.

Module PaginationParams.
Record t := mk {
  page : Z;
  pageSize : Z;
  sortBy : option string;
  sortOrder : option SortOrder
}.
End PaginationParams.

Module PaginatedResponse.
Record t (T : Type) := mk {
  items : list T;
  total : Z;
  page : Z;
  pageSize : Z;
  totalPages : Js.Number
}.
Arguments mk {T} items total page pageSize totalPages.
Arguments items {T} _.
Arguments total {T} _.
Arguments page {T} _.
Arguments pageSize {T} _.
Arguments totalPages {T} _.
End PaginatedResponse.

(** [createSuccess(value)] is [{ ok: true, value }]; the argument is
    [undefined] when the caller passes [undefined] (the [Result<void>] of
    [delete]). *)
Definition createSuccess {T E : Type} (value : option T) : Result.t T E :=
  Result.mk true value None.

(** [createError(error)] is [{ ok: false, error }]. *)
Definition createError {T E : Type} (error : E) : Result.t T E :=
  Result.mk false None (Some error).

(** [unwrapResult]: throws on a failure, with the error as message or
    ['Unknown error'] when there is none, and on a success without value. *)
Definition unwrapResult {T : Type} (result : Result.t T string) : Js.Outcome T :=
  if negb (Result.ok result) then
    Js.Thrown (match Result.error result with
               | Some e => e
               | None => "Unknown error"%string
               end)
  else
    match Result.value result with
    | None => Js.Thrown "Result value is undefined"%string
    | Some v => Js.Returned v
    end.

(** [touchEntity(entity)] is [{ ...entity, updatedAt: new Date() }]. *)
Definition touchEntity {T : Type} `{SharedEntity.t T} (now : Js.Date) (entity : T) : T :=
  SharedEntity.with_updatedAt now entity.

(** [paginate(items, params)]. *)
Definition paginate {T : Type} (items : list T) (params : PaginationParams.t)
  : PaginatedResponse.t T :=
  let total := Z.of_nat (List.length items) in
  let totalPages := Js.ceil_div total (PaginationParams.pageSize params) in
  let start := (PaginationParams.page params - 1) * PaginationParams.pageSize params in
  let end_ := start + PaginationParams.pageSize params in
  PaginatedResponse.mk
    (Js.slice items start end_)
    total
    (PaginationParams.page params)
    (PaginationParams.pageSize params)
    totalPages.

End Shared.

(* ================================================================== *)
(** * packages/shared/validation.ts                                     *)
(* ================================================================== *)

Module Validation.

Module ValidationError.
Record t := mk {
  field : string;
  message : string;
  code : string
}.
End ValidationError.

(** [interface ValidationResult { ok; errors? }]. *)
Module ValidationResult.
Record t := mk {
  ok : bool;
  errors : option (list ValidationError.t)
}.
End ValidationResult.

Definition validationSuccess : ValidationResult.t :=
  ValidationResult.mk true None.

Definition validationError (errors : list ValidationError.t) : ValidationResult.t :=
  ValidationResult.mk false (Some errors).

(** One turn of the loop of [combineValidations]:
    [if (!result.ok && result.errors) allErrors.push(...result.errors)].
    An array is truthy even when it is empty. *)
Definition combine_step (allErrors : list ValidationError.t)
  (result : ValidationResult.t) : list ValidationError.t :=
  match negb (ValidationResult.ok result), ValidationResult.errors result with
  | true, Some errors => allErrors ++ errors
  | _, _ => allErrors
  end.

(** [combineValidations(...results)]. *)
Definition combineValidations (results : list ValidationResult.t) : ValidationResult.t :=
  let allErrors := fold_left combine_step results [] in
  if (0 <? List.length allErrors)%nat
  then validationError allErrors
  else validationSuccess.

(** ** The validators *)

(** The class [[^\s@]]. *)
Definition not_space_or_at (c : Ascii.ascii) : bool :=
  negb (Js.is_whitespace c) && negb (Ascii.eqb c "@").

Definition is_char (x c : Ascii.ascii) : bool := Ascii.eqb c x.

(** [const EMAIL_REGEX = /^[^\s@]+@[^\s@]+\.[^\s@]+$/]. *)
Definition EMAIL_REGEX : Js.RegExp :=
  Js.Seq (Js.Plus (Js.Class not_space_or_at))
    (Js.Seq (Js.Class (is_char "@"))
       (Js.Seq (Js.Plus (Js.Class not_space_or_at))
          (Js.Seq (Js.Class (is_char "."))
             (Js.Plus (Js.Class not_space_or_at))))).

(** [!s || s.trim().length === 0]: the empty string is falsy. *)
Definition is_blank (s : string) : bool :=
  match s with
  | EmptyString => true
  | _ => (String.length (Js.trim s) =? 0)%nat
  end.

(** [validateEmail(email)]. *)
Definition validateEmail (email : string) : ValidationResult.t :=
  if is_blank email then
    validationError [ValidationError.mk "email" "Email is required" "REQUIRED"]
  else if negb (Js.RegExp_test EMAIL_REGEX email) then
    validationError [ValidationError.mk "email" "Invalid email format" "INVALID_FORMAT"]
  else validationSuccess.

(** [validateName(name, fieldName = 'name')]. *)
Definition validateName (name : string) (fieldName : option string) : ValidationResult.t :=
  let fieldName := match fieldName with Some f => f | None => "name"%string end in
  if is_blank name then
    validationError
      [ValidationError.mk fieldName (fieldName ++ " is required") "REQUIRED"]
  else if (String.length name <? 2)%nat then
    validationError
      [ValidationError.mk fieldName
         (fieldName ++ " must be at least 2 characters") "MIN_LENGTH"]
  else if (100 <? String.length name)%nat then
    validationError
      [ValidationError.mk fieldName
         (fieldName ++ " must not exceed 100 characters") "MAX_LENGTH"]
  else validationSuccess.

(** A string in a condition: [undefined] and the empty string are falsy. *)
Definition truthy (s : option string) : bool :=
  match s with
  | None | Some EmptyString => false
  | Some _ => true
  end.

(** [s ?? '']. *)
Definition or_empty (s : option string) : string :=
  match s with Some x => x | None => EmptyString end.

(** The statement
    [if (!result.ok && result.errors) errors.push(...result.errors)]. *)
Definition push_errors (errors : list ValidationError.t) (result : ValidationResult.t)
  : list ValidationError.t :=
  match negb (ValidationResult.ok result), ValidationResult.errors result with
  | true, Some more => errors ++ more
  | _, _ => errors
  end.

(** The statement [if (!value) errors.push(error)]. *)
Definition push_if_missing (errors : list ValidationError.t) (value : option string)
  (error : ValidationError.t) : list ValidationError.t :=
  if truthy value then errors else errors ++ [error].

(** [Partial<UserDto>]; [role] is one of the strings ['admin'], ['user'],
    ['guest'] when it is there. *)
Module PartialUserDto.
Record t := mk {
  id : option string;
  createdAt : option Js.Date;
  updatedAt : option Js.Date;
  email : option string;
  name : option string;
  role : option string
}.
End PartialUserDto.

(** [Partial<ItemDto>]. *)
Module PartialItemDto.
Record t := mk {
  id : option string;
  createdAt : option Js.Date;
  updatedAt : option Js.Date;
  title : option string;
  description : option string;
  ownerId : option string;
  status : option string
}.
End PartialItemDto.

(** [validateUserDto(user)]. *)
Definition validateUserDto (user : PartialUserDto.t) : ValidationResult.t :=
  let errors := [] in
  let emailResult := validateEmail (or_empty (PartialUserDto.email user)) in
  let errors := push_errors errors emailResult in
  let nameResult := validateName (or_empty (PartialUserDto.name user)) (Some "name"%string) in
  let errors := push_errors errors nameResult in
  let errors :=
    push_if_missing errors (PartialUserDto.role user)
      (ValidationError.mk "role" "Role is required" "REQUIRED") in
  if (0 <? List.length errors)%nat then validationError errors else validationSuccess.

(** [validateItemDto(item)]. *)
Definition validateItemDto (item : PartialItemDto.t) : ValidationResult.t :=
  let errors := [] in
  let titleResult := validateName (or_empty (PartialItemDto.title item)) (Some "title"%string) in
  let errors := push_errors errors titleResult in
  let errors :=
    push_if_missing errors (PartialItemDto.description item)
      (ValidationError.mk "description" "Description is required" "REQUIRED") in
  let errors :=
    push_if_missing errors (PartialItemDto.ownerId item)
      (ValidationError.mk "ownerId" "Owner ID is required" "REQUIRED") in
  let errors :=
    push_if_missing errors (PartialItemDto.status item)
      (ValidationError.mk "status" "Status is required" "REQUIRED") in
  if (0 <? List.length errors)%nat then validationError errors else validationSuccess.

End Validation.

(* ================================================================== *)
(** * packages/backend                                                  *)
(* ================================================================== *)

Module Backend.
Import Shared.
Import Js.
Local Open Scope method_scope.

(** ** models.ts *)

(** [UserDto['role']] and [ItemDto['status']] are unions of string
    literals. *)
Inductive Role := admin | user | guest.
Inductive Status := draft | published | archived.

Definition Role_string (r : Role) : string :=
  match r with
  | admin => "admin"
  | user => "user"
  | guest => "guest"
  end.

Definition Status_string (s : Status) : string :=
  match s with
  | draft => "draft"
  | published => "published"
  | archived => "archived"
  end.

(** [interface BackendUser extends UserDto], with the inherited
    properties of [UserDto] and [SharedEntity] written out. *)
Module BackendUser.
Record t := mk {
  id : string;
  createdAt : Js.Date;
  updatedAt : Js.Date;
  email : string;
  name : string;
  role : Role;
  passwordHash : string;
  lastLoginAt : option Js.Date;
  loginCount : Z;
  isVerified : bool
}.

Definition with_updatedAt (d : Js.Date) (u : t) : t :=
  mk (id u) (createdAt u) d (email u) (name u) (role u)
     (passwordHash u) (lastLoginAt u) (loginCount u) (isVerified u).
End BackendUser.

(** [interface BackendItem extends ItemDto]. *)
Module BackendItem.
Record t := mk {
  id : string;
  createdAt : Js.Date;
  updatedAt : Js.Date;
  title : string;
  description : string;
  ownerId : string;
  status : Status;
  views : Z;
  lastViewedAt : option Js.Date;
  internalNotes : option string
}.

Definition with_updatedAt (d : Js.Date) (i : t) : t :=
  mk (id i) (createdAt i) d (title i) (description i) (ownerId i)
     (status i) (views i) (lastViewedAt i) (internalNotes i).
End BackendItem.

#[global] Program Instance BackendUser_entity : SharedEntity.t BackendUser.t := {
  SharedEntity.id := BackendUser.id;
  SharedEntity.createdAt := BackendUser.createdAt;
  SharedEntity.updatedAt := BackendUser.updatedAt;
  SharedEntity.with_updatedAt := BackendUser.with_updatedAt
}.
Next Obligation. now destruct e. Qed.

#[global] Program Instance BackendItem_entity : SharedEntity.t BackendItem.t := {
  SharedEntity.id := BackendItem.id;
  SharedEntity.createdAt := BackendItem.createdAt;
  SharedEntity.updatedAt := BackendItem.updatedAt;
  SharedEntity.with_updatedAt := BackendItem.with_updatedAt
}.
Next Obligation. now destruct e. Qed.

(** [createBackendUser]: the fields of [createEntityFields()] are the
    generated identifier and the time of the call, taken as arguments;
    [role] defaults to ['user']. *)
Definition createBackendUser (generated : string) (now : Js.Date)
  (email name passwordHash : string) (role : option Role) : BackendUser.t :=
  BackendUser.mk generated now now email name
    (match role with Some r => r | None => user end)
    passwordHash None 0 false.

Definition createBackendItem (generated : string) (now : Js.Date)
  (title description ownerId : string) (status : option Status) : BackendItem.t :=
  BackendItem.mk generated now now title description ownerId
    (match status with Some s => s | None => draft end)
    0 None None.

(** [toUserDto(user)]: the object literal that is returned, property by
    property. *)
Definition toUserDto (user : BackendUser.t) : Js.Object :=
  [ ("id", Js.VString (BackendUser.id user));
    ("createdAt", Js.VDate (BackendUser.createdAt user));
    ("updatedAt", Js.VDate (BackendUser.updatedAt user));
    ("email", Js.VString (BackendUser.email user));
    ("name", Js.VString (BackendUser.name user));
    ("role", Js.VString (Role_string (BackendUser.role user))) ]%string.

(** [toItemDto(item)]. *)
Definition toItemDto (item : BackendItem.t) : Js.Object :=
  [ ("id", Js.VString (BackendItem.id item));
    ("createdAt", Js.VDate (BackendItem.createdAt item));
    ("updatedAt", Js.VDate (BackendItem.updatedAt item));
    ("title", Js.VString (BackendItem.title item));
    ("description", Js.VString (BackendItem.description item));
    ("ownerId", Js.VString (BackendItem.ownerId item));
    ("status", Js.VString (Status_string (BackendItem.status item))) ]%string.

(** ** repository.ts: [class InMemoryRepository<T extends SharedEntity>]

    The only field is [store], a [Map<string, T>], empty at construction. *)
Section InMemoryRepository.
Context {T : Type} `{SharedEntity.t T}.

Definition Store := Js.Map T.

Definition new_store : Store := Js.Map_empty.

(** The template literal [`Entity with id ${id} not found`]. *)
Definition not_found (id : string) : string :=
  ("Entity with id " ++ id ++ " not found")%string.

Definition findById (id : string) : Js.Method Store (Result.t T string) :=
  store <- Js.this_get ;;
  match Js.Map_get id store with
  | None => Js.ret (createError (not_found id))
  | Some entity => Js.ret (createSuccess (Some entity))
  end.

Definition findAll : Js.Method Store (Result.t (list T) string) :=
  store <- Js.this_get ;;
  Js.ret (createSuccess (Some (Js.Map_values store))).

Definition findPaginated (params : PaginationParams.t)
  : Js.Method Store (Result.t (PaginatedResponse.t T) string) :=
  store <- Js.this_get ;;
  let items := Js.Map_values store in
  Js.ret (createSuccess (Some (paginate items params))).

Definition save (now : Js.Date) (entity : T) : Js.Method Store (Result.t T string) :=
  let updated := touchEntity now entity in
  _ <- Js.this_update (Js.Map_set (SharedEntity.id updated) updated) ;;
  Js.ret (createSuccess (Some updated)).

Definition delete (id : string) : Js.Method Store (Result.t void string) :=
  store <- Js.this_get ;;
  if negb (Js.Map_has id store) then
    Js.ret (createError (not_found id))
  else
    _ <- Js.this_update (Js.Map_delete id) ;;
    Js.ret (createSuccess None).
End InMemoryRepository.

Arguments Store T : clear implicits.

(** ** The service layer: the event code of [UserService] and [ItemService]

    Both classes hold [eventEmitters], an array of callbacks, and have
    the same [onEvent] and [emitEvent]; [Dto] is [UserDto] or [ItemDto].
    A callback may change the rest of the program ([World]), may register
    further callbacks with [onEvent] while it runs, and returns or
    throws: that is its [Reaction]. *)
Section Service.
Variable Dto : Type.
Variable World : Type.

Definition Event := SharedEvent.t Dto.

Record Reaction := mkReaction {
  after : World;
  registered : list Js.FnRef;
  completion : Js.Outcome unit
}.

Variable behaviour : Js.FnRef -> Event -> World -> Reaction.

Record Service := mkService {
  eventEmitters : list Js.FnRef
}.

Definition new_service : Service := mkService [].

(** The service, the rest of the program, and the record of the calls
    made to callbacks so far. *)
Record Running := mkRunning {
  this : Service;
  world : World;
  calls : list (Js.FnRef * Event)
}.

(** [onEvent(emitter)] is [this.eventEmitters.push(emitter)]; it
    returns nothing. *)
Definition onEvent (emitter : Js.FnRef) (svc : Service) : Service :=
  mkService (eventEmitters svc ++ [emitter]).

(** The call [emit(event)] of one callback. *)
Definition invoke (event : Event) (emit : Js.FnRef) (st : Running)
  : Running * Js.Outcome unit :=
  let r := behaviour emit event (world st) in
  (mkRunning (fold_left (fun svc h => onEvent h svc) (registered r) (this st))
             (after r)
             (calls st ++ [(emit, event)]),
   completion r).

(** [emitEvent(type, payload)]. *)
Definition emitEvent (now : Js.Date) (type : SharedEventType) (payload : Dto)
  (st : Running) : Running * Js.Outcome unit :=
  let event := SharedEvent.mk type payload now backend in
  Js.forEach (fun st => eventEmitters (this st)) (invoke event) st.

(** What a client can do to the event side of a service. *)
Inductive ServiceCall :=
| CallOnEvent (emitter : Js.FnRef)
| CallEmitEvent (now : Js.Date) (type : SharedEventType) (payload : Dto).

Definition perform (c : ServiceCall) (st : Running) : Running :=
  match c with
  | CallOnEvent emitter => mkRunning (onEvent emitter (this st)) (world st) (calls st)
  | CallEmitEvent now type payload => fst (emitEvent now type payload st)
  end.

Definition perform_all (cs : list ServiceCall) (st : Running) : Running :=
  fold_left (fun st c => perform c st) cs st.
End Service.

Arguments mkReaction {World} after registered completion.
Arguments after {World} _.
Arguments registered {World} _.
Arguments completion {World} _.
Arguments mkRunning {Dto World} this world calls.
Arguments this {Dto World} _.
Arguments world {Dto World} _.
Arguments calls {Dto World} _.
Arguments invoke {Dto World} behaviour event emit st.
Arguments emitEvent {Dto World} behaviour now type payload st.
Arguments CallOnEvent {Dto} emitter.
Arguments CallEmitEvent {Dto} now type payload.
Arguments perform {Dto World} behaviour c st.
Arguments perform_all {Dto World} behaviour cs st.

(** ** models.ts: the recorders *)

(** [recordUserLogin(user)]: the object literal reads the clock for
    [lastLoginAt], then [touchEntity] reads it for [updatedAt]. *)
Definition recordUserLogin (now_login now_touch : Date) (user : BackendUser.t)
  : BackendUser.t :=
  touchEntity now_touch
    (BackendUser.mk
       (BackendUser.id user) (BackendUser.createdAt user) (BackendUser.updatedAt user)
       (BackendUser.email user) (BackendUser.name user) (BackendUser.role user)
       (BackendUser.passwordHash user)
       (Some now_login)
       (Js.number_add (BackendUser.loginCount user) 1)
       (BackendUser.isVerified user)).

(** [recordItemView(item)]. *)
Definition recordItemView (now_view now_touch : Date) (item : BackendItem.t)
  : BackendItem.t :=
  touchEntity now_touch
    (BackendItem.mk
       (BackendItem.id item) (BackendItem.createdAt item) (BackendItem.updatedAt item)
       (BackendItem.title item) (BackendItem.description item) (BackendItem.ownerId item)
       (BackendItem.status item)
       (Js.number_add (BackendItem.views item) 1)
       (Some now_view)
       (BackendItem.internalNotes item)).

(** ** repository.ts: [class UserRepository extends InMemoryRepository<BackendUser>] *)

Definition UserStore := Store BackendUser.t.

(** The loop [for (const user of this.store.values())] of [findByEmail],
    which returns at the first user with the email. *)
Fixpoint findByEmail_loop (email : string) (users : list BackendUser.t)
  : Result.t BackendUser.t string :=
  match users with
  | [] => createError ("User with email " ++ email ++ " not found")%string
  | u :: rest =>
      if String.eqb (BackendUser.email u) email
      then createSuccess (Some u)
      else findByEmail_loop email rest
  end.

Definition findByEmail (email : string) : Method UserStore (Result.t BackendUser.t string) :=
  store <- this_get ;;
  ret (findByEmail_loop email (Map_values store)).

Definition findByRole (role : Role) : Method UserStore (Result.t (list BackendUser.t) string) :=
  store <- this_get ;;
  let users :=
    filter (fun u => String.eqb (Role_string (BackendUser.role u)) (Role_string role))
      (Map_values store) in
  ret (createSuccess (Some users)).

Definition findVerified : Method UserStore (Result.t (list BackendUser.t) string) :=
  store <- this_get ;;
  let users := filter (fun u => BackendUser.isVerified u) (Map_values store) in
  ret (createSuccess (Some users)).

(** ** repository.ts: [class ItemRepository extends InMemoryRepository<BackendItem>] *)

Definition ItemStore := Store BackendItem.t.

Definition findByOwner (ownerId : string)
  : Method ItemStore (Result.t (list BackendItem.t) string) :=
  store <- this_get ;;
  let items :=
    filter (fun i => String.eqb (BackendItem.ownerId i) ownerId) (Map_values store) in
  ret (createSuccess (Some items)).

Definition findByStatus (status : Status)
  : Method ItemStore (Result.t (list BackendItem.t) string) :=
  store <- this_get ;;
  let items :=
    filter (fun i => String.eqb (Status_string (BackendItem.status i)) (Status_string status))
      (Map_values store) in
  ret (createSuccess (Some items)).

(** [findMostViewed(limit)]: the values are copied, sorted by descending
    views and cut to [limit]. *)
Definition findMostViewed (limit : Z)
  : Method ItemStore (Result.t (list BackendItem.t) string) :=
  store <- this_get ;;
  let items :=
    slice (sort (fun a b => BackendItem.views b - BackendItem.views a) (Map_values store))
      0 limit in
  ret (createSuccess (Some items)).

(** ** The service layer: the methods of the services

    The methods are [async]: a caller that awaits each call before it
    makes the next one sees them run one after the other, and that is how
    they are modelled.  Each [new Date()] and the identifier drawn by
    [generateUniqueId()] are arguments, in the order the method reads
    them.  A method throws when a subscriber called by [emitEvent]
    throws. *)

(** [x ?? fallback] on a string. *)
Definition or_else (x : option string) (fallback : string) : string :=
  match x with Some s => s | None => fallback end.

(** The message
    [`Validation failed: ${validation.errors?.map(e => e.message).join(', ')}`]. *)
Definition validation_failed (validation : Validation.ValidationResult.t) : string :=
  ("Validation failed: " ++
   match Validation.ValidationResult.errors validation with
   | Some errors => String.concat ", " (map Validation.ValidationError.message errors)
   | None => "undefined"
   end)%string.

(** [{ ...page, items: page.items.map(toDto) }]. *)
Definition map_page {A B : Type} (toDto : A -> B) (page : PaginatedResponse.t A)
  : PaginatedResponse.t B :=
  PaginatedResponse.mk
    (map toDto (PaginatedResponse.items page))
    (PaginatedResponse.total page)
    (PaginatedResponse.page page)
    (PaginatedResponse.pageSize page)
    (PaginatedResponse.totalPages page).

Module UserService.
Local Open Scope action_scope.

(** [hashPassword] and [verifyPassword]. *)
Definition hashPassword (password : string) : string :=
  ("hashed_" ++ password)%string.

Definition verifyPassword (password hash : string) : bool :=
  String.eqb hash ("hashed_" ++ password)%string.

(** [Partial<Pick<UserDto, 'name' | 'role'>>]: each property is there, with
    a value, or not. *)
Record Updates := mkUpdates {
  new_name : option string;
  new_role : option Role
}.

(** [{ ...existing, ...updates }]. *)
Definition apply_updates (existing : BackendUser.t) (updates : Updates) : BackendUser.t :=
  BackendUser.mk
    (BackendUser.id existing) (BackendUser.createdAt existing)
    (BackendUser.updatedAt existing) (BackendUser.email existing)
    (match new_name updates with Some n => n | None => BackendUser.name existing end)
    (match new_role updates with Some r => r | None => BackendUser.role existing end)
    (BackendUser.passwordHash existing) (BackendUser.lastLoginAt existing)
    (BackendUser.loginCount existing) (BackendUser.isVerified existing).

Section Methods.
Variable World : Type.
Variable behaviour : FnRef -> Event Object -> World -> Reaction World.

(** The fields: the repository and the subscribers, with the rest of the
    program and the record of the calls made to subscribers. *)
Record t := mk {
  repository : UserStore;
  notifier : Running Object World
}.

Definition on_repository {A : Type} (m : Method UserStore A) : Action t A :=
  fun svc =>
    let (a, store) := m (repository svc) in
    (Returned a, mk store (notifier svc)).

Definition emit (now : Date) (type : SharedEventType) (payload : Object) : Action t unit :=
  fun svc =>
    let (n, outcome) := emitEvent behaviour now type payload (notifier svc) in
    (outcome, mk (repository svc) n).

Definition registerUser (generated : string) (now_new now_save now_emit : Date)
  (email name password : string) (role : option Role)
  : Action t (Result.t Object string) :=
  let role := match role with Some r => r | None => user end in
  let validation :=
    Validation.validateUserDto
      (Validation.PartialUserDto.mk None None None
         (Some email) (Some name) (Some (Role_string role))) in
  if negb (Validation.ValidationResult.ok validation) then
    act_ret (createError (validation_failed validation))
  else
    existing <- on_repository (findByEmail email) ;;
    if Result.ok existing then
      act_ret (createError "Email already in use"%string)
    else
      let passwordHash := hashPassword password in
      let u := createBackendUser generated now_new email name passwordHash (Some role) in
      saveResult <- on_repository (save now_save u) ;;
      if negb (Result.ok saveResult) then
        act_ret (createError (or_else (Result.error saveResult) "Failed to save user"))
      else
        saved <- act_outcome (unwrapResult saveResult) ;;
        let dto := toUserDto saved in
        _ <- emit now_emit created dto ;;
        act_ret (createSuccess (Some dto)).

Definition authenticateUser (now_login now_touch now_save : Date)
  (email password : string) : Action t (Result.t Object string) :=
  userResult <- on_repository (findByEmail email) ;;
  if negb (Result.ok userResult) then
    act_ret (createError "Invalid credentials"%string)
  else
    u <- act_outcome (unwrapResult userResult) ;;
    let validPassword := verifyPassword password (BackendUser.passwordHash u) in
    if negb validPassword then
      act_ret (createError "Invalid credentials"%string)
    else
      let updatedUser := recordUserLogin now_login now_touch u in
      _ <- on_repository (save now_save updatedUser) ;;
      act_ret (createSuccess (Some (toUserDto updatedUser))).

Definition getUserById (id : string) : Action t (Result.t Object string) :=
  result <- on_repository (findById id) ;;
  if negb (Result.ok result) then
    act_ret (createError (or_else (Result.error result) "User not found"))
  else
    u <- act_outcome (unwrapResult result) ;;
    act_ret (createSuccess (Some (toUserDto u))).

Definition listUsers (params : PaginationParams.t)
  : Action t (Result.t (PaginatedResponse.t Object) string) :=
  result <- on_repository (findPaginated params) ;;
  if negb (Result.ok result) then
    act_ret (createError (or_else (Result.error result) "Failed to list users"))
  else
    page <- act_outcome (unwrapResult result) ;;
    act_ret (createSuccess (Some (map_page toUserDto page))).

Definition updateUser (now_save now_emit : Date) (id : string) (updates : Updates)
  : Action t (Result.t Object string) :=
  existingResult <- on_repository (findById id) ;;
  if negb (Result.ok existingResult) then
    act_ret (createError (or_else (Result.error existingResult) "User not found"))
  else
    existing <- act_outcome (unwrapResult existingResult) ;;
    let updatedUser := apply_updates existing updates in
    saveResult <- on_repository (save now_save updatedUser) ;;
    if negb (Result.ok saveResult) then
      act_ret (createError (or_else (Result.error saveResult) "Failed to update user"))
    else
      saved <- act_outcome (unwrapResult saveResult) ;;
      let dto := toUserDto saved in
      _ <- emit now_emit updated dto ;;
      act_ret (createSuccess (Some dto)).

Definition deleteUser (now_emit : Date) (id : string) : Action t (Result.t void string) :=
  existingResult <- on_repository (findById id) ;;
  if negb (Result.ok existingResult) then
    act_ret (createError (or_else (Result.error existingResult) "User not found"))
  else
    existing <- act_outcome (unwrapResult existingResult) ;;
    let dto := toUserDto existing in
    result <- on_repository (delete id) ;;
    if Result.ok result then
      _ <- emit now_emit deleted dto ;;
      act_ret result
    else
      act_ret result.

(** [onEvent(emitter)], on the service as a whole. *)
Definition subscribe (emitter : FnRef) : Action t unit :=
  fun svc =>
    (Returned tt,
     mk (repository svc)
        (mkRunning (onEvent emitter (this (notifier svc)))
           (world (notifier svc)) (calls (notifier svc)))).
End Methods.

Arguments mk {World} repository notifier.
Arguments repository {World} _.
Arguments notifier {World} _.
Arguments on_repository {World A} m _.
Arguments emit {World} behaviour now type payload _.
Arguments registerUser {World} behaviour generated now_new now_save now_emit
  email name password role _.
Arguments authenticateUser {World} now_login now_touch now_save email password _.
Arguments getUserById {World} id _.
Arguments listUsers {World} params _.
Arguments updateUser {World} behaviour now_save now_emit id updates _.
Arguments deleteUser {World} behaviour now_emit id _.
Arguments subscribe {World} emitter _.

End UserService.

Module ItemService.
Local Open Scope action_scope.

Section Methods.
Variable World : Type.
Variable behaviour : FnRef -> Event Object -> World -> Reaction World.

Record t := mk {
  repository : ItemStore;
  notifier : Running Object World
}.

Definition on_repository {A : Type} (m : Method ItemStore A) : Action t A :=
  fun svc =>
    let (a, store) := m (repository svc) in
    (Returned a, mk store (notifier svc)).

Definition emit (now : Date) (type : SharedEventType) (payload : Object) : Action t unit :=
  fun svc =>
    let (n, outcome) := emitEvent behaviour now type payload (notifier svc) in
    (outcome, mk (repository svc) n).

Definition createItem (generated : string) (now_new now_save now_emit : Date)
  (title description ownerId : string) (status : option Status)
  : Action t (Result.t Object string) :=
  let status := match status with Some s => s | None => draft end in
  let validation :=
    Validation.validateItemDto
      (Validation.PartialItemDto.mk None None None
         (Some title) (Some description) (Some ownerId) (Some (Status_string status))) in
  if negb (Validation.ValidationResult.ok validation) then
    act_ret (createError (validation_failed validation))
  else
    let item := createBackendItem generated now_new title description ownerId (Some status) in
    saveResult <- on_repository (save now_save item) ;;
    if negb (Result.ok saveResult) then
      act_ret (createError (or_else (Result.error saveResult) "Failed to save item"))
    else
      saved <- act_outcome (unwrapResult saveResult) ;;
      let dto := toItemDto saved in
      _ <- emit now_emit created dto ;;
      act_ret (createSuccess (Some dto)).

Definition getItemById (now_view now_touch now_save : Date) (id : string)
  : Action t (Result.t Object string) :=
  result <- on_repository (findById id) ;;
  if negb (Result.ok result) then
    act_ret (createError (or_else (Result.error result) "Item not found"))
  else
    item <- act_outcome (unwrapResult result) ;;
    let viewed := recordItemView now_view now_touch item in
    _ <- on_repository (save now_save viewed) ;;
    act_ret (createSuccess (Some (toItemDto viewed))).

Definition listItems (params : PaginationParams.t)
  : Action t (Result.t (PaginatedResponse.t Object) string) :=
  result <- on_repository (findPaginated params) ;;
  if negb (Result.ok result) then
    act_ret (createError (or_else (Result.error result) "Failed to list items"))
  else
    page <- act_outcome (unwrapResult result) ;;
    act_ret (createSuccess (Some (map_page toItemDto page))).

Definition getItemsByOwner (ownerId : string) : Action t (Result.t (list Object) string) :=
  result <- on_repository (findByOwner ownerId) ;;
  if negb (Result.ok result) then
    act_ret (createError (or_else (Result.error result) "Failed to get items"))
  else
    items <- act_outcome (unwrapResult result) ;;
    act_ret (createSuccess (Some (map toItemDto items))).

Definition updateItemStatus (now_save now_emit : Date) (id : string) (status : Status)
  : Action t (Result.t Object string) :=
  existingResult <- on_repository (findById id) ;;
  if negb (Result.ok existingResult) then
    act_ret (createError (or_else (Result.error existingResult) "Item not found"))
  else
    existing <- act_outcome (unwrapResult existingResult) ;;
    let updatedItem :=
      BackendItem.mk
        (BackendItem.id existing) (BackendItem.createdAt existing)
        (BackendItem.updatedAt existing) (BackendItem.title existing)
        (BackendItem.description existing) (BackendItem.ownerId existing)
        status
        (BackendItem.views existing) (BackendItem.lastViewedAt existing)
        (BackendItem.internalNotes existing) in
    saveResult <- on_repository (save now_save updatedItem) ;;
    if negb (Result.ok saveResult) then
      act_ret (createError (or_else (Result.error saveResult) "Failed to update item"))
    else
      saved <- act_outcome (unwrapResult saveResult) ;;
      let dto := toItemDto saved in
      _ <- emit now_emit updated dto ;;
      act_ret (createSuccess (Some dto)).

Definition deleteItem (now_emit : Date) (id : string) : Action t (Result.t void string) :=
  existingResult <- on_repository (findById id) ;;
  if negb (Result.ok existingResult) then
    act_ret (createError (or_else (Result.error existingResult) "Item not found"))
  else
    existing <- act_outcome (unwrapResult existingResult) ;;
    let dto := toItemDto existing in
    result <- on_repository (delete id) ;;
    if Result.ok result then
      _ <- emit now_emit deleted dto ;;
      act_ret result
    else
      act_ret result.
End Methods.

Arguments mk {World} repository notifier.
Arguments repository {World} _.
Arguments notifier {World} _.
Arguments on_repository {World A} m _.
Arguments emit {World} behaviour now type payload _.
Arguments createItem {World} behaviour generated now_new now_save now_emit
  title description ownerId status _.
Arguments getItemById {World} now_view now_touch now_save id _.
Arguments listItems {World} params _.
Arguments getItemsByOwner {World} ownerId _.
Arguments updateItemStatus {World} behaviour now_save now_emit id status _.
Arguments deleteItem {World} behaviour now_emit id _.

End ItemService.

End Backend.

(* ================================================================== *)
(** * packages/frontend/state.ts: [class NotificationManager]           *)
(* ================================================================== *)

Module Frontend.
Import Js.

Inductive NotificationType := success | error | warning | info.

(** [interface Notification { id; type; message; duration? }]. *)
Module Notification.
Record t := mk {
  id : string;
  type : NotificationType;
  message : string;
  duration : option Z
}.
End Notification.

Module NotificationManager.

(** The private fields.  [notifications] is assigned a new array at each
    change.  [listeners] is the content of the array that the field
    refers to: [subscribe] pushes onto this array; the closure of
    [subscribe] assigns a new array to the field. *)
Record t := mk {
  notifications : list Notification.t;
  listeners : list FnRef;
  idCounter : Z
}.

Definition new_manager : t := mk [] [] 0.

(** The closure returned by [subscribe]; it captures [listener]. *)
Record Unsubscribe := mkUnsubscribe {
  captured : FnRef
}.

(** [subscribe(listener)]: pushes the listener and returns the closure
    [() => { this.listeners = this.listeners.filter(l => l !== listener) }]. *)
Definition subscribe (listener : FnRef) : Method t Unsubscribe :=
  (_ <- this_update (fun nm =>
          mk (notifications nm) (listeners nm ++ [listener]) (idCounter nm)) ;;
   ret (mkUnsubscribe listener))%method.

Definition getAll : Method t (list Notification.t) :=
  (nm <- this_get ;; ret (notifications nm))%method.

(** [`notification-${counter}`]. *)
Definition notification_id (counter : Z) : string :=
  ("notification-" ++ NilZero.string_of_int (Z.to_int counter))%string.

(** The fields after the first two statements of [add]:
    [++this.idCounter] and
    [this.notifications = [...this.notifications, notification]]. *)
Definition store (type : NotificationType) (message : string) (duration : Z) (nm : t) : t :=
  let counter := number_add (idCounter nm) 1 in
  mk (notifications nm
      ++ [Notification.mk (notification_id counter) type message (Some duration)])
     (listeners nm) counter.

(** The fields after the first statement of [remove]:
    [this.notifications = this.notifications.filter(n => n.id !== id)]. *)
Definition discard (id : string) (nm : t) : t :=
  mk (filter (fun n => negb (String.eqb (Notification.id n) id)) (notifications nm))
     (listeners nm) (idCounter nm).

(** What can be called on a manager: the public methods, and the
    closures that [subscribe] returned. *)
Inductive Call :=
| CallAdd (type : NotificationType) (message : string) (duration : option Z)
| CallRemove (id : string)
| CallSubscribe (listener : FnRef)
| CallUnsubscribe (u : Unsubscribe)
| CallGetAll.

(** What such a call returns. *)
Inductive Answer :=
| AnswerId (id : string)
| AnswerNothing
| AnswerClosure (u : Unsubscribe)
| AnswerNotifications (ns : list Notification.t).

(** ** Listeners

    A listener is any function of the program: while it runs it may
    change the rest of the program ([World]) and call the manager, any
    number of times, each time seeing what the call returns or throws,
    before it returns or throws itself.  It treats the array it is handed
    as a value. *)
Section Listeners.
Variable World : Type.

Inductive Code :=
| Finish (w : World) (completion : Outcome unit)
| Invoke (w : World) (c : Call) (continue : World -> Outcome Answer -> Code).

Variable behaviour : FnRef -> list Notification.t -> World -> Code.

(** The manager; the arrays that [listeners] referred to before, oldest
    first, which a traversal that started on one of them still goes over;
    the rest of the program; the record of the calls made to listeners;
    the record of the calls made on the manager, by clients and by
    listeners; and the timers handed to [setTimeout]: the delay and the
    id that the timer will pass to [remove]. *)
Record Running := mkRunning {
  this : t;
  retired : list (list FnRef);
  world : World;
  calls : list (FnRef * list Notification.t);
  performed : list Call;
  timers : list (Z * string)
}.

Definition with_this (nm : t) (st : Running) : Running :=
  mkRunning nm (retired st) (world st) (calls st) (performed st) (timers st).

Definition with_world (w : World) (st : Running) : Running :=
  mkRunning (this st) (retired st) w (calls st) (performed st) (timers st).

Definition record_call (listener : FnRef) (st : Running) : Running :=
  mkRunning (this st) (retired st) (world st)
    (calls st ++ [(listener, notifications (this st))]) (performed st) (timers st).

Definition record_performed (c : Call) (st : Running) : Running :=
  mkRunning (this st) (retired st) (world st) (calls st) (performed st ++ [c])
    (timers st).

Definition set_timer (delay : Z) (id : string) (st : Running) : Running :=
  mkRunning (this st) (retired st) (world st) (calls st) (performed st)
    (timers st ++ [(delay, id)]).

(** The arrays of listeners are numbered in the order in which the field
    has referred to them; the field refers to the array [generation]. *)
Definition generation (st : Running) : nat := List.length (retired st).

Definition array_at (g : nat) (st : Running) : list FnRef :=
  if Nat.eqb g (generation st) then listeners (this st) else nth g (retired st) [].

(** A call of the closure of [subscribe]: the field is assigned the
    filtered array, and the array it referred to is left as it is. *)
Definition call_unsubscribe (u : Unsubscribe) (st : Running) : Running :=
  mkRunning
    (mk (notifications (this st))
        (filter (fun l => negb (Nat.eqb l (captured u))) (listeners (this st)))
        (idCounter (this st)))
    (retired st ++ [listeners (this st)])
    (world st) (calls st) (performed st) (timers st).

(** The methods, given what a call of the manager by a listener does
    ([below]: one frame deeper on the call stack). *)
Section Frame.
Variable below : Call -> Running -> Running * Outcome Answer.

(** A listener runs. *)
Fixpoint run (code : Code) (st : Running) : Running * Outcome unit :=
  match code with
  | Finish w completion => (with_world w st, completion)
  | Invoke w c continue =>
      let (st', answer) := below c (with_world w st) in
      run (continue (world st') answer) st'
  end.

(** The call [listener(this.notifications)]. *)
Definition notify (listener : FnRef) (st : Running) : Running * Outcome unit :=
  run (behaviour listener (notifications (this st)) (world st))
      (record_call listener st).

(** [notifyListeners()]: [forEach] goes over the array that the field
    refers to when the traversal starts. *)
Definition notifyListeners (st : Running) : Running * Outcome unit :=
  forEach (array_at (generation st)) notify st.

(** [add(type, message, duration = 5000)]. *)
Definition add (type : NotificationType) (message : string)
  (duration : option Z) (st : Running) : Running * Outcome string :=
  let duration := match duration with Some d => d | None => 5000 end in
  let id := notification_id (number_add (idCounter (this st)) 1) in
  match notifyListeners (with_this (store type message duration (this st)) st) with
  | (st', Thrown m) => (st', Thrown m)
  | (st', Returned _) =>
      let st'' := if 0 <? duration then set_timer duration id st' else st' in
      (st'', Returned id)
  end.

(** [remove(id)]. *)
Definition remove (id : string) (st : Running) : Running * Outcome unit :=
  notifyListeners (with_this (discard id (this st)) st).

(** A call of the manager; it is put on record first. *)
Definition perform (c : Call) (st : Running) : Running * Outcome Answer :=
  let st := record_performed c st in
  match c with
  | CallAdd type message duration =>
      match add type message duration st with
      | (st', Returned id) => (st', Returned (AnswerId id))
      | (st', Thrown m) => (st', Thrown m)
      end
  | CallRemove id =>
      match remove id st with
      | (st', Returned _) => (st', Returned AnswerNothing)
      | (st', Thrown m) => (st', Thrown m)
      end
  | CallSubscribe listener =>
      let (u, nm) := subscribe listener (this st) in
      (with_this nm st, Returned (AnswerClosure u))
  | CallUnsubscribe u => (call_unsubscribe u st, Returned AnswerNothing)
  | CallGetAll =>
      let (ns, nm) := getAll (this st) in
      (with_this nm st, Returned (AnswerNotifications ns))
  end.
End Frame.

(** The call stack is finite: a call of the manager by a listener, when
    [depth] calls of the manager can still be nested, throws the
    [RangeError] of the engine when [depth] is zero. *)
Fixpoint perform_at (depth : nat) : Call -> Running -> Running * Outcome Answer :=
  match depth with
  | O => fun _ st => (st, Thrown "Maximum call stack size exceeded")
  | Datatypes.S depth' => perform (perform_at depth')
  end.
End Listeners.

Arguments Finish {World} w completion.
Arguments Invoke {World} w c continue.
Arguments mkRunning {World} this retired world calls performed timers.
Arguments this {World} _.
Arguments retired {World} _.
Arguments world {World} _.
Arguments calls {World} _.
Arguments performed {World} _.
Arguments timers {World} _.
Arguments with_this {World} nm st.
Arguments with_world {World} w st.
Arguments record_call {World} listener st.
Arguments record_performed {World} c st.
Arguments set_timer {World} delay id st.
Arguments generation {World} st.
Arguments array_at {World} g st.
Arguments call_unsubscribe {World} u st.
Arguments run {World} below code st.
Arguments notify {World} behaviour below listener st.
Arguments notifyListeners {World} behaviour below st.
Arguments add {World} behaviour below type message duration st.
Arguments remove {World} behaviour below id st.
Arguments perform {World} behaviour below c st.
Arguments perform_at {World} behaviour depth c st.

End NotificationManager.

(** ** state.ts: the reducers, the form validators and the selectors

    [UserDto] and [ItemDto] of [shared/types], which the states of the
    user interface hold, as records of their properties. *)
Module UserDto.
Record t := mk {
  id : string;
  createdAt : Date;
  updatedAt : Date;
  email : string;
  name : string;
  role : Backend.Role
}.
End UserDto.

Module ItemDto.
Record t := mk {
  id : string;
  createdAt : Date;
  updatedAt : Date;
  title : string;
  description : string;
  ownerId : string;
  status : Backend.Status
}.
End ItemDto.

(** [interface UserState]; [null] is [None]. *)
Module UserState.
Record t := mk {
  user : option UserDto.t;
  isLoading : bool;
  error : option string
}.
End UserState.

(** [interface ItemsState]. *)
Module ItemsState.
Record t := mk {
  items : list ItemDto.t;
  selectedItem : option ItemDto.t;
  isLoading : bool;
  error : option string;
  pagination : Shared.PaginationParams.t
}.
End ItemsState.

(** [type UserAction], a union tagged by [type]. *)
Module UserAction.
Inductive t :=
| SET_USER (payload : UserDto.t)
| CLEAR_USER
| SET_LOADING (payload : bool)
| SET_ERROR (payload : string).
End UserAction.

(** [type ItemAction]. *)
Module ItemAction.
Inductive t :=
| SET_ITEMS (payload : list ItemDto.t)
| ADD_ITEM (payload : ItemDto.t)
| UPDATE_ITEM (payload : ItemDto.t)
| REMOVE_ITEM (payload : string)
| SELECT_ITEM (payload : option ItemDto.t)
| SET_LOADING (payload : bool)
| SET_ERROR (payload : string)
| SET_PAGINATION (payload : Shared.PaginationParams.t).
End ItemAction.

(** [createInitialUserState()]. *)
Definition createInitialUserState : UserState.t :=
  UserState.mk None false None.

(** [createInitialItemsState()]; the pagination literal has no [sortBy]
    and no [sortOrder]. *)
Definition createInitialItemsState : ItemsState.t :=
  ItemsState.mk [] None false None (Shared.PaginationParams.mk 1 10 None None).

(** [userReducer(state, action)].  The [default] branch of the [switch]
    is reached by no action of the type [UserAction]. *)
Definition userReducer (state : UserState.t) (action : UserAction.t) : UserState.t :=
  match action with
  | UserAction.SET_USER payload =>
      UserState.mk (Some payload) (UserState.isLoading state) None
  | UserAction.CLEAR_USER =>
      UserState.mk None (UserState.isLoading state) (UserState.error state)
  | UserAction.SET_LOADING payload =>
      UserState.mk (UserState.user state) payload (UserState.error state)
  | UserAction.SET_ERROR payload =>
      UserState.mk (UserState.user state) false (Some payload)
  end.

(** [state.selectedItem?.id === id]: with no selected item the left side
    is [undefined], which is no string. *)
Definition selected_has_id (selectedItem : option ItemDto.t) (id : string) : bool :=
  match selectedItem with
  | Some item => String.eqb (ItemDto.id item) id
  | None => false
  end.

(** [itemsReducer(state, action)]. *)
Definition itemsReducer (state : ItemsState.t) (action : ItemAction.t) : ItemsState.t :=
  match action with
  | ItemAction.SET_ITEMS payload =>
      ItemsState.mk payload (ItemsState.selectedItem state) (ItemsState.isLoading state)
        None (ItemsState.pagination state)
  | ItemAction.ADD_ITEM payload =>
      ItemsState.mk (ItemsState.items state ++ [payload]) (ItemsState.selectedItem state)
        (ItemsState.isLoading state) (ItemsState.error state) (ItemsState.pagination state)
  | ItemAction.UPDATE_ITEM payload =>
      ItemsState.mk
        (map (fun item =>
                if String.eqb (ItemDto.id item) (ItemDto.id payload) then payload else item)
             (ItemsState.items state))
        (if selected_has_id (ItemsState.selectedItem state) (ItemDto.id payload)
         then Some payload
         else ItemsState.selectedItem state)
        (ItemsState.isLoading state) (ItemsState.error state) (ItemsState.pagination state)
  | ItemAction.REMOVE_ITEM payload =>
      ItemsState.mk
        (filter (fun item => negb (String.eqb (ItemDto.id item) payload))
           (ItemsState.items state))
        (if selected_has_id (ItemsState.selectedItem state) payload
         then None
         else ItemsState.selectedItem state)
        (ItemsState.isLoading state) (ItemsState.error state) (ItemsState.pagination state)
  | ItemAction.SELECT_ITEM payload =>
      ItemsState.mk (ItemsState.items state) payload (ItemsState.isLoading state)
        (ItemsState.error state) (ItemsState.pagination state)
  | ItemAction.SET_LOADING payload =>
      ItemsState.mk (ItemsState.items state) (ItemsState.selectedItem state) payload
        (ItemsState.error state) (ItemsState.pagination state)
  | ItemAction.SET_ERROR payload =>
      ItemsState.mk (ItemsState.items state) (ItemsState.selectedItem state) false
        (Some payload) (ItemsState.pagination state)
  | ItemAction.SET_PAGINATION payload =>
      ItemsState.mk (ItemsState.items state) (ItemsState.selectedItem state)
        (ItemsState.isLoading state) (ItemsState.error state) payload
  end.

(** [interface UserFormState]; [errors] is a [Record<string, string>]: an
    object whose own properties are kept in the order of their creation. *)
Module UserFormState.
Record t := mk {
  email : string;
  name : string;
  password : string;
  confirmPassword : string;
  errors : Map string;
  isSubmitting : bool
}.
End UserFormState.

(** [interface ItemFormState]. *)
Module ItemFormState.
Record t := mk {
  title : string;
  description : string;
  status : Backend.Status;
  errors : Map string;
  isSubmitting : bool
}.
End ItemFormState.

(** [createInitialUserFormState()]. *)
Definition createInitialUserFormState : UserFormState.t :=
  UserFormState.mk EmptyString EmptyString EmptyString EmptyString Map_empty false.

(** [createInitialItemFormState()]. *)
Definition createInitialItemFormState : ItemFormState.t :=
  ItemFormState.mk EmptyString EmptyString Backend.draft Map_empty false.

(** The statement
    [if (!result.ok && result.errors)
       errors[key] = result.errors[0]?.message ?? fallback]. *)
Definition set_first_message (key : string) (result : Validation.ValidationResult.t)
  (fallback : string) (errors : Map string) : Map string :=
  match negb (Validation.ValidationResult.ok result),
        Validation.ValidationResult.errors result with
  | true, Some (first :: _) => Map_set key (Validation.ValidationError.message first) errors
  | true, Some [] => Map_set key fallback errors
  | _, _ => errors
  end.

(** [validateUserForm(form)]. *)
Definition validateUserForm (form : UserFormState.t) : Map string :=
  let errors := Map_empty in
  let emailResult := Validation.validateEmail (UserFormState.email form) in
  let errors := set_first_message "email" emailResult "Invalid email" errors in
  let nameResult := Validation.validateName (UserFormState.name form) None in
  let errors := set_first_message "name" nameResult "Invalid name" errors in
  let errors :=
    if (String.length (UserFormState.password form) <? 8)%nat
    then Map_set "password" "Password must be at least 8 characters"%string errors
    else errors in
  let errors :=
    if negb (String.eqb (UserFormState.password form) (UserFormState.confirmPassword form))
    then Map_set "confirmPassword" "Passwords do not match"%string errors
    else errors in
  errors.

(** [validateItemForm(form)]. *)
Definition validateItemForm (form : ItemFormState.t) : Map string :=
  let errors := Map_empty in
  let titleResult :=
    Validation.validateName (ItemFormState.title form) (Some "title"%string) in
  let errors := set_first_message "title" titleResult "Invalid title" errors in
  let errors :=
    if Validation.is_blank (ItemFormState.description form)
    then Map_set "description" "Description is required"%string errors
    else errors in
  errors.

(** [selectUserDisplayName(state)]: [state.user?.name ?? 'Guest']. *)
Definition selectUserDisplayName (state : UserState.t) : string :=
  match UserState.user state with
  | Some user => UserDto.name user
  | None => "Guest"%string
  end.

(** [selectItemsCount(state)]. *)
Definition selectItemsCount (state : ItemsState.t) : Z :=
  Z.of_nat (List.length (ItemsState.items state)).

(** [selectPublishedItems(state)]. *)
Definition selectPublishedItems (state : ItemsState.t) : list ItemDto.t :=
  filter (fun item =>
            match ItemDto.status item with Backend.published => true | _ => false end)
    (ItemsState.items state).

End Frontend.

(* ================================================================== *)
(** * Vocabulary of the properties                                      *)
(* ================================================================== *)

Import Js Shared.

(** ** Pagination *)

(** The page window as the specification words it: the elements of
    [items] from index [(page - 1) * pageSize], at most [pageSize] of
    them. *)
Definition spec_page_window {T : Type} (items : list T) (page pageSize : Z) : list T :=
  firstn (Z.to_nat pageSize) (skipn (Z.to_nat ((page - 1) * pageSize)) items).

(** The pages [1 .. k]. *)
Definition pages_upto (k : Z) : list Z := map Z.of_nat (seq 1 (Z.to_nat k)).

(** The parameters of another page of the same listing. *)
Definition at_page (p : Z) (params : PaginationParams.t) : PaginationParams.t :=
  PaginationParams.mk p (PaginationParams.pageSize params)
    (PaginationParams.sortBy params) (PaginationParams.sortOrder params).


(** ** Results *)

(** The invariant of [Result] as the specification states it: a success
    has a value and no error, a failure has an error and no value.  A
    property is present when it is not [undefined]. *)
Definition result_valid {T E : Type} (r : Result.t T E) : Prop :=
  (Result.ok r = true <-> Result.value r <> None /\ Result.error r = None) /\
  (Result.ok r = false <-> Result.error r <> None /\ Result.value r = None).

(** The part of it that does not ask a success for a value. *)
Definition result_tagged {T E : Type} (r : Result.t T E) : Prop :=
  (Result.ok r = true <-> Result.error r = None) /\
  (Result.ok r = false <-> Result.error r <> None /\ Result.value r = None).

(** ** The in-memory repository *)

Section RepositoryVocabulary.
Context {T : Type} `{SharedEntity.t T}.

(** Every entry of the backing map is filed under the id of its entity. *)
Definition key_consistent (store : Backend.Store T) : Prop :=
  Forall (fun kv => SharedEntity.id (snd kv) = fst kv) store.

(** No key occurs twice: the list of entries is a map. *)
Definition keys_unique (store : Backend.Store T) : Prop :=
  NoDup (Map_keys store).

(** A call of one of the five operations of the repository. *)
Inductive Request :=
| FindById (id : string)
| FindAll
| FindPaginated (params : PaginationParams.t)
| Save (now : Date) (entity : T)
| Delete (id : string).

Definition store_after (r : Request) (store : Backend.Store T) : Backend.Store T :=
  match r with
  | FindById id => snd (Backend.findById id store)
  | FindAll => snd (Backend.findAll store)
  | FindPaginated params => snd (Backend.findPaginated params store)
  | Save now entity => snd (Backend.save now entity store)
  | Delete id => snd (Backend.delete id store)
  end.

Definition is_read (r : Request) : bool :=
  match r with
  | FindById _ | FindAll | FindPaginated _ => true
  | Save _ _ | Delete _ => false
  end.

Definition store_after_all (rs : list Request) (store : Backend.Store T) : Backend.Store T :=
  fold_left (fun s r => store_after r s) rs store.
End RepositoryVocabulary.

(** A user and a store that holds her, for the examples. *)
Definition ann : Backend.BackendUser.t :=
  Backend.BackendUser.mk "u1" 1000 1000 "a@b.com" "Ann" Backend.user
    "hashed_secret" None 0 false.

Definition bob : Backend.BackendUser.t :=
  Backend.BackendUser.mk "u2" 1500 1500 "bob@b.com" "Bob" Backend.admin
    "hashed_hunter2" (Some 1700) 3 true.

Definition store_ann_bob : Backend.Store Backend.BackendUser.t :=
  snd (Backend.save 2500 bob (snd (Backend.save 2000 ann Backend.new_store))).

(** ** Validation *)

Import Validation.

(** The errors a result contributes to a combination: those of a failing
    result that has an error list. *)
Definition failing_errors (r : ValidationResult.t) : list ValidationError.t :=
  if ValidationResult.ok r then []
  else match ValidationResult.errors r with
       | Some errors => errors
       | None => []
       end.

(** A result as the validators of the module build them: a failure
    carries at least one error. *)
Definition reports_errors (r : ValidationResult.t) : Prop :=
  ValidationResult.ok r = false ->
  exists e errors, ValidationResult.errors r = Some (e :: errors).

Definition succeeded (r : ValidationResult.t) : Prop :=
  ValidationResult.ok r = true.

Definition email_required : ValidationError.t :=
  ValidationError.mk "email" "Email is required" "REQUIRED".

Definition name_too_short : ValidationError.t :=
  ValidationError.mk "name" "name must be at least 2 characters" "MIN_LENGTH".

(** ** The DTO of a user *)

(** The properties of [BackendUser] that [UserDto] does not have. *)
Definition server_side_keys : list string :=
  ["passwordHash"; "lastLoginAt"; "loginCount"; "isVerified"]%string.

(** Two backend users with the same six properties of [UserDto]. *)
Definition same_public_fields (u1 u2 : Backend.BackendUser.t) : Prop :=
  Backend.BackendUser.id u1 = Backend.BackendUser.id u2 /\
  Backend.BackendUser.createdAt u1 = Backend.BackendUser.createdAt u2 /\
  Backend.BackendUser.updatedAt u1 = Backend.BackendUser.updatedAt u2 /\
  Backend.BackendUser.email u1 = Backend.BackendUser.email u2 /\
  Backend.BackendUser.name u1 = Backend.BackendUser.name u2 /\
  Backend.BackendUser.role u1 = Backend.BackendUser.role u2.

(** The user [u] with another password hash. *)
Definition with_passwordHash (hash : string) (u : Backend.BackendUser.t)
  : Backend.BackendUser.t :=
  Backend.BackendUser.mk
    (Backend.BackendUser.id u) (Backend.BackendUser.createdAt u)
    (Backend.BackendUser.updatedAt u) (Backend.BackendUser.email u)
    (Backend.BackendUser.name u) (Backend.BackendUser.role u)
    hash
    (Backend.BackendUser.lastLoginAt u) (Backend.BackendUser.loginCount u)
    (Backend.BackendUser.isVerified u).

(** ** Events *)

(** The calls of callbacks that deliver [event] to [handlers], one call
    each, in this order. *)
Definition deliveries {A : Type} (event : A) (handlers : list FnRef) : list (FnRef * A) :=
  map (fun h => (h, event)) handlers.

Section Deliveries.
Context {Dto World : Type}.
Variable behaviour : FnRef -> Backend.Event Dto -> World -> Backend.Reaction World.
Variable event : Backend.Event Dto.

(** The rest of the program after the callbacks [hs] have been called
    with the event, one after the other, from [w] on. *)
Definition world_after (hs : list FnRef) (w : World) : World :=
  fold_left (fun w h => Backend.after (behaviour h event w)) hs w.

(** Each of the callbacks [hs] returns when they are called with the
    event one after the other, from [w] on. *)
Fixpoint return_in_turn (hs : list FnRef) (w : World) : Prop :=
  match hs with
  | [] => True
  | h :: hs' =>
      Backend.completion (behaviour h event w) = Returned tt /\
      return_in_turn hs' (Backend.after (behaviour h event w))
  end.
End Deliveries.

(** Callbacks for the examples: every callback returns, except that
    callback 1 throws. *)
Definition all_return (h : FnRef) (event : Backend.Event Object) (w : unit)
  : Backend.Reaction unit :=
  Backend.mkReaction w [] (Returned tt).

Definition first_throws (h : FnRef) (event : Backend.Event Object) (w : unit)
  : Backend.Reaction unit :=
  Backend.mkReaction w []
    (if Nat.eqb h 1%nat then Thrown "handler 1 failed" else Returned tt).

(** A service to which the callbacks 1 and 2 have subscribed, in this
    order, and no call made yet. *)
Definition service_1_2 : Backend.Running Object unit :=
  Backend.mkRunning
    (Backend.onEvent 2%nat (Backend.onEvent 1%nat Backend.new_service)) tt [].

Definition ann_created (now : Date) : Backend.Event Object :=
  SharedEvent.mk created (Backend.toUserDto ann) now backend.

(** ** Clients of the notification manager *)

Import Frontend.


Section ManagerClients.
Context {World : Type}.
Variable behaviour : FnRef -> list Notification.t -> World -> NotificationManager.Code World.

(** A call of the manager by a client, when the calls that listeners make
    can be nested [depth] deep. *)
Definition manager_perform (depth : nat) (c : NotificationManager.Call)
  (st : NotificationManager.Running World) : NotificationManager.Running World :=
  fst (NotificationManager.perform behaviour
         (NotificationManager.perform_at behaviour depth) c st).

Definition manager_perform_all (depth : nat) (cs : list NotificationManager.Call)
  (st : NotificationManager.Running World) : NotificationManager.Running World :=
  fold_left (fun st c => manager_perform depth c st) cs st.

(** After a step from [st] to [st'], the property [P] holds, and the two
    states are in the relation [R]. *)
Definition step_keeps (P : NotificationManager.Running World -> Prop)
  (R : NotificationManager.Running World -> NotificationManager.Running World -> Prop)
  (st st' : NotificationManager.Running World) : Prop :=
  P st' /\ R st st'.

(** The record of the calls made on the manager has grown from [st] to
    [st']. *)
Definition performed_since (st st' : NotificationManager.Running World) : Prop :=
  exists done,
    NotificationManager.performed st' = NotificationManager.performed st ++ done.

(** The listeners do not call the manager while they are notified. *)
Definition observers : Prop :=
  forall l ns w, exists w' completion,
    behaviour l ns w = NotificationManager.Finish w' completion.

(** Every array of listeners of [st] is there in [st'], with listeners
    pushed behind the ones it had. *)
Definition arrays_extend (st st' : NotificationManager.Running World) : Prop :=
  forall g, exists pushed,
    NotificationManager.array_at g st' = NotificationManager.array_at g st ++ pushed.
End ManagerClients.

Section ObserverDeliveries.
Context {World : Type}.
Variable behaviour : FnRef -> list Notification.t -> World -> NotificationManager.Code World.
Variable ns : list Notification.t.

(** How the call of a listener that does not call the manager ends when
    it is handed [ns], and the rest of the program after it. *)
Definition observer_completion (l : FnRef) (w : World) : Outcome unit :=
  match behaviour l ns w with
  | NotificationManager.Finish _ completion => completion
  | NotificationManager.Invoke _ _ _ => Returned tt
  end.

Definition observer_after (l : FnRef) (w : World) : World :=
  match behaviour l ns w with
  | NotificationManager.Finish w' _ => w'
  | NotificationManager.Invoke w' _ _ => w'
  end.

(** The rest of the program after the listeners [ls] have been called
    with [ns], one after the other, from [w] on. *)
Definition observers_world_after (ls : list FnRef) (w : World) : World :=
  fold_left (fun w l => observer_after l w) ls w.

(** Each of the listeners [ls] returns when they are called with [ns]
    one after the other, from [w] on. *)
Fixpoint observers_return_in_turn (ls : list FnRef) (w : World) : Prop :=
  match ls with
  | [] => True
  | l :: ls' =>
      observer_completion l w = Returned tt /\
      observers_return_in_turn ls' (observer_after l w)
  end.
End ObserverDeliveries.

(** The calls of one publication that reach the listeners [ls] in turn:
    for each listener a call of it, followed by the calls that the
    listener caused while it ran. *)
Definition reached_in_turn {A : Type} (ls : list FnRef) (made : list (FnRef * A)) : Prop :=
  exists blocks,
    made = List.concat blocks /\
    Forall2 (fun l block => exists event nested, block = (l, event) :: nested) ls blocks.

(** The callee of a recorded call. *)
Definition callee {A : Type} (c : FnRef * A) : FnRef := fst c.

(** Listeners for the examples: every listener returns. *)
Definition listeners_return (l : FnRef) (ns : list Notification.t) (w : unit)
  : NotificationManager.Code unit :=
  NotificationManager.Finish w (Returned tt).

(** A manager with no listener, no notification and no call made. *)
Definition new_running_manager : NotificationManager.Running unit :=
  NotificationManager.mkRunning NotificationManager.new_manager [] tt [] [] [].

(** A manager with the listeners 1, 2 and 3, subscribed in this order. *)
Definition manager_1_2_3 : NotificationManager.Running unit :=
  manager_perform_all listeners_return 0
    [NotificationManager.CallSubscribe 1%nat;
     NotificationManager.CallSubscribe 2%nat;
     NotificationManager.CallSubscribe 3%nat]
    new_running_manager.

(** Listeners for the examples: listener 1 answers every notification by
    calling the closure that unsubscribes listener 2; the others
    return. *)
Definition first_unsubscribes_second (l : FnRef) (ns : list Notification.t) (w : unit)
  : NotificationManager.Code unit :=
  if Nat.eqb l 1 then
    NotificationManager.Invoke w
      (NotificationManager.CallUnsubscribe (NotificationManager.mkUnsubscribe 2%nat))
      (fun w' _ => NotificationManager.Finish w' (Returned tt))
  else NotificationManager.Finish w (Returned tt).

(** Listener 1 answers every notification by subscribing listener 2; the
    others return. *)
Definition first_subscribes_second (l : FnRef) (ns : list Notification.t) (w : unit)
  : NotificationManager.Code unit :=
  if Nat.eqb l 1 then
    NotificationManager.Invoke w (NotificationManager.CallSubscribe 2%nat)
      (fun w' _ => NotificationManager.Finish w' (Returned tt))
  else NotificationManager.Finish w (Returned tt).

(* ================================================================== *)
(** * Vocabulary of the further properties                              *)
(* ================================================================== *)

(** ** Strings and patterns *)

(** The code units of a string. *)
Definition chars (s : string) : list ascii := list_ascii_of_string s.

(** The language of a pattern. *)
Inductive Matches : RegExp -> list ascii -> Prop :=
| Matches_epsilon : Matches Epsilon []
| Matches_class accepts c : accepts c = true -> Matches (Class accepts) [c]
| Matches_seq r1 r2 s1 s2 :
    Matches r1 s1 -> Matches r2 s2 -> Matches (Seq r1 r2) (s1 ++ s2)
| Matches_alt_l r1 r2 s : Matches r1 s -> Matches (Alt r1 r2) s
| Matches_alt_r r1 r2 s : Matches r2 s -> Matches (Alt r1 r2) s
| Matches_star_nil r : Matches (Star r) []
| Matches_star_app r s1 s2 :
    Matches r s1 -> Matches (Star r) s2 -> Matches (Star r) (s1 ++ s2).

(** A non-empty run of characters that are neither white space nor [@]. *)
Definition address_part (l : list ascii) : Prop :=
  l <> [] /\ Forall (fun c => not_space_or_at c = true) l.

(** The strings of the shape [local@domain.tld]; the domain may itself
    contain dots. *)
Definition email_shape (s : string) : Prop :=
  exists local domain tld,
    chars s = local ++ "@"%char :: domain ++ "."%char :: tld /\
    address_part local /\ address_part domain /\ address_part tld.

(** A string made of white space only, the empty string included. *)
Definition all_whitespace (s : string) : Prop :=
  Forall (fun c => is_whitespace c = true) (chars s).

(** The result of a validator of one field: a success without errors, or
    a failure with exactly one error, on that field. *)
Definition one_field_result (field : string) (r : ValidationResult.t) : Prop :=
  r = validationSuccess \/
  exists message code, r = validationError [ValidationError.mk field message code].

(** The only error of a failure with one error. *)
Definition only_error_code (r : ValidationResult.t) : option string :=
  match ValidationResult.errors r with
  | Some [e] => Some (ValidationError.code e)
  | _ => None
  end.

(** The fields of the errors of a result, in order. *)
Definition error_fields (r : ValidationResult.t) : list string :=
  match ValidationResult.errors r with
  | Some errors => map ValidationError.field errors
  | None => []
  end.

(** The messages of the errors of a result, in their order. *)
Definition error_messages (r : ValidationResult.t) : list string :=
  match ValidationResult.errors r with
  | Some errors => map ValidationError.message errors
  | None => []
  end.

(** The message of the check [if (!value) errors.push(...)] on a string:
    there is one when the string is empty. *)
Definition required_message (value message : string) : list string :=
  match value with
  | EmptyString => [message]
  | String _ _ => []
  end.

(** [l1] is [l2] with some elements left out. *)
Inductive Subsequence {A : Type} : list A -> list A -> Prop :=
| Subsequence_nil : Subsequence [] []
| Subsequence_skip x l1 l2 : Subsequence l1 l2 -> Subsequence l1 (x :: l2)
| Subsequence_keep x l1 l2 : Subsequence l1 l2 -> Subsequence (x :: l1) (x :: l2).

(** The check [if (!value) errors.push(error)] as a result of its own. *)
Definition required_result (value : option string) (error : ValidationError.t)
  : ValidationResult.t :=
  if truthy value then validationSuccess else validationError [error].

(** ** Repositories *)

(** Descending order of views. *)
Definition more_viewed (a b : Backend.BackendItem.t) : Prop :=
  Backend.BackendItem.views b <= Backend.BackendItem.views a.

(** Two backend items with the same seven properties of [ItemDto]. *)
Definition same_item_fields (i1 i2 : Backend.BackendItem.t) : Prop :=
  Backend.BackendItem.id i1 = Backend.BackendItem.id i2 /\
  Backend.BackendItem.createdAt i1 = Backend.BackendItem.createdAt i2 /\
  Backend.BackendItem.updatedAt i1 = Backend.BackendItem.updatedAt i2 /\
  Backend.BackendItem.title i1 = Backend.BackendItem.title i2 /\
  Backend.BackendItem.description i1 = Backend.BackendItem.description i2 /\
  Backend.BackendItem.ownerId i1 = Backend.BackendItem.ownerId i2 /\
  Backend.BackendItem.status i1 = Backend.BackendItem.status i2.

(** The properties of [BackendItem] that [ItemDto] does not have. *)
Definition item_internal_keys : list string :=
  ["views"; "lastViewedAt"; "internalNotes"]%string.

(** Items for the examples. *)
Definition report : Backend.BackendItem.t :=
  Backend.BackendItem.mk "i1" 100 100 "Report" "Quarterly" "u1" Backend.published
    7 (Some 150) (Some "check figures"%string).

Definition notes : Backend.BackendItem.t :=
  Backend.BackendItem.mk "i2" 200 200 "Notes" "Meeting" "u2" Backend.draft
    2 None None.

Definition plan : Backend.BackendItem.t :=
  Backend.BackendItem.mk "i3" 300 300 "Plan" "Roadmap" "u1" Backend.archived
    9 None None.

Definition store_items : Backend.ItemStore :=
  snd (Backend.save 350 plan
         (snd (Backend.save 250 notes (snd (Backend.save 150 report Backend.new_store))))).

(** ** Services *)

(** No two ids of the store map to users with the same email. *)
Definition emails_unique (store : Backend.UserStore) : Prop :=
  forall id1 id2 u1 u2,
    Map_get id1 store = Some u1 -> Map_get id2 store = Some u2 ->
    Backend.BackendUser.email u1 = Backend.BackendUser.email u2 -> id1 = id2.

(** A user store as the service keeps it. *)
Definition well_kept (store : Backend.UserStore) : Prop :=
  key_consistent store /\ keys_unique store /\ emails_unique store.

(** No stored user has the email. *)
Definition email_free (email : string) (store : Backend.UserStore) : Prop :=
  Forall (fun u => Backend.BackendUser.email u <> email) (Map_values store).

(** The input of [registerUser] passes the validation. *)
Definition valid_registration (email name : string) : Prop :=
  ValidationResult.ok (validateEmail email) = true /\
  ValidationResult.ok (validateName name (Some "name"%string)) = true.

(** A call of a method of [UserService], with the times and the
    identifier it reads. *)
Inductive UserServiceCall :=
| CallRegisterUser (generated : string) (now_new now_save now_emit : Date)
    (email name password : string) (role : option Backend.Role)
| CallAuthenticateUser (now_login now_touch now_save : Date) (email password : string)
| CallGetUserById (id : string)
| CallListUsers (params : PaginationParams.t)
| CallUpdateUser (now_save now_emit : Date) (id : string)
    (updates : Backend.UserService.Updates)
| CallDeleteUser (now_emit : Date) (id : string)
| CallSubscribeUser (emitter : FnRef).

Section UserServiceClients.
Context {World : Type}.
Variable behaviour :
  FnRef -> Backend.Event Object -> World -> Backend.Reaction World.

(** The service after a call, whether the call returned or threw. *)
Definition user_service_after (c : UserServiceCall) (svc : Backend.UserService.t World)
  : Backend.UserService.t World :=
  match c with
  | CallRegisterUser generated now_new now_save now_emit email name password role =>
      snd (Backend.UserService.registerUser behaviour generated now_new now_save now_emit
             email name password role svc)
  | CallAuthenticateUser now_login now_touch now_save email password =>
      snd (Backend.UserService.authenticateUser now_login now_touch now_save
             email password svc)
  | CallGetUserById id => snd (Backend.UserService.getUserById id svc)
  | CallListUsers params => snd (Backend.UserService.listUsers params svc)
  | CallUpdateUser now_save now_emit id updates =>
      snd (Backend.UserService.updateUser behaviour now_save now_emit id updates svc)
  | CallDeleteUser now_emit id =>
      snd (Backend.UserService.deleteUser behaviour now_emit id svc)
  | CallSubscribeUser emitter => snd (Backend.UserService.subscribe emitter svc)
  end.

Definition user_service_after_all (cs : list UserServiceCall)
  (svc : Backend.UserService.t World) : Backend.UserService.t World :=
  fold_left (fun svc c => user_service_after c svc) cs svc.
End UserServiceClients.

(** A new user service, and one in which Ann has registered with the
    password [secret]. *)
Definition new_user_service : Backend.UserService.t unit :=
  Backend.UserService.mk Backend.new_store service_1_2.

Definition service_with_ann : Backend.UserService.t unit :=
  snd (Backend.UserService.registerUser all_return "g1" 10 11 12
         "a@b.com" "Ann" "secret" None new_user_service).

(** The own properties of a user DTO. *)
Definition user_dto_keys : list string :=
  ["id"; "createdAt"; "updatedAt"; "email"; "name"; "role"]%string.

(** A new item service, for the examples. *)
Definition item_service : Backend.ItemService.t unit :=
  Backend.ItemService.mk store_items
    (Backend.mkRunning (Backend.onEvent 1%nat Backend.new_service) tt []).

(** The input of [createItem] passes the validation. *)
Definition valid_item (title description ownerId : string) : Prop :=
  ValidationResult.ok (validateName title (Some "title"%string)) = true /\
  description <> EmptyString /\ ownerId <> EmptyString.

(** ** The notification manager *)

Definition notification_ids (nm : NotificationManager.t) : list string :=
  map Notification.id (NotificationManager.notifications nm).

(** The ids of the notifications are those of increasing values that the
    counter has had, and the counter has counted from 0 up to 2^53 at
    most. *)
Definition ids_issued (nm : NotificationManager.t) : Prop :=
  0 <= NotificationManager.idCounter nm <= 2 ^ 53 /\
  exists ks,
    notification_ids nm = map NotificationManager.notification_id ks /\
    StronglySorted Z.lt ks /\
    Forall (fun k => k <= NotificationManager.idCounter nm) ks.

(** Listeners for the examples: listener 2 throws, the others return. *)
Definition listener_2_throws (l : FnRef) (ns : list Notification.t) (w : unit)
  : NotificationManager.Code unit :=
  NotificationManager.Finish w
    (if Nat.eqb l 2 then Thrown "listener failed"%string else Returned tt).

(** Listeners for the examples: when the last notification of the list
    it is handed is a success, listener 1 adds a notification of its own;
    otherwise it returns. *)
Definition first_adds_one (l : FnRef) (ns : list Notification.t) (w : unit)
  : NotificationManager.Code unit :=
  match Nat.eqb l 1, rev ns with
  | true, last :: _ =>
      match Notification.type last with
      | success =>
          NotificationManager.Invoke w (NotificationManager.CallAdd info "seen" (Some 0))
            (fun w' _ => NotificationManager.Finish w' (Returned tt))
      | _ => NotificationManager.Finish w (Returned tt)
      end
  | _, _ => NotificationManager.Finish w (Returned tt)
  end.

(** Listeners for the examples: listener 1 removes the last notification
    of the list it is handed; the others return. *)
Definition first_removes_last (l : FnRef) (ns : list Notification.t) (w : unit)
  : NotificationManager.Code unit :=
  match Nat.eqb l 1, rev ns with
  | true, last :: _ =>
      NotificationManager.Invoke w (NotificationManager.CallRemove (Notification.id last))
        (fun w' _ => NotificationManager.Finish w' (Returned tt))
  | _, _ => NotificationManager.Finish w (Returned tt)
  end.

(** A manager at the end of the range in which the counter counts. *)
Definition manager_at_limit : NotificationManager.Running unit :=
  NotificationManager.mkRunning
    (NotificationManager.mk [] [] (2 ^ 53 - 1)) [] tt [] [] [].

(** A manager with the listener 1 and no notification. *)
Definition manager_1 : NotificationManager.Running unit :=
  NotificationManager.mkRunning (NotificationManager.mk [] [1%nat] 0) [] tt [] [] [].

(** ** The states and the forms of the user interface *)

Definition item_ids (state : ItemsState.t) : list string :=
  map ItemDto.id (ItemsState.items state).

(** Two states of the items with the same [isLoading], [error] and
    [pagination]. *)
Definition same_view (s1 s2 : ItemsState.t) : Prop :=
  ItemsState.isLoading s1 = ItemsState.isLoading s2 /\
  ItemsState.error s1 = ItemsState.error s2 /\
  ItemsState.pagination s1 = ItemsState.pagination s2.

(** The input of a user form that [validateUserForm] has no error for. *)
Definition valid_user_form (form : UserFormState.t) : Prop :=
  valid_registration (UserFormState.email form) (UserFormState.name form) /\
  (8 <= String.length (UserFormState.password form))%nat /\
  UserFormState.password form = UserFormState.confirmPassword form.

(** Items and a state for the examples. *)
Definition report_dto : ItemDto.t :=
  ItemDto.mk "i1" 100 150 "Report" "Quarterly" "u1" Backend.published.

Definition notes_dto : ItemDto.t :=
  ItemDto.mk "i2" 200 250 "Notes" "Meeting" "u2" Backend.draft.

Definition report_revised : ItemDto.t :=
  ItemDto.mk "i1" 100 400 "Report" "Annual" "u1" Backend.archived.

Definition plan_dto : ItemDto.t :=
  ItemDto.mk "i3" 300 350 "Plan" "Roadmap" "u1" Backend.archived.

Definition items_state : ItemsState.t :=
  ItemsState.mk [report_dto; notes_dto] (Some report_dto) false None
    (PaginationParams.mk 1 10 None None).

(* ================================================================== *)
(** * Properties                                                        *)
(* ================================================================== *)

(** ** Pagination *)

Section ListWindows.
Context {T : Type}.

Lemma firstn_plus (n m : nat) (l : list T) :
  firstn (n + m) l = firstn n l ++ firstn m (skipn n l).
Proof.
  revert l; induction n as [|n IH]; intros l; [reflexivity|].
  destruct l as [|x l]; simpl.
  - now rewrite firstn_nil.
  - now rewrite IH.
Qed.

Lemma firstn_min_length (n : nat) (l : list T) :
  firstn (Nat.min n (List.length l)) l = firstn n l.
Proof.
  destruct (Nat.le_gt_cases n (List.length l)) as [Hle|Hgt].
  - now rewrite Nat.min_l.
  - rewrite Nat.min_r by lia.
    rewrite !firstn_all2; trivial; lia.
Qed.

(** Consecutive windows of width [n] put end to end are a prefix. *)
Lemma windows_concat (n k : nat) (l : list T) :
  List.concat (map (fun i => firstn n (skipn (i * n) l)) (seq 0 k)) = firstn (k * n) l.
Proof.
  induction k as [|k IH].
  - reflexivity.
  - rewrite seq_S, map_app, concat_app, IH. simpl.
    rewrite app_nil_r.
    replace (n + k * n)%nat with (k * n + n)%nat by lia.
    now rewrite firstn_plus.
Qed.

(** On a window that starts at a non-negative index and has a
    non-negative width, [slice] is [skipn] followed by [firstn]. *)
Lemma slice_window (l : list T) (start width : Z) :
  0 <= start -> 0 <= width ->
  slice l start (start + width) =
  firstn (Z.to_nat width) (skipn (Z.to_nat start) l).
Proof.
  intros Hs Hw. unfold slice.
  destruct (Z.ltb_spec start 0) as [?|_]; [lia|].
  destruct (Z.ltb_spec (start + width) 0) as [?|_]; [lia|].
  destruct (Z.le_gt_cases (Z.of_nat (List.length l)) start) as [Hout|Hin].
  - rewrite (Z.min_r start) by lia.
    rewrite (skipn_all2 l) by lia.
    rewrite (skipn_all2 l) by lia.
    now rewrite !firstn_nil.
  - rewrite (Z.min_l start) by lia.
    rewrite <- (firstn_min_length (Z.to_nat width)).
    f_equal. rewrite length_skipn. lia.
Qed.

Lemma slice_past_end (l : list T) (start end_ : Z) :
  Z.of_nat (List.length l) <= start -> slice l start end_ = [].
Proof.
  intros Hout. unfold slice.
  destruct (Z.ltb_spec start 0) as [?|_]; [lia|].
  rewrite (Z.min_r start) by lia.
  rewrite skipn_all2 by lia. apply firstn_nil.
Qed.
End ListWindows.

Lemma ceil_div_positive (a b : Z) :
  0 <= a -> 1 <= b ->
  exists k, ceil_div a b = Finite k /\ 0 <= k /\ (k - 1) * b < a <= k * b.
Proof.
  intros Ha Hb. unfold ceil_div.
  destruct (Z.eqb_spec b 0) as [?|_]; [lia|].
  exists (- (- a / b)). split; [reflexivity|].
  pose proof (Z.div_mod (- a) b ltac:(lia)) as Hdm.
  pose proof (Z.mod_pos_bound (- a) b ltac:(lia)) as Hmod.
  nia.
Qed.

Lemma paginate_items_window {T : Type} (items : list T) (params : PaginationParams.t) :
  1 <= PaginationParams.page params ->
  0 <= PaginationParams.pageSize params ->
  PaginatedResponse.items (paginate items params) =
  spec_page_window items (PaginationParams.page params) (PaginationParams.pageSize params).
Proof.
  intros Hp Hs. unfold paginate, spec_page_window. simpl.
  apply slice_window; nia.
Qed.

(** C3.  For [page >= 1] and [pageSize >= 1], [paginate] returns the
    length of the input as [total], the least [k] with
    [total <= k * pageSize] as [totalPages] (so the quotient rounded up,
    and 0 for the empty list), the window
    [items[(page-1)*pageSize : (page-1)*pageSize + pageSize]] as [items],
    which is empty when the start index is at or past the end; [page] and
    [pageSize] are echoed.  On a list of 25 elements, page 3 of size 10
    holds the elements 21 to 25, with total 25 and 3 pages. *)
Theorem paginate_window_and_totals {T : Type} (items : list T) (params : PaginationParams.t)
  (Hpage : 1 <= PaginationParams.page params)
  (Hsize : 1 <= PaginationParams.pageSize params) :
  let page := PaginationParams.page params in
  let pageSize := PaginationParams.pageSize params in
  let r := paginate items params in
  PaginatedResponse.total r = Z.of_nat (List.length items) /\
  (exists k, PaginatedResponse.totalPages r = Finite k /\
             (k - 1) * pageSize < PaginatedResponse.total r <= k * pageSize /\
             (items = [] -> k = 0)) /\
  PaginatedResponse.items r = spec_page_window items page pageSize /\
  (PaginatedResponse.total r <= (page - 1) * pageSize -> PaginatedResponse.items r = []) /\
  (List.length (PaginatedResponse.items r) <= Z.to_nat pageSize)%nat /\
  PaginatedResponse.page r = page /\
  PaginatedResponse.pageSize r = pageSize /\
  paginate (seq 1 25) (PaginationParams.mk 3 10 None None) =
  PaginatedResponse.mk [21; 22; 23; 24; 25]%nat 25 3 10 (Finite 3).
Proof.
  intros page pageSize r.
  split; [reflexivity|].
  split.
  { destruct (ceil_div_positive (Z.of_nat (List.length items)) pageSize)
      as (k & Hk & Hk0 & Hbounds); [lia | assumption |].
    exists k. split; [exact Hk|]. split; [exact Hbounds|].
    intros ->. simpl in Hbounds. nia. }
  split; [apply paginate_items_window; lia|].
  split; [intros Hout; apply slice_past_end; exact Hout|].
  split.
  { subst r. rewrite paginate_items_window by lia.
    unfold spec_page_window. rewrite length_firstn. lia. }
  repeat split.
Qed.

Lemma paginate_window_and_totals_witness :
  1 <= 2 /\ 1 <= 2 /\
  PaginatedResponse.items
    (paginate ["a"; "b"; "c"; "d"; "e"]%string (PaginationParams.mk 2 2 None None))
  = ["c"; "d"]%string /\
  5 <= (4 - 1) * 2 /\
  PaginatedResponse.items
    (paginate ["a"; "b"; "c"; "d"; "e"]%string (PaginationParams.mk 4 2 None None))
  = [].
Proof.
  split; [lia|]. split; [lia|].
  pose proof (paginate_window_and_totals ["a"; "b"; "c"; "d"; "e"]%string
                (PaginationParams.mk 2 2 None None)) as Hpage2.
  pose proof (paginate_window_and_totals ["a"; "b"; "c"; "d"; "e"]%string
                (PaginationParams.mk 4 2 None None)) as Hpage4.
  cbv zeta in Hpage2, Hpage4.
  destruct (Hpage2 ltac:(simpl; lia) ltac:(simpl; lia)) as (_ & _ & Hitems & _).
  destruct (Hpage4 ltac:(simpl; lia) ltac:(simpl; lia)) as (_ & _ & _ & Hpast & _).
  split; [exact Hitems|].
  split; [lia|].
  apply Hpast. simpl. lia.
Defined.

(** C4.  For [pageSize >= 1] the pages [1 .. totalPages] put end to end
    are the whole input, so the lengths of the pages add up to [total];
    every page after [totalPages] is empty, and [paginate] returns a
    response for it all the same. *)
Theorem paginate_pages_partition {T : Type} (items : list T) (params : PaginationParams.t)
  (Hsize : 1 <= PaginationParams.pageSize params) :
  let page_items p := PaginatedResponse.items (paginate items (at_page p params)) in
  exists k,
    PaginatedResponse.totalPages (paginate items params) = Finite k /\
    0 <= k /\
    List.concat (map page_items (pages_upto k)) = items /\
    Z.of_nat (list_sum (map (fun p => List.length (page_items p)) (pages_upto k)))
      = PaginatedResponse.total (paginate items params) /\
    forall p, k < p ->
      page_items p = [] /\
      PaginatedResponse.total (paginate items (at_page p params))
        = Z.of_nat (List.length items) /\
      PaginatedResponse.totalPages (paginate items (at_page p params)) = Finite k.
Proof.
  intros page_items.
  set (pageSize := PaginationParams.pageSize params) in *.
  destruct (ceil_div_positive (Z.of_nat (List.length items)) pageSize)
    as (k & Hk & Hk0 & Hbounds); [lia | assumption |].
  exists k. split; [exact Hk|]. split; [exact Hk0|].
  assert (Hconcat : List.concat (map page_items (pages_upto k)) = items).
  { unfold pages_upto. rewrite map_map.
    rewrite <- seq_shift, map_map.
    erewrite map_ext.
    - rewrite (windows_concat (Z.to_nat pageSize) (Z.to_nat k) items).
      apply firstn_all2. nia.
    - intros i. unfold page_items.
      rewrite paginate_items_window
        by (cbn [at_page PaginationParams.page PaginationParams.pageSize]; lia).
      unfold spec_page_window.
      cbn [at_page PaginationParams.page PaginationParams.pageSize].
      fold pageSize. do 2 f_equal.
      replace (Z.of_nat (S i) - 1) with (Z.of_nat i) by lia.
      rewrite Z2Nat.inj_mul, Nat2Z.id by lia. reflexivity. }
  split; [exact Hconcat|].
  split.
  { change (PaginatedResponse.total (paginate items params))
      with (Z.of_nat (List.length items)).
    f_equal.
    transitivity (List.length (List.concat (map page_items (pages_upto k)))).
    - rewrite length_concat, map_map. reflexivity.
    - now rewrite Hconcat. }
  intros p Hp. split; [|split].
  - unfold page_items, paginate. simpl. apply slice_past_end.
    fold pageSize. nia.
  - reflexivity.
  - exact Hk.
Qed.

Lemma paginate_pages_partition_witness :
  1 <= 2 /\
  exists k,
    PaginatedResponse.totalPages
      (paginate [1; 2; 3; 4; 5]%nat (PaginationParams.mk 1 2 None None)) = Finite k /\
    List.concat (map (fun p => PaginatedResponse.items
                            (paginate [1; 2; 3; 4; 5]%nat
                               (at_page p (PaginationParams.mk 1 2 None None))))
                (pages_upto k)) = [1; 2; 3; 4; 5]%nat /\
    k < k + 1 /\
    PaginatedResponse.items
      (paginate [1; 2; 3; 4; 5]%nat (at_page (k + 1) (PaginationParams.mk 1 2 None None)))
    = [].
Proof.
  split; [lia|].
  destruct (paginate_pages_partition [1; 2; 3; 4; 5]%nat
              (PaginationParams.mk 1 2 None None) ltac:(simpl; lia))
    as (k & Hk & _ & Hconcat & _ & Hbeyond).
  exists k. split; [exact Hk|]. split; [exact Hconcat|].
  split; [lia|].
  exact (proj1 (Hbeyond (k + 1) ltac:(lia))).
Defined.

(** ** The insertion-ordered map *)

(** Case analysis on every comparison of keys in the goal. *)
Ltac key_cases :=
  repeat match goal with
         | |- context [String.eqb ?a ?b] =>
             destruct (String.eqb_spec a b); subst; simpl; try congruence
         end.

Section MapFacts.
Context {V : Type}.
Implicit Types (m : Map V) (k : string) (v : V).

Lemma Map_has_get k m : Map_has k m = true <-> Map_get k m <> None.
Proof.
  unfold Map_has. destruct (Map_get k m); split; congruence.
Qed.

Lemma Map_has_false k m : Map_has k m = false <-> Map_get k m = None.
Proof.
  unfold Map_has. destruct (Map_get k m); split; congruence.
Qed.

Lemma Map_get_In k m v : Map_get k m = Some v -> In (k, v) m.
Proof.
  induction m as [|[k' v'] m IH]; simpl; [discriminate|].
  destruct (String.eqb_spec k k') as [->|Hne].
  - intros [= ->]. now left.
  - intros Hget. right. now apply IH.
Qed.

Lemma Map_get_replace k k' v m :
  Map_get k' (Map_replace k v m) =
  if String.eqb k' k
  then match Map_get k m with Some _ => Some v | None => None end
  else Map_get k' m.
Proof.
  induction m as [|[k0 v0] m IH]; simpl.
  - now key_cases.
  - destruct (String.eqb_spec k k0) as [->|Hne]; simpl.
    + now key_cases.
    + rewrite IH. now key_cases.
Qed.

Lemma Map_get_last k k' v m :
  Map_get k' (m ++ [(k, v)]) =
  match Map_get k' m with
  | Some x => Some x
  | None => if String.eqb k' k then Some v else None
  end.
Proof.
  induction m as [|[k0 v0] m IH]; simpl; [reflexivity|].
  now destruct (String.eqb k' k0).
Qed.

(** [get] after [set]. *)
Lemma Map_get_set k k' v m :
  Map_get k' (Map_set k v m) = if String.eqb k' k then Some v else Map_get k' m.
Proof.
  unfold Map_set, Map_has.
  destruct (Map_get k m) as [x|] eqn:Hk.
  - rewrite Map_get_replace, Hk. reflexivity.
  - rewrite Map_get_last.
    destruct (String.eqb_spec k' k) as [->|Hne].
    + now rewrite Hk.
    + now destruct (Map_get k' m).
Qed.

(** [get] after [delete]. *)
Lemma Map_get_delete k k' m :
  Map_get k' (Map_delete k m) = if String.eqb k' k then None else Map_get k' m.
Proof.
  unfold Map_delete.
  induction m as [|[k0 v0] m IH]; simpl.
  - now key_cases.
  - destruct (String.eqb_spec k k0) as [->|Hne]; simpl.
    + rewrite IH. now key_cases.
    + rewrite IH. now key_cases.
Qed.

Lemma Map_delete_incl k m : incl (Map_delete k m) m.
Proof.
  unfold Map_delete. intros kv Hin. now apply filter_In in Hin.
Qed.

Lemma Map_keys_replace k v m : Map_keys (Map_replace k v m) = Map_keys m.
Proof.
  unfold Map_keys.
  induction m as [|[k0 v0] m IH]; simpl; [reflexivity|].
  destruct (String.eqb k k0); simpl; [reflexivity | now rewrite IH].
Qed.

Lemma Map_get_None_keys k m : Map_get k m = None <-> ~ In k (Map_keys m).
Proof.
  unfold Map_keys.
  induction m as [|[k0 v0] m IH]; simpl.
  - tauto.
  - destruct (String.eqb_spec k k0) as [->|Hne].
    + split; [discriminate | intros Hn; exfalso; apply Hn; now left].
    + rewrite IH. split.
      * intros Hn [Heq|Hin]; [congruence | tauto].
      * tauto.
Qed.

Lemma Map_set_keys_unique k v m :
  NoDup (Map_keys m) -> NoDup (Map_keys (Map_set k v m)).
Proof.
  intros Hnd. unfold Map_set, Map_has.
  destruct (Map_get k m) eqn:Hk.
  - now rewrite Map_keys_replace.
  - unfold Map_keys. rewrite map_app. simpl.
    apply NoDup_app; [exact Hnd | repeat constructor; simpl; tauto |].
    intros k0 Hin [<-|[]].
    now apply Map_get_None_keys in Hk.
Qed.

Lemma Map_delete_keys_unique k m :
  NoDup (Map_keys m) -> NoDup (Map_keys (Map_delete k m)).
Proof.
  unfold Map_keys, Map_delete.
  induction m as [|[k0 v0] m IH]; simpl; [trivial|].
  intros Hnd. inversion Hnd as [|? ? Hnotin Hnd']; subst.
  destruct (String.eqb k k0); simpl; [now apply IH|].
  constructor; [|now apply IH].
  intros Hin. apply Hnotin.
  apply in_map_iff in Hin. destruct Hin as (kv & Hfst & Hin).
  apply filter_In in Hin. apply in_map_iff. exists kv. tauto.
Qed.
End MapFacts.

(** ** Results and the in-memory repository *)

Lemma createSuccess_valid {A E : Type} (v : A) :
  result_valid (@createSuccess A E (Some v)).
Proof.
  unfold result_valid; simpl. intuition congruence.
Qed.

Lemma createError_valid {A E : Type} (e : E) :
  result_valid (@createError A E e).
Proof.
  unfold result_valid; simpl. intuition congruence.
Qed.

Lemma result_valid_tagged {A E : Type} (r : Result.t A E) :
  result_valid r -> result_tagged r.
Proof.
  unfold result_valid, result_tagged.
  destruct r as [[] [v|] [e|]]; simpl; intuition congruence.
Qed.

Section RepositoryFacts.
Context {T : Type} `{SharedEntity.t T}.
Implicit Types (store : Backend.Store T) (entity e : T) (id : string).

Lemma findById_unfold id store :
  Backend.findById id store =
  (match Map_get id store with
   | None => createError (Backend.not_found id)
   | Some entity => createSuccess (Some entity)
   end, store).
Proof.
  unfold Backend.findById, bind, this_get, ret.
  now destruct (Map_get id store).
Qed.

Lemma save_unfold now entity store :
  Backend.save now entity store =
  (createSuccess (Some (touchEntity now entity)),
   Map_set (SharedEntity.id (touchEntity now entity)) (touchEntity now entity) store).
Proof. reflexivity. Qed.

Lemma delete_unfold id store :
  Backend.delete id store =
  if Map_has id store
  then (createSuccess None, Map_delete id store)
  else (createError (Backend.not_found id), store).
Proof.
  unfold Backend.delete, bind, this_get, this_update, ret.
  now destruct (Map_has id store).
Qed.

Lemma touchEntity_id now e :
  SharedEntity.id (touchEntity now e) = SharedEntity.id e.
Proof. apply SharedEntity.id_with_updatedAt. Qed.

Lemma key_consistent_get store id e :
  key_consistent store -> Map_get id store = Some e -> SharedEntity.id e = id.
Proof.
  intros Hinv Hget. apply Map_get_In in Hget.
  unfold key_consistent in Hinv. rewrite Forall_forall in Hinv.
  exact (Hinv _ Hget).
Qed.

Lemma key_consistent_replace store id e :
  key_consistent store -> SharedEntity.id e = id ->
  key_consistent (Map_replace id e store).
Proof.
  unfold key_consistent. intros Hinv He.
  induction Hinv as [|[k0 v0] m Hhd Htl IH]; simpl; [constructor|].
  destruct (String.eqb_spec id k0) as [->|Hne]; constructor; trivial.
Qed.

Lemma key_consistent_set store id e :
  key_consistent store -> SharedEntity.id e = id ->
  key_consistent (Map_set id e store).
Proof.
  intros Hinv He. unfold Map_set.
  destruct (Map_has id store).
  - now apply key_consistent_replace.
  - unfold key_consistent. apply Forall_app. split; [exact Hinv|].
    now repeat constructor.
Qed.

Lemma key_consistent_delete store id :
  key_consistent store -> key_consistent (Map_delete id store).
Proof.
  unfold key_consistent. intros Hinv.
  rewrite Forall_forall in *. intros kv Hin.
  apply Hinv. now apply Map_delete_incl in Hin.
Qed.

(** Every operation preserves the consistency of keys. *)
Lemma store_after_key_consistent (r : Request) store :
  key_consistent store -> key_consistent (store_after r store).
Proof.
  intros Hinv. destruct r as [id| |params|now entity|id]; cbn [store_after].
  - rewrite findById_unfold. exact Hinv.
  - exact Hinv.
  - exact Hinv.
  - rewrite save_unfold. simpl. now apply key_consistent_set.
  - rewrite delete_unfold. destruct (Map_has id store); simpl;
      [now apply key_consistent_delete | exact Hinv].
Qed.

(** Every operation keeps the keys of the backing map distinct. *)
Lemma store_after_keys_unique (r : Request) store :
  keys_unique store -> keys_unique (store_after r store).
Proof.
  unfold keys_unique.
  intros Hnd. destruct r as [id| |params|now entity|id]; cbn [store_after].
  - rewrite findById_unfold. exact Hnd.
  - exact Hnd.
  - exact Hnd.
  - rewrite save_unfold. simpl. now apply Map_set_keys_unique.
  - rewrite delete_unfold. destruct (Map_has id store); simpl;
      [now apply Map_delete_keys_unique | exact Hnd].
Qed.

Lemma store_after_read (r : Request) store :
  is_read r = true -> store_after r store = store.
Proof.
  destruct r as [id| |params|now entity|id]; cbn [store_after is_read];
    try discriminate; intros _.
  - now rewrite findById_unfold.
  - reflexivity.
  - reflexivity.
Qed.

Lemma reachable_key_consistent (rs : list Request) store :
  key_consistent store -> key_consistent (store_after_all rs store).
Proof.
  revert store. induction rs as [|r rs IH]; intros store Hinv; simpl.
  - exact Hinv.
  - apply IH. now apply store_after_key_consistent.
Qed.

Lemma reachable_keys_unique (rs : list Request) :
  keys_unique (store_after_all rs (@Backend.new_store T)).
Proof.
  assert (Hgen : forall store, keys_unique store ->
                               keys_unique (store_after_all rs store)).
  { induction rs as [|r rs IH]; intros store Hnd; simpl; [exact Hnd|].
    apply IH. now apply store_after_keys_unique. }
  apply Hgen. constructor.
Qed.

(** C9.  The empty store is key-consistent, every operation preserves
    key consistency (so every store reached from the empty one is
    key-consistent), the three read operations leave the store as it
    is, [save] files the touched entity under its own id, and [delete]
    adds no entry. *)
Theorem repository_key_consistency (store : Backend.Store T) (r : Request)
  (Hinv : key_consistent store) :
  key_consistent (@Backend.new_store T) /\
  key_consistent (store_after r store) /\
  (forall rs, key_consistent (store_after_all rs (@Backend.new_store T))) /\
  (forall id e, Map_get id (store_after r store) = Some e -> SharedEntity.id e = id) /\
  (is_read r = true -> store_after r store = store) /\
  (forall now e, Map_get (SharedEntity.id e) (snd (Backend.save now e store))
                 = Some (touchEntity now e)) /\
  (forall id, incl (snd (Backend.delete id store)) store).
Proof.
  assert (Hempty : key_consistent (@Backend.new_store T)) by constructor.
  split; [exact Hempty|].
  split; [now apply store_after_key_consistent|].
  split; [intros rs; now apply reachable_key_consistent|].
  split.
  { intros id e. apply key_consistent_get. now apply store_after_key_consistent. }
  split; [apply store_after_read|].
  split.
  - intros now e. rewrite save_unfold. simpl.
    rewrite Map_get_set, touchEntity_id, String.eqb_refl. reflexivity.
  - intros id. rewrite delete_unfold.
    destruct (Map_has id store); simpl; [apply Map_delete_incl | apply incl_refl].
Qed.
End RepositoryFacts.

Lemma repository_key_consistency_witness :
  key_consistent store_ann_bob /\
  key_consistent (store_after (Delete "u1") store_ann_bob) /\
  @is_read Backend.BackendUser.t FindAll = true /\
  store_after FindAll store_ann_bob = store_ann_bob.
Proof.
  assert (Hinv : key_consistent store_ann_bob) by (repeat constructor).
  split; [exact Hinv|].
  split.
  - exact (proj1 (proj2 (repository_key_consistency store_ann_bob (Delete "u1") Hinv))).
  - split; [reflexivity|].
    destruct (repository_key_consistency store_ann_bob FindAll Hinv)
      as (_ & _ & _ & _ & Hread & _).
    exact (Hread eq_refl).
Defined.

Section MapDeleteExactly.
Context {V : Type}.

Lemma Map_delete_absent (k : string) (m : Map V) :
  ~ In k (Map_keys m) -> Map_delete k m = m.
Proof.
  unfold Map_delete, Map_keys.
  induction m as [|[k0 v0] m IH]; simpl; [reflexivity|].
  intros Hnotin.
  destruct (String.eqb_spec k k0) as [->|Hne]; simpl.
  - exfalso. apply Hnotin. now left.
  - rewrite IH; [reflexivity | tauto].
Qed.

(** On a map, [delete] takes out the one entry of the key and keeps the
    others in their order. *)
Lemma Map_delete_split (k : string) (v : V) (m : Map V) :
  NoDup (Map_keys m) -> Map_get k m = Some v ->
  exists before behind,
    m = before ++ (k, v) :: behind /\ Map_delete k m = before ++ behind.
Proof.
  induction m as [|[k0 v0] m IH]; simpl; [discriminate|].
  intros Hnd Hget. inversion Hnd as [|? ? Hnotin Hnd']; subst.
  destruct (String.eqb_spec k k0) as [->|Hne].
  - injection Hget as ->. exists [], m. split; [reflexivity|].
    now apply Map_delete_absent.
  - destruct (IH Hnd' Hget) as (before & behind & Hm & Hdel).
    exists ((k0, v0) :: before), behind. split.
    + simpl. now rewrite <- Hm.
    + simpl. now rewrite Hdel.
Qed.
End MapDeleteExactly.

Section RepositoryContract.
Context {T : Type} `{SharedEntity.t T}.
Implicit Types (store : Backend.Store T) (e : T) (id : string).

(** C5.  [save] succeeds; the value it returns and the entity it stores
    under [e.id] are [touchEntity e]: the entity [e] with [updatedAt] set
    to the time of the call, with the same [id] and [createdAt], and equal
    to [e] again once the old [updatedAt] is put back (no other property
    changed).  The entries of other ids are untouched.  Fetching the id
    afterwards returns the touched entity, and when the clock has not gone
    back since [e.updatedAt] was taken, its [updatedAt] is at least the
    one before the save. *)
Theorem save_stores_touched store (now : Date) e :
  let touched := touchEntity now e in
  let store' := snd (Backend.save now e store) in
  fst (Backend.save now e store) = createSuccess (Some touched) /\
  Result.ok (fst (Backend.save now e store)) = true /\
  Map_get (SharedEntity.id e) store' = Some touched /\
  (forall id, Map_get id store' =
              if String.eqb id (SharedEntity.id e) then Some touched
              else Map_get id store) /\
  Backend.findById (SharedEntity.id e) store' = (createSuccess (Some touched), store') /\
  SharedEntity.id touched = SharedEntity.id e /\
  SharedEntity.createdAt touched = SharedEntity.createdAt e /\
  SharedEntity.updatedAt touched = now /\
  SharedEntity.with_updatedAt (SharedEntity.updatedAt e) touched = e /\
  (SharedEntity.updatedAt e <= now ->
   SharedEntity.updatedAt e <= SharedEntity.updatedAt touched).
Proof.
  intros touched store'.
  assert (Hget : forall id, Map_get id store' =
                            if String.eqb id (SharedEntity.id e) then Some touched
                            else Map_get id store).
  { intros id. subst store'. rewrite save_unfold. cbn [snd].
    rewrite Map_get_set. fold touched.
    unfold touched at 1. rewrite touchEntity_id. reflexivity. }
  assert (Hmine : Map_get (SharedEntity.id e) store' = Some touched).
  { rewrite Hget, String.eqb_refl. reflexivity. }
  split; [reflexivity|].
  split; [reflexivity|].
  split; [exact Hmine|].
  split; [exact Hget|].
  split; [rewrite findById_unfold, Hmine; reflexivity|].
  unfold touched, touchEntity.
  split; [apply SharedEntity.id_with_updatedAt|].
  split; [apply SharedEntity.createdAt_with_updatedAt|].
  split; [apply SharedEntity.updatedAt_with_updatedAt|].
  split.
  - rewrite SharedEntity.with_updatedAt_twice.
    apply SharedEntity.with_updatedAt_same.
  - intros Hclock. now rewrite SharedEntity.updatedAt_with_updatedAt.
Qed.

(** C6.  [delete] of an id that is not in the store returns the
    not-found failure and leaves the store as it is.  [findById] of an id
    that is in the store succeeds with the stored entity; [delete] of it
    succeeds, a lookup of the id in the store that results finds nothing
    and [findById] returns the not-found failure there, every other id
    maps to what it mapped to before, and (the keys of a map being
    distinct) the entries are the former ones without the entry of the
    id. *)
Theorem delete_then_not_found store id :
  (Map_has id store = false ->
   Backend.delete id store = (createError (Backend.not_found id), store) /\
   fst (Backend.findById id store) = createError (Backend.not_found id)) /\
  (Map_has id store = true ->
   let store' := snd (Backend.delete id store) in
   exists stored,
     Map_get id store = Some stored /\
     Backend.findById id store = (createSuccess (Some stored), store) /\
     fst (Backend.delete id store) = createSuccess None /\
     Map_has id store' = false /\
     Backend.findById id store' = (createError (Backend.not_found id), store') /\
     (forall id', Map_get id' store' =
                  if String.eqb id' id then None else Map_get id' store) /\
     (keys_unique store ->
      exists before behind,
        store = before ++ (id, stored) :: behind /\ store' = before ++ behind)).
Proof.
  split.
  - intros Hhas. rewrite delete_unfold, findById_unfold, Hhas.
    apply Map_has_false in Hhas. now rewrite Hhas.
  - intros Hhas store'.
    destruct (Map_get id store) as [stored|] eqn:Hget;
      [|apply Map_has_get in Hhas; contradiction].
    assert (Hstore' : store' = Map_delete id store).
    { subst store'. now rewrite delete_unfold, Hhas. }
    assert (Hgone : Map_get id store' = None).
    { rewrite Hstore', Map_get_delete, String.eqb_refl. reflexivity. }
    exists stored.
    split; [reflexivity|].
    split; [now rewrite findById_unfold, Hget|].
    split; [now rewrite delete_unfold, Hhas|].
    split; [now apply Map_has_false|].
    split; [now rewrite findById_unfold, Hgone|].
    split; [intros id'; rewrite Hstore'; apply Map_get_delete|].
    intros Huniq. rewrite Hstore'. now apply Map_delete_split.
Qed.

(** C2 as amended.  The constructors: [createSuccess] of a defined value
    and [createError] satisfy the invariant of [Result]; [createSuccess]
    of [undefined] is a success with neither value nor error.  The
    repository: the results of [findById], [findAll], [findPaginated] and
    [save] satisfy the invariant; the result of [delete] never has a
    value: it is the failure with its error when the id is absent and a
    success with neither value nor error when the id is present, which
    [unwrapResult] rejects.  In every case [ok] is true exactly when there
    is no error, and a failure has an error and no value. *)
Theorem results_are_tagged store :
  (forall (A E : Type) (v : A), result_valid (@createSuccess A E (Some v))) /\
  (forall (A E : Type) (err : E), result_valid (@createError A E err)) /\
  (forall (A E : Type),
      result_tagged (@createSuccess A E None) /\
      Result.value (@createSuccess A E None) = None) /\
  (forall id, result_valid (fst (Backend.findById id store))) /\
  result_valid (fst (Backend.findAll store)) /\
  (forall params, result_valid (fst (Backend.findPaginated params store))) /\
  (forall now e, result_valid (fst (Backend.save now e store))) /\
  (forall id,
      let r := fst (Backend.delete id store) in
      result_tagged r /\
      Result.value r = None /\
      Result.ok r = Map_has id store /\
      (result_valid r <-> Map_has id store = false) /\
      (Result.ok r = true ->
       unwrapResult r = Thrown "Result value is undefined")).
Proof.
  split; [intros; apply createSuccess_valid|].
  split; [intros; apply createError_valid|].
  split.
  { intros A E. unfold result_tagged. simpl. intuition congruence. }
  split.
  { intros id. rewrite findById_unfold. cbn [fst].
    destruct (Map_get id store); [apply createSuccess_valid | apply createError_valid]. }
  split; [apply createSuccess_valid|].
  split; [intros; apply createSuccess_valid|].
  split; [intros; apply createSuccess_valid|].
  intros id r. subst r. rewrite delete_unfold.
  destruct (Map_has id store); cbn [fst];
    unfold result_tagged, result_valid; simpl; intuition congruence.
Qed.
End RepositoryContract.

Lemma save_stores_touched_witness :
  SharedEntity.updatedAt ann <= 2000 /\
  SharedEntity.updatedAt ann <= SharedEntity.updatedAt (touchEntity 2000 ann).
Proof.
  assert (Hclock : SharedEntity.updatedAt ann <= 2000) by (simpl; lia).
  split; [exact Hclock|].
  pose proof (save_stores_touched Backend.new_store 2000 ann) as Hsave.
  cbv zeta in Hsave.
  exact (proj2 (proj2 (proj2 (proj2 (proj2 (proj2 (proj2 (proj2 (proj2 Hsave))))))))
           Hclock).
Defined.

Lemma delete_then_not_found_witness :
  Map_has "u1" store_ann_bob = true /\
  Map_has "u1" (snd (Backend.delete "u1" store_ann_bob)) = false /\
  Map_has "zz" store_ann_bob = false /\
  Backend.delete "zz" store_ann_bob
  = (createError (Backend.not_found "zz"), store_ann_bob).
Proof.
  assert (Hin : Map_has "u1" store_ann_bob = true) by reflexivity.
  assert (Hout : Map_has "zz" store_ann_bob = false) by reflexivity.
  split; [exact Hin|].
  split.
  - destruct (proj2 (delete_then_not_found store_ann_bob "u1") Hin)
      as (stored & _ & _ & _ & Hgone & _).
    exact Hgone.
  - split; [exact Hout|].
    exact (proj1 (proj1 (delete_then_not_found store_ann_bob "zz") Hout)).
Defined.

(** C2 as stated fails on [delete]: deleting a user that is in the store
    returns a success without value. *)
Lemma delete_success_is_not_valid :
  Result.ok (fst (Backend.delete "u1" store_ann_bob)) = true /\
  Result.value (fst (Backend.delete "u1" store_ann_bob)) = None /\
  ~ result_valid (fst (Backend.delete "u1" store_ann_bob)).
Proof.
  split; [reflexivity|]. split; [reflexivity|].
  unfold result_valid. simpl. intros [Hok _].
  destruct Hok as [Hok _]. destruct (Hok eq_refl) as [Hvalue _].
  now apply Hvalue.
Qed.

Lemma results_are_tagged_witness :
  Result.ok (fst (Backend.delete "u1" store_ann_bob)) = true /\
  unwrapResult (fst (Backend.delete "u1" store_ann_bob))
  = Thrown "Result value is undefined".
Proof.
  assert (Hok : Result.ok (fst (Backend.delete "u1" store_ann_bob)) = true)
    by reflexivity.
  split; [exact Hok|].
  pose proof (results_are_tagged store_ann_bob) as Hall.
  destruct Hall as (_ & _ & _ & _ & _ & _ & _ & Hdelete).
  destruct (Hdelete "u1"%string) as (_ & _ & _ & _ & Hunwrap).
  exact (Hunwrap Hok).
Defined.

(** ** Validation *)

Lemma combine_loop (results : list ValidationResult.t) (acc : list ValidationError.t) :
  fold_left combine_step results acc = acc ++ List.concat (map failing_errors results).
Proof.
  revert acc. induction results as [|r results IH]; intros acc; simpl.
  - now rewrite app_nil_r.
  - rewrite IH. unfold combine_step, failing_errors.
    destruct r as [[] [errors|]]; simpl;
      rewrite ?app_nil_r, <- ?app_assoc; reflexivity.
Qed.

Lemma combineValidations_unfold (results : list ValidationResult.t) :
  combineValidations results =
  match List.concat (map failing_errors results) with
  | [] => validationSuccess
  | e :: errors => validationError (e :: errors)
  end.
Proof.
  unfold combineValidations. rewrite combine_loop. simpl.
  now destruct (List.concat (map failing_errors results)).
Qed.

Lemma reports_errors_failing (r : ValidationResult.t) :
  reports_errors r -> failing_errors r = [] -> succeeded r.
Proof.
  unfold reports_errors, failing_errors, succeeded.
  destruct (ValidationResult.ok r); [reflexivity|].
  intros Hrep Hnil. destruct (Hrep eq_refl) as (e & errors & Herr).
  rewrite Herr in Hnil. discriminate.
Qed.

(** C7 as amended.  [combineValidations] collects, in input order, the
    error lists of the failing inputs.  It returns the success exactly
    when nothing was collected, that is when every input is a success or
    a failure with an empty or absent error list; otherwise it returns a
    failure whose errors are the collected ones.  So a combination of
    successes is a success, and when every failing input carries at least
    one error the combination is a success if and only if every input
    is. *)
Theorem combineValidations_collects (results : list ValidationResult.t) :
  let combined := combineValidations results in
  let collected := List.concat (map failing_errors results) in
  (ValidationResult.ok combined = true <->
   Forall (fun r => succeeded r \/ failing_errors r = []) results) /\
  (ValidationResult.ok combined = true -> combined = validationSuccess) /\
  (ValidationResult.ok combined = false ->
   ValidationResult.errors combined = Some collected /\ collected <> []) /\
  (Forall succeeded results -> combined = validationSuccess) /\
  (Forall reports_errors results ->
   (ValidationResult.ok combined = true <-> Forall succeeded results)).
Proof.
  intros combined collected.
  assert (Hnil : collected = [] <->
                 Forall (fun r => succeeded r \/ failing_errors r = []) results).
  { unfold collected. rewrite concat_nil_Forall, Forall_map.
    split; apply Forall_impl; intros r; unfold succeeded, failing_errors;
      destruct (ValidationResult.ok r); intuition congruence. }
  assert (Hok : ValidationResult.ok combined = true <-> collected = []).
  { unfold combined. rewrite combineValidations_unfold. fold collected.
    destruct collected; simpl; intuition congruence. }
  split; [now rewrite Hok|].
  split.
  { intros Htrue. apply Hok in Htrue. unfold combined.
    rewrite combineValidations_unfold. fold collected. now rewrite Htrue. }
  split.
  { unfold combined. rewrite combineValidations_unfold. fold collected.
    destruct collected; simpl; [discriminate|]. intros _. split; congruence. }
  split.
  { intros Hall. unfold combined.
    rewrite combineValidations_unfold. fold collected.
    assert (Hc : collected = []).
    { apply Hnil. eapply Forall_impl; [|exact Hall]. intros r Hr. now left. }
    now rewrite Hc. }
  intros Hrep. rewrite Hok, Hnil. split.
  - intros Hall. rewrite Forall_forall in *. intros r Hin.
    destruct (Hall r Hin) as [Hs|Hempty]; [exact Hs|].
    apply reports_errors_failing; auto.
  - intros Hall. eapply Forall_impl; [|exact Hall]. intros r Hr. now left.
Qed.

Lemma combineValidations_collects_witness :
  Forall reports_errors
    [validationError [email_required]; validationSuccess;
     validationError [name_too_short]] /\
  ValidationResult.errors
    (combineValidations
       [validationError [email_required]; validationSuccess;
        validationError [name_too_short]])
  = Some [email_required; name_too_short].
Proof.
  set (results := [validationError [email_required]; validationSuccess;
                   validationError [name_too_short]]).
  assert (Hrep : Forall reports_errors results).
  { repeat constructor; unfold reports_errors; simpl;
      try discriminate; intros _; eauto. }
  split; [exact Hrep|].
  pose proof (combineValidations_collects results) as Hall.
  cbv zeta in Hall.
  destruct Hall as (_ & _ & Hfail & _ & _).
  exact (proj1 (Hfail eq_refl)).
Defined.

(** C7 as stated fails: a failure with an empty error list is an input
    that is not a success, and the combination is a success. *)
Lemma combineValidations_empty_failure :
  ValidationResult.ok (combineValidations [ValidationResult.mk false (Some [])]) = true /\
  ~ Forall succeeded [ValidationResult.mk false (Some [])].
Proof.
  split; [reflexivity|].
  intros Hall. inversion Hall as [|r rs Hr _]; subst.
  unfold succeeded in Hr. simpl in Hr. discriminate.
Qed.

(** ** The DTO of a user *)

Lemma Role_string_injective (r1 r2 : Backend.Role) :
  Backend.Role_string r1 = Backend.Role_string r2 -> r1 = r2.
Proof. destruct r1, r2; simpl; intros Heq; congruence || discriminate. Qed.

(** C10.  [toUserDto] returns an object whose own properties are [id],
    [createdAt], [updatedAt], [email], [name] and [role], none of which is
    a server-side property of [BackendUser].  Two backend users have the
    same DTO if and only if they have the same values of these six
    properties; so the DTO does not depend on [passwordHash] (nor on
    [lastLoginAt], [loginCount], [isVerified]). *)
Theorem toUserDto_projection (u1 u2 : Backend.BackendUser.t) :
  ownKeys (Backend.toUserDto u1)
  = ["id"; "createdAt"; "updatedAt"; "email"; "name"; "role"]%string /\
  (forall key, In key server_side_keys -> ~ In key (ownKeys (Backend.toUserDto u1))) /\
  (same_public_fields u1 u2 -> Backend.toUserDto u1 = Backend.toUserDto u2) /\
  (Backend.toUserDto u1 = Backend.toUserDto u2 -> same_public_fields u1 u2) /\
  (forall hash, Backend.toUserDto (with_passwordHash hash u1) = Backend.toUserDto u1).
Proof.
  split; [reflexivity|].
  split.
  { intros key Hkey Hin. simpl in Hkey, Hin.
    repeat (destruct Hkey as [<-|Hkey]; [intuition discriminate|]).
    exact Hkey. }
  split.
  { intros (Hid & Hc & Hu & He & Hn & Hr). unfold Backend.toUserDto.
    now rewrite Hid, Hc, Hu, He, Hn, Hr. }
  split.
  { unfold Backend.toUserDto, same_public_fields. intros Heq.
    injection Heq as Hid Hc Hu He Hn Hr.
    apply Role_string_injective in Hr. tauto. }
  reflexivity.
Qed.

Lemma toUserDto_projection_witness :
  same_public_fields ann (with_passwordHash "hashed_other" ann) /\
  Backend.toUserDto ann = Backend.toUserDto (with_passwordHash "hashed_other" ann).
Proof.
  assert (Hsame : same_public_fields ann (with_passwordHash "hashed_other" ann))
    by (repeat split).
  split; [exact Hsame|].
  exact (proj1 (proj2 (proj2
           (toUserDto_projection ann (with_passwordHash "hashed_other" ann)))) Hsame).
Defined.

(** ** [forEach] and the subscribers at publish time *)

Section ForEachFacts.
Context {S X : Type}.
Variable read : S -> list X.
Variable call : X -> S -> S * Outcome unit.

(** Callbacks may push onto the array that is traversed, and do nothing
    else to it. *)
Hypothesis call_extends :
  forall x s, exists pushed, read (fst (call x s)) = read s ++ pushed.

Lemma forEach_from_call_each (xs : list X) :
  forall (s : S) (front behind : list X),
    read s = front ++ xs ++ behind ->
    forEach_from read call (List.length xs) (List.length front) s = call_each call xs s.
Proof.
  induction xs as [|x xs IH]; intros s front behind Hread; [reflexivity|].
  cbn [List.length forEach_from call_each].
  assert (Hnth : nth_error (read s) (List.length front) = Some x).
  { rewrite Hread, nth_error_app2, Nat.sub_diag by lia. reflexivity. }
  rewrite Hnth.
  destruct (call_extends x s) as (pushed & Hpushed).
  destruct (call x s) as [s' [[]|message]]; [|reflexivity].
  cbn [fst] in Hpushed.
  replace (Datatypes.S (List.length front)) with (List.length (front ++ [x]))
    by (rewrite length_app; simpl; lia).
  apply (IH s' (front ++ [x]) (behind ++ pushed)).
  rewrite Hpushed, Hread, <- !app_assoc. reflexivity.
Qed.

(** [forEach] calls the elements that the array has when the traversal
    starts, whatever is pushed meanwhile. *)
Lemma forEach_snapshot (s : S) :
  forEach read call s = call_each call (read s) s.
Proof.
  unfold forEach.
  apply (forEach_from_call_each (read s) s [] []).
  now rewrite app_nil_r.
Qed.
End ForEachFacts.

(** ** The event code of the services *)

Section ServiceFacts.
Context {Dto World : Type}.
Variable behaviour : FnRef -> Backend.Event Dto -> World -> Backend.Reaction World.
Implicit Types (st : Backend.Running Dto World) (event : Backend.Event Dto).

Lemma onEvent_all (hs : list FnRef) (svc : Backend.Service) :
  Backend.eventEmitters (fold_left (fun svc h => Backend.onEvent h svc) hs svc)
  = Backend.eventEmitters svc ++ hs.
Proof.
  revert svc. induction hs as [|h hs IH]; intros svc; simpl.
  - now rewrite app_nil_r.
  - rewrite IH. simpl. now rewrite <- app_assoc.
Qed.

Lemma invoke_extends event (h : FnRef) st :
  exists pushed,
    Backend.eventEmitters (Backend.this (fst (Backend.invoke behaviour event h st)))
    = Backend.eventEmitters (Backend.this st) ++ pushed.
Proof.
  eexists. unfold Backend.invoke. cbn [fst Backend.this]. apply onEvent_all.
Qed.

Lemma emitEvent_snapshot (now : Date) (type : SharedEventType) (payload : Dto) st :
  Backend.emitEvent behaviour now type payload st
  = call_each (Backend.invoke behaviour (SharedEvent.mk type payload now backend))
      (Backend.eventEmitters (Backend.this st)) st.
Proof.
  unfold Backend.emitEvent.
  apply (forEach_snapshot (fun st => Backend.eventEmitters (Backend.this st))).
  intros h s. apply invoke_extends.
Qed.

(** The calls made by a traversal: the callbacks up to the first one
    that throws, in order, one call each. *)
Lemma call_each_invoke event (hs : list FnRef) :
  forall st,
    exists delivered skipped,
      hs = delivered ++ skipped /\
      Backend.calls (fst (call_each (Backend.invoke behaviour event) hs st))
      = Backend.calls st ++ deliveries event delivered /\
      (exists pushed,
          Backend.eventEmitters
            (Backend.this (fst (call_each (Backend.invoke behaviour event) hs st)))
          = Backend.eventEmitters (Backend.this st) ++ pushed) /\
      match snd (call_each (Backend.invoke behaviour event) hs st) with
      | Returned _ => skipped = []
      | Thrown message =>
          exists earlier h w,
            delivered = earlier ++ [h] /\
            Backend.completion (behaviour h event w) = Thrown message
      end.
Proof.
  induction hs as [|h hs IH]; intros st.
  - exists [], []. simpl. rewrite !app_nil_r.
    repeat split. exists []. now rewrite app_nil_r.
  - cbn [call_each].
    destruct (Backend.invoke behaviour event h st) as [st1 c] eqn:Hinvoke.
    assert (Hcalls : Backend.calls st1 = Backend.calls st ++ [(h, event)]).
    { unfold Backend.invoke in Hinvoke. injection Hinvoke as <- _. reflexivity. }
    assert (Hc : c = Backend.completion (behaviour h event (Backend.world st))).
    { unfold Backend.invoke in Hinvoke. injection Hinvoke as _ <-. reflexivity. }
    destruct (invoke_extends event h st) as (pushed1 & Hpushed1).
    rewrite Hinvoke in Hpushed1. cbn [fst] in Hpushed1.
    destruct c as [[]|message].
    + destruct (IH st1) as (delivered & skipped & Hhs & Hlog & (pushed & Hpushed) & Hend).
      exists (h :: delivered), skipped.
      split; [simpl; now rewrite Hhs|].
      split; [rewrite Hlog, Hcalls, <- app_assoc; reflexivity|].
      split; [exists (pushed1 ++ pushed); rewrite Hpushed, Hpushed1, app_assoc; reflexivity|].
      destruct (snd (call_each (Backend.invoke behaviour event) hs st1)) as [[]|m];
        [exact Hend|].
      destruct Hend as (earlier & h' & w & Hd & Hthrow).
      exists (h :: earlier), h', w. split; [simpl; now rewrite Hd | exact Hthrow].
    + exists [h], hs. cbn [fst snd].
      split; [reflexivity|].
      split; [exact Hcalls|].
      split; [exists pushed1; exact Hpushed1|].
      exists [], h, (Backend.world st). split; [reflexivity | now rewrite <- Hc].
Qed.

Lemma call_each_invoke_quiet event (hs : list FnRef) :
  (forall h w, Backend.completion (behaviour h event w) = Returned tt) ->
  forall st, snd (call_each (Backend.invoke behaviour event) hs st) = Returned tt.
Proof.
  intros Hquiet. induction hs as [|h hs IH]; intros st; [reflexivity|].
  cbn [call_each]. unfold Backend.invoke at 1. rewrite Hquiet. apply IH.
Qed.

(** Callbacks that return in turn are all called, and the traversal goes
    on behind them. *)
Lemma call_each_invoke_prefix event (earlier rest : list FnRef) :
  forall st,
    return_in_turn behaviour event earlier (Backend.world st) ->
    exists st1,
      call_each (Backend.invoke behaviour event) (earlier ++ rest) st
      = call_each (Backend.invoke behaviour event) rest st1 /\
      Backend.world st1 = world_after behaviour event earlier (Backend.world st) /\
      Backend.calls st1 = Backend.calls st ++ deliveries event earlier.
Proof.
  induction earlier as [|h earlier IH]; intros st Hreturn.
  - exists st. cbn. now rewrite app_nil_r.
  - destruct Hreturn as (Hh & Hreturn).
    cbn [app call_each]. unfold Backend.invoke at 1. rewrite Hh.
    set (st0 := Backend.mkRunning _ _ _).
    destruct (IH st0 Hreturn) as (st1 & Hrun & Hworld & Hcalls).
    exists st1. split; [exact Hrun|]. split; [exact Hworld|].
    rewrite Hcalls. subst st0. cbn [Backend.calls deliveries map].
    now rewrite <- app_assoc.
Qed.

Lemma call_each_invoke_returns event (hs : list FnRef) st :
  return_in_turn behaviour event hs (Backend.world st) ->
  snd (call_each (Backend.invoke behaviour event) hs st) = Returned tt /\
  Backend.world (fst (call_each (Backend.invoke behaviour event) hs st))
  = world_after behaviour event hs (Backend.world st) /\
  Backend.calls (fst (call_each (Backend.invoke behaviour event) hs st))
  = Backend.calls st ++ deliveries event hs.
Proof.
  intros Hreturn.
  destruct (call_each_invoke_prefix event hs [] st Hreturn)
    as (st1 & Hrun & Hworld & Hcalls).
  rewrite app_nil_r in Hrun. rewrite Hrun. cbn [call_each fst snd].
  now repeat split.
Qed.

Lemma call_each_invoke_returned event (hs : list FnRef) :
  forall st,
    snd (call_each (Backend.invoke behaviour event) hs st) = Returned tt ->
    return_in_turn behaviour event hs (Backend.world st).
Proof.
  induction hs as [|h hs IH]; intros st Hret; [exact I|].
  cbn [call_each] in Hret. unfold Backend.invoke at 1 in Hret.
  cbn [return_in_turn].
  destruct (Backend.completion (behaviour h event (Backend.world st))) as [[]|m];
    [|discriminate Hret].
  split; [reflexivity|].
  exact (IH _ Hret).
Qed.

Lemma call_each_invoke_throws event (earlier later : list FnRef) (h : FnRef)
  (message : string) st :
  return_in_turn behaviour event earlier (Backend.world st) ->
  Backend.completion
    (behaviour h event (world_after behaviour event earlier (Backend.world st)))
  = Thrown message ->
  snd (call_each (Backend.invoke behaviour event) (earlier ++ h :: later) st)
  = Thrown message /\
  Backend.calls (fst (call_each (Backend.invoke behaviour event) (earlier ++ h :: later) st))
  = Backend.calls st ++ deliveries event (earlier ++ [h]).
Proof.
  intros Hreturn Hthrow.
  destruct (call_each_invoke_prefix event earlier (h :: later) st Hreturn)
    as (st1 & Hrun & Hworld & Hcalls).
  rewrite Hrun. cbn [call_each]. unfold Backend.invoke.
  rewrite Hworld, Hthrow. cbn [fst snd Backend.calls].
  split; [reflexivity|].
  rewrite Hcalls. unfold deliveries. rewrite map_app, <- app_assoc. reflexivity.
Qed.
End ServiceFacts.

Section EmitEvent.
Context {Dto World : Type}.
Variable behaviour : FnRef -> Backend.Event Dto -> World -> Backend.Reaction World.

(** C1 as amended.  [emitEvent] calls the callbacks that are subscribed
    when it starts, in subscription order, each with the event, up to and
    including the first one that throws: the calls it makes are the
    deliveries to a prefix [delivered] of the subscriber list.  When it
    returns, the prefix is the whole list: every subscriber was called
    exactly once, in order.  When it throws, the exception is the one of
    the last callback called, and the subscribers after it were not
    called.  When no callback throws on this event, it returns.  With no
    subscriber it returns and changes nothing.  Callbacks that subscribe
    while the event is delivered are added behind the subscribers and are
    not called for this event.  Nothing isolates a callback: when the
    subscribers before a subscriber return in turn and this one throws,
    [emitEvent] throws its exception, and the calls made are those of
    these subscribers and of this one, none of the subscribers behind
    it; [emitEvent] returns exactly when all subscribers return in
    turn. *)
Theorem emitEvent_delivery (now : Date) (type : SharedEventType) (payload : Dto)
  (st : Backend.Running Dto World) :
  let event := SharedEvent.mk type payload now backend in
  let subscribers := Backend.eventEmitters (Backend.this st) in
  let st' := fst (Backend.emitEvent behaviour now type payload st) in
  let outcome := snd (Backend.emitEvent behaviour now type payload st) in
  exists delivered skipped,
    subscribers = delivered ++ skipped /\
    Backend.calls st' = Backend.calls st ++ deliveries event delivered /\
    (outcome = Returned tt ->
     skipped = [] /\
     Backend.calls st' = Backend.calls st ++ deliveries event subscribers) /\
    (forall message, outcome = Thrown message ->
       exists earlier h w,
         delivered = earlier ++ [h] /\
         Backend.completion (behaviour h event w) = Thrown message) /\
    ((forall h w, Backend.completion (behaviour h event w) = Returned tt) ->
     outcome = Returned tt) /\
    (subscribers = [] -> st' = st /\ outcome = Returned tt) /\
    (exists pushed,
        Backend.eventEmitters (Backend.this st') = subscribers ++ pushed) /\
    (forall earlier h later message,
        subscribers = earlier ++ h :: later ->
        return_in_turn behaviour event earlier (Backend.world st) ->
        Backend.completion
          (behaviour h event (world_after behaviour event earlier (Backend.world st)))
        = Thrown message ->
        outcome = Thrown message /\
        Backend.calls st' = Backend.calls st ++ deliveries event (earlier ++ [h])) /\
    (outcome = Returned tt <->
     return_in_turn behaviour event subscribers (Backend.world st)).
Proof.
  intros event subscribers st' outcome.
  subst st' outcome. rewrite emitEvent_snapshot. fold event subscribers.
  destruct (call_each_invoke behaviour event subscribers st)
    as (delivered & skipped & Hsplit & Hcalls & Hpushed & Hend).
  exists delivered, skipped.
  split; [exact Hsplit|].
  split; [exact Hcalls|].
  split.
  { intros Hret. rewrite Hret in Hend. split; [exact Hend|].
    rewrite Hcalls, Hsplit, Hend, app_nil_r. reflexivity. }
  split.
  { intros message Hthrown. rewrite Hthrown in Hend. exact Hend. }
  split; [intros Hquiet; now apply call_each_invoke_quiet|].
  split; [intros Hnone; rewrite Hnone; split; reflexivity|].
  split; [exact Hpushed|].
  split.
  { intros earlier h later message Hsubscribers Hreturn Hthrow.
    rewrite Hsubscribers. now apply call_each_invoke_throws. }
  split; [apply call_each_invoke_returned|].
  intros Hreturn. now apply call_each_invoke_returns.
Qed.
End EmitEvent.

Lemma emitEvent_delivery_witness :
  (forall h w, Backend.completion (all_return h (ann_created 5000) w) = Returned tt) /\
  snd (Backend.emitEvent all_return 5000 created (Backend.toUserDto ann) service_1_2)
  = Returned tt /\
  Backend.calls
    (fst (Backend.emitEvent all_return 5000 created (Backend.toUserDto ann) service_1_2))
  = deliveries (ann_created 5000) [1; 2]%nat /\
  snd (Backend.emitEvent first_throws 5000 created (Backend.toUserDto ann) service_1_2)
  = Thrown "handler 1 failed" /\
  (exists h w,
      Backend.completion (first_throws h (ann_created 5000) w) = Thrown "handler 1 failed") /\
  return_in_turn first_throws (ann_created 5000) [] (Backend.world service_1_2) /\
  Backend.completion
    (first_throws 1%nat (ann_created 5000)
       (world_after first_throws (ann_created 5000) [] (Backend.world service_1_2)))
  = Thrown "handler 1 failed" /\
  Backend.calls
    (fst (Backend.emitEvent first_throws 5000 created (Backend.toUserDto ann) service_1_2))
  = Backend.calls service_1_2 ++ deliveries (ann_created 5000) [1%nat].
Proof.
  assert (Hquiet : forall h w,
             Backend.completion (all_return h (ann_created 5000) w) = Returned tt)
    by reflexivity.
  assert (Hthrown :
            snd (Backend.emitEvent first_throws 5000 created (Backend.toUserDto ann)
                   service_1_2) = Thrown "handler 1 failed")
    by reflexivity.
  split; [exact Hquiet|].
  destruct (emitEvent_delivery all_return 5000 created (Backend.toUserDto ann) service_1_2)
    as (delivered & skipped & _ & _ & Hall & _ & Hreturns & _).
  destruct (emitEvent_delivery first_throws 5000 created (Backend.toUserDto ann) service_1_2)
    as (delivered' & skipped' & _ & _ & _ & Hlast & _ & _ & _ & Hstops & _).
  split; [exact (Hreturns Hquiet)|].
  split; [exact (proj2 (Hall (Hreturns Hquiet)))|].
  split; [exact Hthrown|].
  split.
  { destruct (Hlast _ Hthrown) as (earlier & h & w & _ & Hh).
    exists h, w. exact Hh. }
  split; [exact I|]. split; [reflexivity|].
  exact (proj2 (Hstops [] 1%nat [2%nat] "handler 1 failed"%string eq_refl I eq_refl)).
Defined.

(** C1 as stated fails: the first of two subscribers throws, and the
    second one is not called. *)
Lemma emitEvent_stops_at_throw :
  snd (Backend.emitEvent first_throws 5000 created (Backend.toUserDto ann) service_1_2)
  = Thrown "handler 1 failed" /\
  Backend.eventEmitters (Backend.this service_1_2) = [1; 2]%nat /\
  Backend.calls
    (fst (Backend.emitEvent first_throws 5000 created (Backend.toUserDto ann) service_1_2))
  = [(1%nat, ann_created 5000)] /\
  Backend.calls
    (fst (Backend.emitEvent first_throws 5000 created (Backend.toUserDto ann) service_1_2))
  <> deliveries (ann_created 5000) [1; 2]%nat.
Proof.
  split; [reflexivity|]. split; [reflexivity|]. split; [reflexivity|].
  discriminate.
Qed.

(** ** Subscribing and unsubscribing *)

Section ServiceSubscribers.
Context {Dto World : Type}.
Variable behaviour : FnRef -> Backend.Event Dto -> World -> Backend.Reaction World.

(** Each call of the event API of a service keeps the subscribers and
    may add some behind them. *)
Lemma perform_extends (c : Backend.ServiceCall Dto) (st : Backend.Running Dto World) :
  exists pushed,
    Backend.eventEmitters (Backend.this (Backend.perform behaviour c st))
    = Backend.eventEmitters (Backend.this st) ++ pushed.
Proof.
  destruct c as [emitter|now type payload]; cbn [Backend.perform].
  - exists [emitter]. reflexivity.
  - rewrite emitEvent_snapshot.
    destruct (call_each_invoke behaviour (SharedEvent.mk type payload now backend)
                (Backend.eventEmitters (Backend.this st)) st)
      as (_ & _ & _ & _ & Hpushed & _).
    exact Hpushed.
Qed.

Lemma perform_all_extends (cs : list (Backend.ServiceCall Dto)) :
  forall st : Backend.Running Dto World,
  exists pushed,
    Backend.eventEmitters (Backend.this (Backend.perform_all behaviour cs st))
    = Backend.eventEmitters (Backend.this st) ++ pushed.
Proof.
  induction cs as [|c cs IH]; intros st.
  - exists []. simpl. now rewrite app_nil_r.
  - cbn [Backend.perform_all fold_left].
    destruct (perform_extends c st) as (pushed1 & H1).
    destruct (IH (Backend.perform behaviour c st)) as (pushed2 & H2).
    exists (pushed1 ++ pushed2).
    unfold Backend.perform_all in H2. rewrite H2, H1, app_assoc. reflexivity.
Qed.

(** A subscriber of a service stays subscribed. *)
Lemma subscriber_stays (h : FnRef) (cs : list (Backend.ServiceCall Dto))
  (st : Backend.Running Dto World) :
  In h (Backend.eventEmitters (Backend.this st)) ->
  In h (Backend.eventEmitters (Backend.this (Backend.perform_all behaviour cs st))).
Proof.
  intros Hin. destruct (perform_all_extends cs st) as (pushed & ->).
  apply in_or_app. now left.
Qed.
End ServiceSubscribers.

Section ManagerFacts.
Context {World : Type}.
Variable behaviour :
  FnRef -> list Notification.t -> World -> NotificationManager.Code World.
Implicit Types (st : NotificationManager.Running World) (listener l : FnRef).

(** *** The arrays of listeners *)

Lemma array_at_same (g : nat) st st' :
  NotificationManager.listeners (NotificationManager.this st')
  = NotificationManager.listeners (NotificationManager.this st) ->
  NotificationManager.retired st' = NotificationManager.retired st ->
  NotificationManager.array_at g st' = NotificationManager.array_at g st.
Proof.
  intros Hlisteners Hretired.
  unfold NotificationManager.array_at, NotificationManager.generation.
  now rewrite Hlisteners, Hretired.
Qed.

Lemma array_at_generation st :
  NotificationManager.array_at (NotificationManager.generation st) st
  = NotificationManager.listeners (NotificationManager.this st).
Proof. unfold NotificationManager.array_at. now rewrite Nat.eqb_refl. Qed.

Lemma arrays_extend_refl st : arrays_extend st st.
Proof. intros g. exists []. now rewrite app_nil_r. Qed.

Lemma arrays_extend_trans st1 st2 st3 :
  arrays_extend st1 st2 -> arrays_extend st2 st3 -> arrays_extend st1 st3.
Proof.
  intros H12 H23 g. destruct (H12 g) as (p1 & Hp1), (H23 g) as (p2 & Hp2).
  exists (p1 ++ p2). now rewrite Hp2, Hp1, app_assoc.
Qed.

Lemma arrays_extend_same st st' :
  NotificationManager.listeners (NotificationManager.this st')
  = NotificationManager.listeners (NotificationManager.this st) ->
  NotificationManager.retired st' = NotificationManager.retired st ->
  arrays_extend st st'.
Proof.
  intros Hlisteners Hretired g. exists [].
  rewrite app_nil_r. now apply array_at_same.
Qed.

Lemma arrays_extend_subscribe l st :
  arrays_extend st
    (NotificationManager.with_this
       (snd (NotificationManager.subscribe l (NotificationManager.this st))) st).
Proof.
  intros g. unfold NotificationManager.array_at, NotificationManager.generation.
  cbn. destruct (Nat.eqb g _); [exists [l] | exists []];
    [reflexivity | now rewrite app_nil_r].
Qed.

Lemma arrays_extend_unsubscribe (u : NotificationManager.Unsubscribe) st :
  arrays_extend st (NotificationManager.call_unsubscribe u st).
Proof.
  intros g. unfold NotificationManager.array_at, NotificationManager.generation.
  cbn [NotificationManager.call_unsubscribe NotificationManager.retired
       NotificationManager.this NotificationManager.listeners].
  rewrite length_app. cbn [List.length].
  set (n := List.length (NotificationManager.retired st)).
  destruct (Nat.eqb_spec g (n + 1)) as [Hnew|Hnotnew].
  - destruct (Nat.eqb_spec g n) as [Heq|_]; [lia|].
    eexists. rewrite nth_overflow by (fold n; lia). reflexivity.
  - exists []. rewrite app_nil_r.
    destruct (Nat.eqb_spec g n) as [->|Hne].
    + rewrite app_nth2 by (fold n; lia). fold n. now rewrite Nat.sub_diag.
    + destruct (Nat.lt_ge_cases g n) as [Hlt|Hge].
      * now rewrite app_nth1 by (fold n; lia).
      * rewrite !nth_overflow; [reflexivity | fold n; lia |].
        rewrite length_app. cbn [List.length]. fold n. lia.
Qed.

(** *** One frame: the methods, given the calls that listeners make *)

Section FrameFacts.
Variable below :
  NotificationManager.Call -> NotificationManager.Running World ->
  NotificationManager.Running World * Outcome NotificationManager.Answer.
Hypothesis below_extends : forall c st, arrays_extend st (fst (below c st)).

Lemma run_extends (code : NotificationManager.Code World) :
  forall st, arrays_extend st (fst (NotificationManager.run below code st)).
Proof.
  induction code as [w completion|w c continue IH]; intros st;
    cbn [NotificationManager.run].
  - now apply arrays_extend_same.
  - pose proof (below_extends c (NotificationManager.with_world w st)) as Hbelow.
    destruct (below c (NotificationManager.with_world w st)) as [st' answer].
    cbn [fst] in Hbelow.
    eapply arrays_extend_trans; [|apply IH].
    eapply arrays_extend_trans; [|exact Hbelow].
    now apply arrays_extend_same.
Qed.

Lemma notify_extends l st :
  arrays_extend st (fst (NotificationManager.notify behaviour below l st)).
Proof.
  unfold NotificationManager.notify.
  eapply arrays_extend_trans; [|apply run_extends].
  now apply arrays_extend_same.
Qed.

(** A publication calls the listeners that the array has when it
    starts, whatever the listeners do to the manager meanwhile. *)
Lemma notifyListeners_snapshot st :
  NotificationManager.notifyListeners behaviour below st
  = call_each (NotificationManager.notify behaviour below)
      (NotificationManager.listeners (NotificationManager.this st)) st.
Proof.
  unfold NotificationManager.notifyListeners.
  rewrite (forEach_snapshot
             (NotificationManager.array_at (NotificationManager.generation st))
             (NotificationManager.notify behaviour below)).
  - now rewrite array_at_generation.
  - intros l s. apply notify_extends.
Qed.

Lemma call_each_notify_extends (ls : list FnRef) :
  forall st,
    arrays_extend st
      (fst (call_each (NotificationManager.notify behaviour below) ls st)).
Proof.
  induction ls as [|l ls IH]; intros st; cbn [call_each].
  - apply arrays_extend_refl.
  - pose proof (notify_extends l st) as Hnotify.
    destruct (NotificationManager.notify behaviour below l st) as [st1 [[]|m]];
      cbn [fst] in *; [|exact Hnotify].
    eapply arrays_extend_trans; [exact Hnotify | apply IH].
Qed.

Lemma notifyListeners_extends st :
  arrays_extend st (fst (NotificationManager.notifyListeners behaviour below st)).
Proof. rewrite notifyListeners_snapshot. apply call_each_notify_extends. Qed.

Lemma perform_extends_arrays (c : NotificationManager.Call) st :
  arrays_extend st (fst (NotificationManager.perform behaviour below c st)).
Proof.
  unfold NotificationManager.perform. cbv zeta.
  set (st' := NotificationManager.record_performed c st).
  assert (Hlogged : arrays_extend st st') by now apply arrays_extend_same.
  eapply arrays_extend_trans; [exact Hlogged|]. clearbody st'.
  destruct c as [type message duration|id|l|u|].
  - unfold NotificationManager.add. cbv zeta.
    set (st0 := NotificationManager.with_this _ st').
    pose proof (notifyListeners_extends st0) as Hpublish.
    assert (Hstore : arrays_extend st' st0) by now apply arrays_extend_same.
    destruct (NotificationManager.notifyListeners behaviour below st0)
      as [st1 [[]|m]]; cbn [fst] in *.
    + eapply arrays_extend_trans; [exact Hstore|].
      eapply arrays_extend_trans; [exact Hpublish|].
      destruct (0 <? _); [now apply arrays_extend_same | apply arrays_extend_refl].
    + eapply arrays_extend_trans; [exact Hstore | exact Hpublish].
  - unfold NotificationManager.remove.
    set (st0 := NotificationManager.with_this _ st').
    pose proof (notifyListeners_extends st0) as Hpublish.
    assert (Hdiscard : arrays_extend st' st0) by now apply arrays_extend_same.
    destruct (NotificationManager.notifyListeners behaviour below st0)
      as [st1 [[]|m]]; cbn [fst] in *;
      (eapply arrays_extend_trans; [exact Hdiscard | exact Hpublish]).
  - apply arrays_extend_subscribe.
  - apply arrays_extend_unsubscribe.
  - now apply arrays_extend_same.
Qed.
End FrameFacts.

Lemma perform_at_extends (depth : nat) :
  forall (c : NotificationManager.Call) st,
    arrays_extend st (fst (NotificationManager.perform_at behaviour depth c st)).
Proof.
  induction depth as [|depth IH]; intros c st; cbn [NotificationManager.perform_at].
  - apply arrays_extend_refl.
  - now apply perform_extends_arrays.
Qed.

(** *** Invariants of a manager whose listeners call it

    A property [P] of the running manager that each statement of the
    methods keeps is kept by every call, whatever the listeners do and
    call on the manager meanwhile.  A listener that is called is one of
    the listeners of the state in which the publication started; [R]
    relates a state to the states that come after it. *)
Section Invariant.
Variable P : NotificationManager.Running World -> Prop.
Variable R :
  NotificationManager.Running World -> NotificationManager.Running World -> Prop.
Hypothesis R_refl : forall st, R st st.
Hypothesis R_trans : forall st1 st2 st3, R st1 st2 -> R st2 st3 -> R st1 st3.
Hypothesis step_world :
  forall st w, P st -> step_keeps P R st (NotificationManager.with_world w st).
Hypothesis step_record :
  forall st0 st l,
    P st0 -> In l (NotificationManager.listeners (NotificationManager.this st0)) ->
    R st0 st -> P st ->
    step_keeps P R st (NotificationManager.record_call l st).
Hypothesis step_timer :
  forall st delay id, P st -> step_keeps P R st (NotificationManager.set_timer delay id st).
Hypothesis step_store :
  forall st type message duration,
    P st ->
    step_keeps P R st
      (NotificationManager.with_this
         (NotificationManager.store type message duration (NotificationManager.this st)) st).
Hypothesis step_discard :
  forall st id,
    P st ->
    step_keeps P R st
      (NotificationManager.with_this
         (NotificationManager.discard id (NotificationManager.this st)) st).
Hypothesis step_performed :
  forall st c, P st -> step_keeps P R st (NotificationManager.record_performed c st).
Hypothesis step_subscribe :
  forall st l,
    P st ->
    step_keeps P R st
      (NotificationManager.with_this
         (snd (NotificationManager.subscribe l (NotificationManager.this st)))
         (NotificationManager.record_performed (NotificationManager.CallSubscribe l) st)).
Hypothesis step_unsubscribe :
  forall st u, P st -> step_keeps P R st (NotificationManager.call_unsubscribe u st).

Lemma step_keeps_then st st1 st2 :
  step_keeps P R st st1 -> (P st1 -> step_keeps P R st1 st2) -> step_keeps P R st st2.
Proof.
  intros (HP1 & HR1) Hnext. destruct (Hnext HP1) as (HP2 & HR2).
  split; [exact HP2 | now apply (R_trans st st1 st2)].
Qed.

Section FrameInvariant.
Variable below :
  NotificationManager.Call -> NotificationManager.Running World ->
  NotificationManager.Running World * Outcome NotificationManager.Answer.
Hypothesis below_extends : forall c st, arrays_extend st (fst (below c st)).
Hypothesis below_keeps : forall c st, P st -> step_keeps P R st (fst (below c st)).

Lemma run_keeps (code : NotificationManager.Code World) :
  forall st, P st -> step_keeps P R st (fst (NotificationManager.run below code st)).
Proof.
  induction code as [w completion|w c continue IH]; intros st HP;
    cbn [NotificationManager.run].
  - now apply step_world.
  - apply (step_keeps_then st (NotificationManager.with_world w st));
      [now apply step_world|].
    intros HPw. pose proof (below_keeps c _ HPw) as Hbelow.
    destruct (below c (NotificationManager.with_world w st)) as [st' answer].
    cbn [fst] in Hbelow.
    apply (step_keeps_then _ st'); [exact Hbelow|].
    intros HP'. now apply IH.
Qed.

Lemma notify_keeps st0 l st :
  P st0 -> In l (NotificationManager.listeners (NotificationManager.this st0)) ->
  R st0 st -> P st ->
  step_keeps P R st (fst (NotificationManager.notify behaviour below l st)).
Proof.
  intros HP0 Hin HR HP. unfold NotificationManager.notify.
  apply (step_keeps_then st (NotificationManager.record_call l st));
    [now apply (step_record st0)|].
  intros HP'. now apply run_keeps.
Qed.

Lemma call_each_notify_keeps st0 (ls : list FnRef) :
  P st0 ->
  incl ls (NotificationManager.listeners (NotificationManager.this st0)) ->
  forall st,
    R st0 st -> P st ->
    step_keeps P R st
      (fst (call_each (NotificationManager.notify behaviour below) ls st)).
Proof.
  intros HP0. induction ls as [|l ls IH]; intros Hincl st HR HP; cbn [call_each];
    [split; [exact HP | apply R_refl]|].
  pose proof (notify_keeps st0 l st HP0 (Hincl l (or_introl eq_refl)) HR HP) as Hnotify.
  destruct (NotificationManager.notify behaviour below l st) as [st1 [[]|m]];
    cbn [fst] in *; [|exact Hnotify].
  apply (step_keeps_then st st1); [exact Hnotify|].
  intros HP1. apply IH; [|apply (R_trans st0 st st1); [exact HR | exact (proj2 Hnotify)]
                         |exact HP1].
  intros x Hx. apply Hincl. now right.
Qed.

Lemma notifyListeners_keeps st :
  P st ->
  step_keeps P R st (fst (NotificationManager.notifyListeners behaviour below st)).
Proof.
  intros HP. rewrite notifyListeners_snapshot by exact below_extends.
  apply (call_each_notify_keeps st); [exact HP | apply incl_refl | apply R_refl | exact HP].
Qed.

Lemma add_keeps type message duration st :
  P st ->
  step_keeps P R st
    (fst (NotificationManager.add behaviour below type message duration st)).
Proof.
  intros HP. unfold NotificationManager.add. cbv zeta.
  set (st0 := NotificationManager.with_this _ st).
  assert (Hstored : step_keeps P R st st0) by now apply step_store.
  clearbody st0.
  pose proof (notifyListeners_keeps st0 (proj1 Hstored)) as Hpublish.
  apply (step_keeps_then st st0); [exact Hstored|]. intros _.
  destruct (NotificationManager.notifyListeners behaviour below st0)
    as [st1 [[]|m]]; cbn [fst] in *; [|exact Hpublish].
  apply (step_keeps_then st0 st1); [exact Hpublish|].
  intros HP1. destruct (0 <? _); [now apply step_timer|].
  split; [exact HP1 | apply R_refl].
Qed.

Lemma remove_keeps id st :
  P st ->
  step_keeps P R st (fst (NotificationManager.remove behaviour below id st)).
Proof.
  intros HP. unfold NotificationManager.remove.
  set (st0 := NotificationManager.with_this _ st).
  assert (Hdiscarded : step_keeps P R st st0) by now apply step_discard.
  clearbody st0.
  apply (step_keeps_then st st0); [exact Hdiscarded|]. intros HP0.
  now apply notifyListeners_keeps.
Qed.

Lemma perform_keeps (c : NotificationManager.Call) st :
  P st -> step_keeps P R st (fst (NotificationManager.perform behaviour below c st)).
Proof.
  intros HP. unfold NotificationManager.perform. cbv zeta.
  destruct c as [type message duration|id|l|u|].
  - set (st' := NotificationManager.record_performed
                  (NotificationManager.CallAdd type message duration) st).
    apply (step_keeps_then st st'); [now apply step_performed|].
    clearbody st'. intros HPlogged.
    pose proof (add_keeps type message duration st' HPlogged) as Hadd.
    destruct (NotificationManager.add behaviour below type message duration st')
      as [st1 [id|m]]; exact Hadd.
  - set (st' := NotificationManager.record_performed
                  (NotificationManager.CallRemove id) st).
    apply (step_keeps_then st st'); [now apply step_performed|].
    clearbody st'. intros HPlogged.
    pose proof (remove_keeps id st' HPlogged) as Hremove.
    destruct (NotificationManager.remove behaviour below id st')
      as [st1 [[]|m]]; exact Hremove.
  - exact (step_subscribe st l HP).
  - set (st' := NotificationManager.record_performed
                  (NotificationManager.CallUnsubscribe u) st).
    apply (step_keeps_then st st'); [now apply step_performed|].
    intros HPlogged. exact (step_unsubscribe st' u HPlogged).
  - pose proof (step_performed st NotificationManager.CallGetAll HP) as Hlogged.
    destruct st. exact Hlogged.
Qed.
End FrameInvariant.

Lemma perform_at_keeps (depth : nat) :
  forall (c : NotificationManager.Call) st,
    P st ->
    step_keeps P R st (fst (NotificationManager.perform_at behaviour depth c st)).
Proof.
  induction depth as [|depth IH]; intros c st HP;
    cbn [NotificationManager.perform_at]; [split; [exact HP | apply R_refl]|].
  apply perform_keeps; [apply perform_at_extends | exact IH | exact HP].
Qed.

Lemma run_at_keeps (depth : nat) (code : NotificationManager.Code World) st :
  P st ->
  step_keeps P R st
    (fst (NotificationManager.run (NotificationManager.perform_at behaviour depth) code st)).
Proof. intros HP. apply run_keeps; [apply perform_at_keeps | exact HP]. Qed.

Lemma add_at_keeps (depth : nat) type message duration st :
  P st ->
  step_keeps P R st
    (fst (NotificationManager.add behaviour
            (NotificationManager.perform_at behaviour depth) type message duration st)).
Proof. intros HP. apply add_keeps; [apply perform_at_extends | apply perform_at_keeps | exact HP]. Qed.

Lemma remove_at_keeps (depth : nat) id st :
  P st ->
  step_keeps P R st
    (fst (NotificationManager.remove behaviour
            (NotificationManager.perform_at behaviour depth) id st)).
Proof. intros HP. apply remove_keeps; [apply perform_at_extends | apply perform_at_keeps | exact HP]. Qed.

Lemma manager_perform_keeps (depth : nat) (c : NotificationManager.Call) st :
  P st -> step_keeps P R st (manager_perform behaviour depth c st).
Proof. intros HP. now apply (perform_at_keeps (Datatypes.S depth)). Qed.

Lemma manager_perform_all_keeps (depth : nat) (cs : list NotificationManager.Call) :
  forall st, P st -> step_keeps P R st (manager_perform_all behaviour depth cs st).
Proof.
  induction cs as [|c cs IH]; intros st HP; [split; [exact HP | apply R_refl]|].
  cbn [manager_perform_all fold_left].
  apply (step_keeps_then st (manager_perform behaviour depth c st));
    [now apply manager_perform_keeps|].
  intros HP'. now apply IH.
Qed.
End Invariant.

(** *** The calls made to listeners *)

(** A listener that runs adds calls behind its own. *)
Lemma notify_at_calls (depth : nat) l st :
  exists nested,
    NotificationManager.calls
      (fst (NotificationManager.notify behaviour
              (NotificationManager.perform_at behaviour depth) l st))
    = NotificationManager.calls st
      ++ (l, NotificationManager.notifications (NotificationManager.this st)) :: nested.
Proof.
  unfold NotificationManager.notify.
  apply (run_at_keeps
           (fun st' => exists nested,
                NotificationManager.calls st'
                = NotificationManager.calls st
                  ++ (l, NotificationManager.notifications (NotificationManager.this st))
                     :: nested)
           (fun _ _ => True)); try (intros; exact I).
  - intros st' w HP. split; [exact HP | exact I].
  - intros st0 st' l' _ _ _ (nested & Hcalls). split; [|exact I].
    eexists. cbn [NotificationManager.record_call NotificationManager.calls].
    rewrite Hcalls, <- app_assoc. reflexivity.
  - intros st' delay id HP. split; [exact HP | exact I].
  - intros st' type message duration HP. split; [exact HP | exact I].
  - intros st' id HP. split; [exact HP | exact I].
  - intros st' c HP. split; [exact HP | exact I].
  - intros st' l' HP. split; [exact HP | exact I].
  - intros st' u HP. split; [exact HP | exact I].
  - exists []. reflexivity.
Qed.

(** A traversal that returns has reached its listeners in turn. *)
Lemma call_each_notify_reached (depth : nat) (ls : list FnRef) :
  forall st,
    snd (call_each (NotificationManager.notify behaviour
                      (NotificationManager.perform_at behaviour depth)) ls st)
    = Returned tt ->
    exists made,
      NotificationManager.calls
        (fst (call_each (NotificationManager.notify behaviour
                           (NotificationManager.perform_at behaviour depth)) ls st))
      = NotificationManager.calls st ++ made /\
      reached_in_turn ls made.
Proof.
  induction ls as [|l ls IH]; intros st Hret; cbn [call_each] in *.
  - exists []. split; [now rewrite app_nil_r|]. exists []. split; [reflexivity|constructor].
  - destruct (notify_at_calls depth l st) as (nested & Hcalls).
    destruct (NotificationManager.notify behaviour
                (NotificationManager.perform_at behaviour depth) l st)
      as [st1 [[]|m]]; cbn [fst snd] in *; [|discriminate Hret].
    destruct (IH st1 Hret) as (made & Hmade & (blocks & Hblocks & Hreached)).
    eexists. split.
    + rewrite Hmade, Hcalls, <- app_assoc. reflexivity.
    + exists (((l, NotificationManager.notifications (NotificationManager.this st))
               :: nested) :: blocks).
      split; [cbn [List.concat]; now rewrite Hblocks|].
      constructor; [eauto | exact Hreached].
Qed.

(** *** Listeners that do not call the manager *)

Section Observers.
Hypothesis listeners_observe : observers behaviour.
Variable below :
  NotificationManager.Call -> NotificationManager.Running World ->
  NotificationManager.Running World * Outcome NotificationManager.Answer.

Lemma notify_observer l st :
  exists w completion,
    NotificationManager.notify behaviour below l st
    = (NotificationManager.with_world w (NotificationManager.record_call l st), completion).
Proof.
  unfold NotificationManager.notify.
  destruct (listeners_observe l
              (NotificationManager.notifications (NotificationManager.this st))
              (NotificationManager.world st)) as (w & completion & ->).
  exists w, completion. reflexivity.
Qed.

(** A traversal of observers leaves the manager and the timers as they
    are, and calls a prefix of the listeners with the notifications: all
    of them when it returns, up to the one that throws otherwise. *)
Lemma call_each_notify (ls : list FnRef) :
  forall st,
    exists delivered skipped,
      ls = delivered ++ skipped /\
      NotificationManager.this
        (fst (call_each (NotificationManager.notify behaviour below) ls st))
      = NotificationManager.this st /\
      NotificationManager.retired
        (fst (call_each (NotificationManager.notify behaviour below) ls st))
      = NotificationManager.retired st /\
      NotificationManager.timers
        (fst (call_each (NotificationManager.notify behaviour below) ls st))
      = NotificationManager.timers st /\
      NotificationManager.calls
        (fst (call_each (NotificationManager.notify behaviour below) ls st))
      = NotificationManager.calls st
        ++ deliveries (NotificationManager.notifications (NotificationManager.this st))
             delivered /\
      match snd (call_each (NotificationManager.notify behaviour below) ls st) with
      | Returned _ => skipped = []
      | Thrown _ => delivered <> []
      end.
Proof.
  induction ls as [|l ls IH]; intros st.
  - exists [], []. cbn. rewrite app_nil_r. repeat split.
  - cbn [call_each].
    destruct (notify_observer l st) as (w & completion & ->).
    set (st1 := NotificationManager.with_world w _).
    destruct completion as [[]|message].
    + destruct (IH st1)
        as (delivered & skipped & Hls & Hthis & Hretired & Htimers & Hcalls & Hend).
      exists (l :: delivered), skipped.
      split; [cbn; now rewrite Hls|].
      split; [exact Hthis|]. split; [exact Hretired|]. split; [exact Htimers|].
      split.
      * rewrite Hcalls. subst st1. cbn. rewrite <- app_assoc. reflexivity.
      * destruct (snd (call_each _ ls st1)); [exact Hend | discriminate].
    + exists [l], ls. cbn [fst snd]. subst st1. cbn.
      repeat split. discriminate.
Qed.

(** Observers that return in turn are all called, and the traversal goes
    on behind them. *)
Lemma call_each_notify_prefix (earlier rest : list FnRef) :
  forall st,
    observers_return_in_turn behaviour
      (NotificationManager.notifications (NotificationManager.this st)) earlier
      (NotificationManager.world st) ->
    exists st1,
      call_each (NotificationManager.notify behaviour below) (earlier ++ rest) st
      = call_each (NotificationManager.notify behaviour below) rest st1 /\
      NotificationManager.this st1 = NotificationManager.this st /\
      NotificationManager.retired st1 = NotificationManager.retired st /\
      NotificationManager.timers st1 = NotificationManager.timers st /\
      NotificationManager.world st1
      = observers_world_after behaviour
          (NotificationManager.notifications (NotificationManager.this st)) earlier
          (NotificationManager.world st) /\
      NotificationManager.calls st1
      = NotificationManager.calls st
        ++ deliveries (NotificationManager.notifications (NotificationManager.this st))
             earlier.
Proof.
  induction earlier as [|l earlier IH]; intros st Hreturn.
  - exists st. cbn. now rewrite app_nil_r.
  - destruct Hreturn as (Hl & Hreturn).
    cbn [app call_each]. unfold NotificationManager.notify at 1.
    unfold observer_completion in Hl. unfold observer_after in Hreturn.
    destruct (listeners_observe l
                (NotificationManager.notifications (NotificationManager.this st))
                (NotificationManager.world st)) as (w & completion & Hcode).
    cbn [observers_world_after fold_left]. unfold observer_after at 2.
    rewrite Hcode in *. cbn [NotificationManager.run]. subst completion.
    set (st0 := NotificationManager.with_world w _).
    destruct (IH st0 Hreturn)
      as (st1 & Hrun & Hthis & Hretired & Htimers & Hworld & Hcalls).
    exists st1. split; [exact Hrun|].
    split; [exact Hthis|]. split; [exact Hretired|]. split; [exact Htimers|].
    split; [exact Hworld|].
    rewrite Hcalls. subst st0. cbn. now rewrite <- app_assoc.
Qed.

Lemma notifyListeners_observers_snapshot st :
  NotificationManager.notifyListeners behaviour below st
  = call_each (NotificationManager.notify behaviour below)
      (NotificationManager.listeners (NotificationManager.this st)) st.
Proof.
  unfold NotificationManager.notifyListeners.
  rewrite (forEach_snapshot
             (NotificationManager.array_at (NotificationManager.generation st))
             (NotificationManager.notify behaviour below)).
  - now rewrite array_at_generation.
  - intros l s. destruct (notify_observer l s) as (w & completion & ->).
    exists []. rewrite app_nil_r. now apply array_at_same.
Qed.

(** When the observers in front of a listener return in turn and this
    one throws, the publication throws, having called them and it. *)
Lemma notifyListeners_observers_throw (earlier later : list FnRef) l
  (message : string) st :
  NotificationManager.listeners (NotificationManager.this st) = earlier ++ l :: later ->
  observers_return_in_turn behaviour
    (NotificationManager.notifications (NotificationManager.this st)) earlier
    (NotificationManager.world st) ->
  observer_completion behaviour
    (NotificationManager.notifications (NotificationManager.this st)) l
    (observers_world_after behaviour
       (NotificationManager.notifications (NotificationManager.this st)) earlier
       (NotificationManager.world st))
  = Thrown message ->
  snd (NotificationManager.notifyListeners behaviour below st) = Thrown message /\
  NotificationManager.calls (fst (NotificationManager.notifyListeners behaviour below st))
  = NotificationManager.calls st
    ++ deliveries (NotificationManager.notifications (NotificationManager.this st))
         (earlier ++ [l]).
Proof.
  intros Hlisteners Hreturn Hthrow.
  rewrite notifyListeners_observers_snapshot, Hlisteners.
  destruct (call_each_notify_prefix earlier (l :: later) st Hreturn)
    as (st1 & Hrun & Hthis & _ & _ & Hworld & Hcalls).
  rewrite Hrun. cbn [call_each]. unfold NotificationManager.notify.
  unfold observer_completion in Hthrow. rewrite <- Hworld, <- Hthis in Hthrow.
  destruct (listeners_observe l
              (NotificationManager.notifications (NotificationManager.this st1))
              (NotificationManager.world st1)) as (w & completion & Hcode).
  rewrite Hcode in *. cbn [NotificationManager.run]. subst completion.
  cbn [fst snd]. split; [reflexivity|].
  cbn. rewrite Hcalls, Hthis. unfold deliveries. rewrite map_app, <- app_assoc.
  reflexivity.
Qed.

(** A publication to observers returns exactly when they return in
    turn. *)
Lemma notifyListeners_observers_return st :
  snd (NotificationManager.notifyListeners behaviour below st) = Returned tt
  <-> observers_return_in_turn behaviour
        (NotificationManager.notifications (NotificationManager.this st))
        (NotificationManager.listeners (NotificationManager.this st))
        (NotificationManager.world st).
Proof.
  rewrite notifyListeners_observers_snapshot.
  split.
  - generalize (NotificationManager.listeners (NotificationManager.this st)) at 1 2.
    intros ls.
    assert (Hgen : forall st',
               NotificationManager.this st' = NotificationManager.this st ->
               snd (call_each (NotificationManager.notify behaviour below) ls st')
               = Returned tt ->
               observers_return_in_turn behaviour
                 (NotificationManager.notifications (NotificationManager.this st)) ls
                 (NotificationManager.world st')).
    { induction ls as [|l ls IH]; intros st' Hthis Hret; [exact I|].
      cbn [call_each] in Hret. unfold NotificationManager.notify at 1 in Hret.
      cbn [observers_return_in_turn]. unfold observer_completion, observer_after.
      rewrite <- Hthis.
      destruct (listeners_observe l
                  (NotificationManager.notifications (NotificationManager.this st'))
                  (NotificationManager.world st')) as (w & completion & Hcode).
      rewrite Hcode in *. cbn [NotificationManager.run] in Hret.
      destruct completion as [[]|m]; [|discriminate Hret].
      split; [reflexivity|].
      rewrite Hthis. apply (IH (NotificationManager.with_world w
                                  (NotificationManager.record_call l st')));
        [exact Hthis | exact Hret]. }
    exact (Hgen st eq_refl).
  - intros Hreturn.
    destruct (call_each_notify_prefix
                (NotificationManager.listeners (NotificationManager.this st)) [] st Hreturn)
      as (st1 & Hrun & _).
    rewrite app_nil_r in Hrun. now rewrite Hrun.
Qed.

Lemma notifyListeners_observers st :
  exists delivered skipped,
    NotificationManager.listeners (NotificationManager.this st) = delivered ++ skipped /\
    NotificationManager.this
      (fst (NotificationManager.notifyListeners behaviour below st))
    = NotificationManager.this st /\
    NotificationManager.retired
      (fst (NotificationManager.notifyListeners behaviour below st))
    = NotificationManager.retired st /\
    NotificationManager.timers
      (fst (NotificationManager.notifyListeners behaviour below st))
    = NotificationManager.timers st /\
    NotificationManager.calls
      (fst (NotificationManager.notifyListeners behaviour below st))
    = NotificationManager.calls st
      ++ deliveries (NotificationManager.notifications (NotificationManager.this st))
           delivered /\
    match snd (NotificationManager.notifyListeners behaviour below st) with
    | Returned _ => skipped = []
    | Thrown _ => delivered <> []
    end.
Proof.
  rewrite notifyListeners_observers_snapshot. apply call_each_notify.
Qed.
End Observers.

Lemma filter_out_absent listener (ls : list FnRef) :
  ~ In listener (filter (fun l => negb (Nat.eqb l listener)) ls).
Proof.
  intros Hin. apply filter_In in Hin. destruct Hin as [_ Hneq].
  now rewrite Nat.eqb_refl in Hneq.
Qed.

Lemma filter_out_others listener l (ls : list FnRef) :
  l <> listener ->
  count_occ Nat.eq_dec (filter (fun l => negb (Nat.eqb l listener)) ls) l
  = count_occ Nat.eq_dec ls l.
Proof.
  intros Hne. induction ls as [|x ls IH]; [reflexivity|].
  cbn [filter]. destruct (Nat.eqb_spec x listener) as [->|Hx]; cbn [negb]; simpl.
  - destruct (Nat.eq_dec listener l) as [Heq|_]; [congruence | exact IH].
  - destruct (Nat.eq_dec x l) as [_|_]; [f_equal|]; exact IH.
Qed.

(** After a state without [listener] among the listeners, as long as no
    call of [subscribe] with it is on record, by a client or by a
    listener, it is no listener and it is not called. *)
Lemma manager_perform_all_absent listener (depth : nat)
  (cs : list NotificationManager.Call) st :
  ~ In listener (NotificationManager.listeners (NotificationManager.this st)) ->
  exists done made,
    NotificationManager.performed (manager_perform_all behaviour depth cs st)
    = NotificationManager.performed st ++ done /\
    NotificationManager.calls (manager_perform_all behaviour depth cs st)
    = NotificationManager.calls st ++ made /\
    (~ In (NotificationManager.CallSubscribe listener) done ->
     ~ In listener
         (NotificationManager.listeners
            (NotificationManager.this (manager_perform_all behaviour depth cs st))) /\
     Forall (fun c => callee c <> listener) made).
Proof.
  intros Habsent.
  set (P := fun st' : NotificationManager.Running World =>
              exists done made,
                NotificationManager.performed st'
                = NotificationManager.performed st ++ done /\
                NotificationManager.calls st' = NotificationManager.calls st ++ made /\
                (~ In (NotificationManager.CallSubscribe listener) done ->
                 ~ In listener
                     (NotificationManager.listeners (NotificationManager.this st')) /\
                 Forall (fun c => callee c <> listener) made)).
  assert (Hsame : forall st1 st2,
             NotificationManager.performed st2 = NotificationManager.performed st1 ->
             NotificationManager.calls st2 = NotificationManager.calls st1 ->
             NotificationManager.listeners (NotificationManager.this st2)
             = NotificationManager.listeners (NotificationManager.this st1) ->
             P st1 -> step_keeps P performed_since st1 st2).
  { intros st1 st2 Hperformed Hcalls Hlisteners (done & made & Hp & Hc & Hkeeps).
    split; [|exists []; rewrite app_nil_r; exact Hperformed].
    exists done, made. rewrite Hperformed, Hcalls, Hlisteners.
    split; [exact Hp | split; [exact Hc | exact Hkeeps]]. }
  apply (manager_perform_all_keeps P performed_since).
  - intros st1. exists []. now rewrite app_nil_r.
  - intros st1 st2 st3 (d1 & H1) (d2 & H2). exists (d1 ++ d2).
    now rewrite H2, H1, app_assoc.
  - intros st1 w HP. now apply Hsame.
  - intros st0 st1 l (done0 & made0 & Hp0 & _ & Hkeeps0) Hin (d & Hsince)
           (done1 & made1 & Hp1 & Hc1 & Hkeeps1).
    split; [|exists []; now rewrite app_nil_r].
    exists done1,
      (made1 ++ [(l, NotificationManager.notifications (NotificationManager.this st1))]).
    split; [exact Hp1|].
    split; [cbn; now rewrite Hc1, app_assoc|].
    intros Hnone. destruct (Hkeeps1 Hnone) as (Habsent1 & Hmade1).
    split; [exact Habsent1|].
    apply Forall_app. split; [exact Hmade1|].
    constructor; [|constructor]. unfold callee. cbn [fst]. intros ->.
    assert (Hdone : done1 = done0 ++ d).
    { rewrite Hp0, <- app_assoc in Hsince. rewrite Hp1 in Hsince.
      now apply app_inv_head in Hsince. }
    apply (proj1 (Hkeeps0 (fun Hsub => Hnone ltac:(rewrite Hdone; apply in_or_app;
                                                    now left)))).
    exact Hin.
  - intros st1 delay id HP. now apply Hsame.
  - intros st1 type message duration HP. now apply Hsame.
  - intros st1 id HP. now apply Hsame.
  - intros st1 c (done & made & Hp & Hc & Hkeeps).
    split; [|exists [c]; reflexivity].
    exists (done ++ [c]), made. cbn. rewrite Hp, app_assoc.
    split; [reflexivity|]. split; [exact Hc|].
    intros Hnone. apply Hkeeps. intros Hin. apply Hnone. apply in_or_app. now left.
  - intros st1 l (done & made & Hp & Hc & Hkeeps).
    split; [|exists [NotificationManager.CallSubscribe l]; reflexivity].
    exists (done ++ [NotificationManager.CallSubscribe l]), made.
    cbn. rewrite Hp, app_assoc.
    split; [reflexivity|]. split; [exact Hc|].
    intros Hnone.
    destruct (Hkeeps (fun Hin => Hnone (in_or_app _ _ _ (or_introl Hin))))
      as (Habsent1 & Hmade).
    split; [|exact Hmade].
    intros Hin. apply in_app_or in Hin. destruct Hin as [Hin|[Heq|[]]].
    + contradiction.
    + apply Hnone. apply in_or_app. right. left. now rewrite Heq.
  - intros st1 u (done & made & Hp & Hc & Hkeeps).
    split; [|exists []; cbn; now rewrite app_nil_r].
    exists done, made. split; [exact Hp|]. split; [exact Hc|].
    intros Hnone. destruct (Hkeeps Hnone) as (Habsent1 & Hmade).
    split; [|exact Hmade].
    cbn. intros Hin. apply filter_In in Hin. now apply Habsent1.
  - exists [], []. rewrite !app_nil_r. repeat split; [exact Habsent | constructor].
Qed.

(** The record of the calls grows, whatever happens. *)
Lemma performed_since_steps :
  (forall st : NotificationManager.Running World, performed_since st st) /\
  (forall st1 st2 st3 : NotificationManager.Running World,
      performed_since st1 st2 -> performed_since st2 st3 -> performed_since st1 st3) /\
  (forall st1 st2 : NotificationManager.Running World,
      NotificationManager.performed st2 = NotificationManager.performed st1 ->
      step_keeps (fun _ => True) performed_since st1 st2).
Proof.
  split; [|split].
  - intros st. exists []. now rewrite app_nil_r.
  - intros st1 st2 st3 (d1 & H1) (d2 & H2). exists (d1 ++ d2).
    now rewrite H2, H1, app_assoc.
  - intros st1 st2 Hsame. split; [exact I|]. exists []. now rewrite app_nil_r.
Qed.

(** A call of the manager is on record, before the calls that the
    listeners make meanwhile. *)
Lemma manager_perform_logged (depth : nat) (c : NotificationManager.Call) st :
  exists nested,
    NotificationManager.performed (manager_perform behaviour depth c st)
    = NotificationManager.performed st ++ c :: nested.
Proof.
  destruct performed_since_steps as (Hrefl & Htrans & Hsame).
  unfold manager_perform. cbn [NotificationManager.perform_at].
  unfold NotificationManager.perform. cbv zeta.
  set (st' := NotificationManager.record_performed c st).
  assert (Hlogged : NotificationManager.performed st'
                    = NotificationManager.performed st ++ [c]) by reflexivity.
  assert (Hfrom : forall final,
             performed_since st' final ->
             exists nested,
               NotificationManager.performed final
               = NotificationManager.performed st ++ c :: nested).
  { intros final (d & Hd). exists d. rewrite Hd, Hlogged, <- app_assoc. reflexivity. }
  clearbody st'.
  destruct c as [type message duration|id|l|u|].
  - pose proof (add_at_keeps (fun _ => True) performed_since Hrefl Htrans) as Hadd.
    specialize (Hadd
      (fun st1 w _ => Hsame st1 _ eq_refl)
      (fun st0 st1 l _ _ _ _ => Hsame st1 _ eq_refl)
      (fun st1 delay id _ => Hsame st1 _ eq_refl)
      (fun st1 type message duration _ => Hsame st1 _ eq_refl)
      (fun st1 id _ => Hsame st1 _ eq_refl)
      (fun st1 c' _ => conj I (ex_intro _ [c'] eq_refl))
      (fun st1 l _ => conj I (ex_intro _ [NotificationManager.CallSubscribe l] eq_refl))
      (fun st1 u _ => Hsame st1 _ eq_refl)
      depth type message duration st' I).
    destruct (NotificationManager.add behaviour _ type message duration st')
      as [st1 [id|m]]; apply Hfrom; exact (proj2 Hadd).
  - pose proof (remove_at_keeps (fun _ => True) performed_since Hrefl Htrans) as Hremove.
    specialize (Hremove
      (fun st1 w _ => Hsame st1 _ eq_refl)
      (fun st0 st1 l _ _ _ _ => Hsame st1 _ eq_refl)
      (fun st1 delay id _ => Hsame st1 _ eq_refl)
      (fun st1 type message duration _ => Hsame st1 _ eq_refl)
      (fun st1 id _ => Hsame st1 _ eq_refl)
      (fun st1 c' _ => conj I (ex_intro _ [c'] eq_refl))
      (fun st1 l _ => conj I (ex_intro _ [NotificationManager.CallSubscribe l] eq_refl))
      (fun st1 u _ => Hsame st1 _ eq_refl)
      depth id st' I).
    destruct (NotificationManager.remove behaviour _ id st')
      as [st1 [[]|m]]; apply Hfrom; exact (proj2 Hremove).
  - apply Hfrom. exists []. cbn. now rewrite app_nil_r.
  - apply Hfrom. exists []. cbn. now rewrite app_nil_r.
  - apply Hfrom. exists []. cbn. now rewrite app_nil_r.
Qed.

(** The calls of the clients are on record, in their order, among the
    calls that the listeners make. *)
Lemma manager_perform_all_logged (depth : nat) (cs : list NotificationManager.Call) :
  forall st,
    exists done,
      NotificationManager.performed (manager_perform_all behaviour depth cs st)
      = NotificationManager.performed st ++ done /\
      Subsequence cs done.
Proof.
  induction cs as [|c cs IH]; intros st.
  - exists []. split; [cbn; now rewrite app_nil_r | apply Subsequence_nil].
  - cbn [manager_perform_all fold_left].
    destruct (manager_perform_logged depth c st) as (nested & Hc).
    destruct (IH (manager_perform behaviour depth c st)) as (done & Hdone & Hsub).
    fold (manager_perform_all behaviour depth cs (manager_perform behaviour depth c st)).
    exists (c :: nested ++ done). split.
    + rewrite Hdone, Hc, <- app_assoc. reflexivity.
    + apply Subsequence_keep. clear - Hsub.
      induction nested as [|x nested IHn]; [exact Hsub|].
      cbn. now apply Subsequence_skip.
Qed.
End ManagerFacts.

(** C8 as amended.  [NotificationManager.subscribe] adds the listener
    behind the others and returns a closure.  Calling the closure, in any
    state of the manager, takes every occurrence of the listener out of
    the listener list and keeps the other listeners, as often and in the
    order they were there.  From then on, whatever the clients and the
    listeners call on the manager, the calls made on it are on record
    (those of the clients in their order, those that the listeners make
    while they are notified among them), and as long as no [subscribe]
    of this listener is among them, the listener is no listener of the
    manager and no call of the manager calls it; a publication that
    returns has reached all the remaining listeners in turn, each call
    being followed by the calls that the listener caused (none, when the
    listeners do not call the manager).  In any state, a publication
    that returns has reached in turn the listeners that were there when
    it started: a publication that is under way when a listener calls
    the closure goes on over the array it started with, and still calls
    the listener taken out; and a listener that another listener
    subscribes again after the closure was called is called again from
    the next publication on.  The services are different: [onEvent] returns nothing, a callback
    subscribed to a service stays subscribed whatever is called on the
    service afterwards, and every later publication that returns has
    called it. *)
Theorem unsubscribe_removes_listener
  {World : Type}
  (behaviour : FnRef -> list Notification.t -> World -> NotificationManager.Code World)
  {Dto ServiceWorld : Type}
  (handlers : FnRef -> Backend.Event Dto -> ServiceWorld -> Backend.Reaction ServiceWorld)
  (depth : nat) (nm : NotificationManager.t) (listener : FnRef) :
  let unsubscribe := fst (NotificationManager.subscribe listener nm) in
  NotificationManager.listeners (snd (NotificationManager.subscribe listener nm))
  = NotificationManager.listeners nm ++ [listener] /\
  (forall st : NotificationManager.Running World,
      let st' :=
        manager_perform behaviour depth (NotificationManager.CallUnsubscribe unsubscribe) st in
      let remaining := NotificationManager.listeners (NotificationManager.this st') in
      remaining = filter (fun l => negb (Nat.eqb l listener))
                    (NotificationManager.listeners (NotificationManager.this st)) /\
      ~ In listener remaining /\
      (forall l, l <> listener ->
                 count_occ Nat.eq_dec remaining l
                 = count_occ Nat.eq_dec
                     (NotificationManager.listeners (NotificationManager.this st)) l) /\
      (forall cs,
          let final := manager_perform_all behaviour depth cs st' in
          exists done made,
            NotificationManager.performed final
            = NotificationManager.performed st' ++ done /\
            Subsequence cs done /\
            NotificationManager.calls final = NotificationManager.calls st' ++ made /\
            (~ In (NotificationManager.CallSubscribe listener) done ->
             ~ In listener
                 (NotificationManager.listeners (NotificationManager.this final)) /\
             Forall (fun c => callee c <> listener) made)) /\
      (snd (NotificationManager.notifyListeners behaviour
              (NotificationManager.perform_at behaviour depth) st') = Returned tt ->
       exists made,
         NotificationManager.calls
           (fst (NotificationManager.notifyListeners behaviour
                   (NotificationManager.perform_at behaviour depth) st'))
         = NotificationManager.calls st' ++ made /\
         reached_in_turn remaining made) /\
      (observers behaviour ->
       snd (NotificationManager.notifyListeners behaviour
              (NotificationManager.perform_at behaviour depth) st') = Returned tt ->
       NotificationManager.calls
         (fst (NotificationManager.notifyListeners behaviour
                 (NotificationManager.perform_at behaviour depth) st'))
       = NotificationManager.calls st'
         ++ deliveries (NotificationManager.notifications (NotificationManager.this st'))
              remaining)) /\
  (forall st : NotificationManager.Running World,
      snd (NotificationManager.notifyListeners behaviour
             (NotificationManager.perform_at behaviour depth) st) = Returned tt ->
      exists made,
        NotificationManager.calls
          (fst (NotificationManager.notifyListeners behaviour
                  (NotificationManager.perform_at behaviour depth) st))
        = NotificationManager.calls st ++ made /\
        reached_in_turn
          (NotificationManager.listeners (NotificationManager.this st)) made) /\
  (let during :=
     manager_perform first_unsubscribes_second 1
       (NotificationManager.CallAdd info "saved" None) manager_1_2_3 in
   NotificationManager.listeners (NotificationManager.this manager_1_2_3) = [1; 2; 3]%nat /\
   map callee (NotificationManager.calls during) = [1; 2; 3]%nat /\
   NotificationManager.listeners (NotificationManager.this during) = [1; 3]%nat) /\
  (let again :=
     manager_perform_all first_subscribes_second 1
       [NotificationManager.CallUnsubscribe (NotificationManager.mkUnsubscribe 2%nat);
        NotificationManager.CallAdd info "saved" None;
        NotificationManager.CallAdd info "saved" None]
       manager_1_2_3 in
   NotificationManager.performed again
   = NotificationManager.performed manager_1_2_3
     ++ [NotificationManager.CallUnsubscribe (NotificationManager.mkUnsubscribe 2%nat);
         NotificationManager.CallAdd info "saved" None;
         NotificationManager.CallSubscribe 2%nat;
         NotificationManager.CallAdd info "saved" None;
         NotificationManager.CallSubscribe 2%nat] /\
   map callee (NotificationManager.calls again) = [1; 3; 1; 3; 2]%nat /\
   NotificationManager.listeners (NotificationManager.this again) = [1; 3; 2; 2]%nat) /\
  (forall (h : FnRef) (cs : list (Backend.ServiceCall Dto))
          (st : Backend.Running Dto ServiceWorld)
          (now : Date) (type : SharedEventType) (payload : Dto),
      let st' :=
        Backend.perform_all handlers cs
          (Backend.perform handlers (Backend.CallOnEvent h) st) in
      In h (Backend.eventEmitters (Backend.this st')) /\
      (snd (Backend.emitEvent handlers now type payload st') = Returned tt ->
       exists before behind,
         Backend.calls (fst (Backend.emitEvent handlers now type payload st'))
         = Backend.calls st'
           ++ before ++ (h, SharedEvent.mk type payload now backend) :: behind)).
Proof.
  intros unsubscribe.
  split; [reflexivity|].
  split; [|split; [|split; [|split]]].
  - intros st st' remaining.
    assert (Hrem : remaining = filter (fun l => negb (Nat.eqb l listener))
                     (NotificationManager.listeners (NotificationManager.this st)))
      by reflexivity.
    assert (Habsent : ~ In listener remaining)
      by (rewrite Hrem; apply filter_out_absent).
    split; [exact Hrem|].
    split; [exact Habsent|].
    split; [intros l Hl; rewrite Hrem; now apply filter_out_others|].
    split.
    + intros cs final.
      destruct (manager_perform_all_absent behaviour listener depth cs st' Habsent)
        as (done & made & Hperformed & Hcalls & Hkeeps).
      destruct (manager_perform_all_logged behaviour depth cs st')
        as (done' & Hperformed' & Hsub).
      exists done, made.
      split; [exact Hperformed|].
      split; [|split; [exact Hcalls | exact Hkeeps]].
      replace done with done'; [exact Hsub|].
      apply (app_inv_head (NotificationManager.performed st')).
      rewrite <- Hperformed'. exact Hperformed.
    + split.
      * intros Hret.
        rewrite notifyListeners_snapshot in * by apply perform_at_extends.
        now apply call_each_notify_reached.
      * intros Hobservers Hret.
        destruct (notifyListeners_observers behaviour Hobservers
                    (NotificationManager.perform_at behaviour depth) st')
          as (delivered & skipped & Hls & _ & _ & _ & Hcalls & Hend).
        rewrite Hret in Hend. subst skipped. rewrite app_nil_r in Hls.
        rewrite Hcalls. unfold remaining. now rewrite Hls.
  - intros st Hret.
    rewrite notifyListeners_snapshot in * by apply perform_at_extends.
    now apply call_each_notify_reached.
  - cbv zeta. split; [reflexivity|]. split; reflexivity.
  - cbv zeta. split; [reflexivity|]. split; reflexivity.
  - intros h cs st now type payload st'.
    assert (Hin : In h (Backend.eventEmitters (Backend.this st'))).
    { apply subscriber_stays.
      cbn [Backend.perform Backend.this Backend.eventEmitters Backend.onEvent].
      apply in_or_app. right. now left. }
    split; [exact Hin|].
    intros Hret. rewrite emitEvent_snapshot in *.
    destruct (call_each_invoke_returns handlers
                (SharedEvent.mk type payload now backend)
                (Backend.eventEmitters (Backend.this st')) st')
      as (_ & _ & Hcalls);
      [now apply call_each_invoke_returned|].
    rewrite Hcalls.
    apply in_split in Hin. destruct Hin as (front & back & Hsplit).
    exists (deliveries (SharedEvent.mk type payload now backend) front),
           (deliveries (SharedEvent.mk type payload now backend) back).
    rewrite Hsplit. unfold deliveries. now rewrite map_app.
Qed.

Lemma unsubscribe_removes_listener_witness :
  let clients :=
    [NotificationManager.CallAdd info "saved" None;
     NotificationManager.CallRemove "notification-1"] in
  let made :=
    NotificationManager.calls
      (manager_perform_all first_unsubscribes_second 3 clients
         (manager_perform first_unsubscribes_second 3
            (NotificationManager.CallUnsubscribe (NotificationManager.mkUnsubscribe 2%nat))
            manager_1_2_3)) in
  ~ In (NotificationManager.CallSubscribe 2%nat)
      [NotificationManager.CallAdd info "saved" None;
       NotificationManager.CallUnsubscribe (NotificationManager.mkUnsubscribe 2%nat);
       NotificationManager.CallRemove "notification-1";
       NotificationManager.CallUnsubscribe (NotificationManager.mkUnsubscribe 2%nat)] /\
  map callee made = [1; 3; 1; 3]%nat /\
  Forall (fun c => callee c <> 2%nat) made.
Proof.
  intros clients made.
  assert (Hnone : ~ In (NotificationManager.CallSubscribe 2%nat)
                    [NotificationManager.CallAdd info "saved" None;
                     NotificationManager.CallUnsubscribe
                       (NotificationManager.mkUnsubscribe 2%nat);
                     NotificationManager.CallRemove "notification-1";
                     NotificationManager.CallUnsubscribe
                       (NotificationManager.mkUnsubscribe 2%nat)]).
  { intros [Heq|[Heq|[Heq|[Heq|[]]]]]; discriminate. }
  split; [exact Hnone|]. split; [reflexivity|].
  destruct (unsubscribe_removes_listener first_unsubscribes_second all_return 3
              NotificationManager.new_manager 2%nat) as (_ & Hunsub & _).
  destruct (Hunsub manager_1_2_3) as (_ & _ & _ & Hlater & _).
  destruct (Hlater clients) as (done & made' & Hperformed & _ & Hcalls & Hkeeps).
  assert (Hdone : done
                  = [NotificationManager.CallAdd info "saved" None;
                     NotificationManager.CallUnsubscribe
                       (NotificationManager.mkUnsubscribe 2%nat);
                     NotificationManager.CallRemove "notification-1";
                     NotificationManager.CallUnsubscribe
                       (NotificationManager.mkUnsubscribe 2%nat)]).
  { eapply app_inv_head. rewrite <- Hperformed. reflexivity. }
  rewrite Hdone in Hkeeps. destruct (Hkeeps Hnone) as (_ & Hmade).
  assert (Hsame : made = made') by exact Hcalls.
  clearbody made. rewrite Hsame. exact Hmade.
Defined.

(** C8 as stated fails on the services: [onEvent] returns nothing, and
    no sequence of calls on the service takes a subscribed callback out:
    callback 2 is subscribed, stays subscribed, and is called by the next
    publication. *)
Lemma onEvent_cannot_be_undone :
  In 2%nat (Backend.eventEmitters (Backend.this service_1_2)) /\
  ~ (exists cs : list (Backend.ServiceCall Object),
        ~ In 2%nat (Backend.eventEmitters
                      (Backend.this (Backend.perform_all all_return cs service_1_2)))) /\
  Backend.calls
    (fst (Backend.emitEvent all_return 5000 created (Backend.toUserDto ann) service_1_2))
  = [(1%nat, ann_created 5000); (2%nat, ann_created 5000)].
Proof.
  assert (Hin : In 2%nat (Backend.eventEmitters (Backend.this service_1_2)))
    by (right; now left).
  split; [exact Hin|].
  split; [|reflexivity].
  intros (cs & Hgone). apply Hgone. now apply subscriber_stays.
Qed.

(* ================================================================== *)
(** * Further properties                                                *)
(* ================================================================== *)

(** ** Patterns: [test] decides the language *)

Lemma nullable_Matches (r : RegExp) : nullable r = true <-> Matches r [].
Proof.
  split.
  - induction r as [| |accepts|r1 IH1 r2 IH2|r1 IH1 r2 IH2|r IH]; simpl; intros Hn;
      try discriminate.
    + constructor.
    + apply andb_true_iff in Hn. destruct Hn as [H1 H2].
      change (@nil ascii) with (@nil ascii ++ []). constructor; auto.
    + apply orb_true_iff in Hn. destruct Hn as [H1|H2].
      * apply Matches_alt_l; auto.
      * apply Matches_alt_r; auto.
    + constructor.
  - intros Hm. remember (@nil ascii) as l eqn:Hl.
    induction Hm as [|accepts c Hc|r1 r2 s1 s2 H1 IH1 H2 IH2|r1 r2 s H IH|r1 r2 s H IH
                     |r|r s1 s2 H1 IH1 H2 IH2]; simpl; try reflexivity.
    + discriminate.
    + apply app_eq_nil in Hl. destruct Hl as [-> ->].
      now rewrite IH1, IH2.
    + now rewrite IH.
    + rewrite IH by assumption. apply orb_true_r.
Qed.

Lemma derive_sound (c : ascii) (r : RegExp) :
  forall s, Matches (derive c r) s -> Matches r (c :: s).
Proof.
  induction r as [| |accepts|r1 IH1 r2 IH2|r1 IH1 r2 IH2|r IH]; simpl; intros s Hm.
  - inversion Hm.
  - inversion Hm.
  - destruct (accepts c) eqn:Hc; inversion Hm; subst. now constructor.
  - assert (Hseq : forall t, Matches (Seq (derive c r1) r2) t -> Matches (Seq r1 r2) (c :: t)).
    { intros t Ht. inversion Ht as [| |? ? s1 s2 H1 H2| | | |]; subst.
      change (c :: s1 ++ s2) with ((c :: s1) ++ s2). constructor; auto. }
    destruct (nullable r1) eqn:Hn.
    + inversion Hm as [| | |? ? ? Hl|? ? ? Hr| |]; subst.
      * now apply Hseq.
      * change (c :: s) with ([] ++ c :: s). constructor; [|auto].
        now apply nullable_Matches.
    + now apply Hseq.
  - inversion Hm; subst; [apply Matches_alt_l | apply Matches_alt_r]; auto.
  - inversion Hm as [| |? ? s1 s2 H1 H2| | | |]; subst.
    change (c :: s1 ++ s2) with ((c :: s1) ++ s2). constructor; auto.
Qed.

Lemma derive_complete (r : RegExp) (l : list ascii) :
  Matches r l -> forall c s, l = c :: s -> Matches (derive c r) s.
Proof.
  intros Hm.
  induction Hm as [|accepts c0 Hc|r1 r2 s1 s2 H1 IH1 H2 IH2|r1 r2 s0 H IH|r1 r2 s0 H IH
                   |r|r s1 s2 H1 IH1 H2 IH2]; intros c s Hl; simpl.
  - discriminate.
  - injection Hl as -> <-. rewrite Hc. constructor.
  - destruct s1 as [|c1 s1].
    + simpl in Hl. subst s2.
      apply nullable_Matches in H1. rewrite H1.
      apply Matches_alt_r. now apply IH2.
    + simpl in Hl. injection Hl as -> <-.
      assert (Hseq : Matches (Seq (derive c r1) r2) (s1 ++ s2))
        by (constructor; auto).
      destruct (nullable r1); [now apply Matches_alt_l | exact Hseq].
  - apply Matches_alt_l. now apply IH.
  - apply Matches_alt_r. now apply IH.
  - discriminate.
  - destruct s1 as [|c1 s1].
    + simpl in Hl. now apply IH2.
    + simpl in Hl. injection Hl as -> <-. constructor; auto.
Qed.

(** The test of an anchored pattern is membership in its language. *)
Lemma RegExp_test_Matches (s : string) :
  forall r, RegExp_test r s = true <-> Matches r (chars s).
Proof.
  induction s as [|c s IH]; intros r; simpl.
  - apply nullable_Matches.
  - rewrite IH. split.
    + apply derive_sound.
    + intros Hm. now apply (derive_complete r (c :: chars s)).
Qed.

Lemma Matches_star_class (accepts : ascii -> bool) (r : RegExp) (l : list ascii) :
  Matches r l -> r = Star (Class accepts) -> Forall (fun c => accepts c = true) l.
Proof.
  intros Hm.
  induction Hm as [|p c0 Hc|r1 r2 s1 s2 H1 IH1 H2 IH2|r1 r2 s0 H IH|r1 r2 s0 H IH
                   |r|r s1 s2 H1 IH1 H2 IH2]; intros Hr; try discriminate.
  - constructor.
  - injection Hr as ->. apply Forall_app. split; [|auto].
    inversion H1; subst. now repeat constructor.
Qed.

Lemma star_class_Matches (accepts : ascii -> bool) (l : list ascii) :
  Forall (fun c => accepts c = true) l -> Matches (Star (Class accepts)) l.
Proof.
  induction 1 as [|c l Hc _ IH]; [constructor|].
  change (c :: l) with ([c] ++ l). constructor; [now constructor | exact IH].
Qed.

(** The language of [[p]+]: the non-empty runs of characters of the
    class. *)
Lemma Matches_plus_class (accepts : ascii -> bool) (l : list ascii) :
  Matches (Plus (Class accepts)) l <->
  l <> [] /\ Forall (fun c => accepts c = true) l.
Proof.
  unfold Plus. split.
  - intros Hm. inversion Hm as [| |? ? s1 s2 H1 H2| | | |]; subst.
    inversion H1; subst. split; [discriminate|].
    constructor; [assumption|].
    now apply (Matches_star_class accepts (Star (Class accepts))).
  - intros [Hne Hall]. destruct l as [|c l]; [contradiction|].
    inversion Hall; subst.
    change (c :: l) with ([c] ++ l). constructor; [now constructor|].
    now apply star_class_Matches.
Qed.

Lemma Matches_char (x : ascii) (l : list ascii) :
  Matches (Class (is_char x)) l <-> l = [x].
Proof.
  split.
  - intros Hm. inversion Hm as [|? c Hc| | | | |]; subst.
    unfold is_char in Hc. apply Ascii.eqb_eq in Hc. now subst.
  - intros ->. constructor. unfold is_char. apply Ascii.eqb_refl.
Qed.

Lemma EMAIL_REGEX_language (s : string) :
  RegExp_test EMAIL_REGEX s = true <-> email_shape s.
Proof.
  rewrite RegExp_test_Matches. unfold EMAIL_REGEX, email_shape, address_part.
  split.
  - intros Hm.
    inversion Hm as [| |? ? local rest1 Hlocal Hrest1| | | |]; subst.
    inversion Hrest1 as [| |? ? at_ rest2 Hat Hrest2| | | |]; subst.
    inversion Hrest2 as [| |? ? domain rest3 Hdomain Hrest3| | | |]; subst.
    inversion Hrest3 as [| |? ? dot tld Hdot Htld| | | |]; subst.
    apply Matches_char in Hat, Hdot. subst at_ dot.
    apply Matches_plus_class in Hlocal, Hdomain, Htld.
    exists local, domain, tld. repeat split; tauto.
  - intros (local & domain & tld & Hs & Hlocal & Hdomain & Htld).
    rewrite Hs.
    change (local ++ "@"%char :: domain ++ "."%char :: tld)
      with (local ++ ["@"%char] ++ domain ++ ["."%char] ++ tld).
    repeat constructor; try (apply Matches_plus_class; assumption);
      unfold is_char; apply Ascii.eqb_refl.
Qed.

(** ** Blank strings *)

Lemma chars_length (s : string) : String.length s = List.length (chars s).
Proof. induction s as [|c s IH]; simpl; [reflexivity | now rewrite IH]. Qed.

Lemma chars_reverse (s : string) : chars (reverse s) = rev (chars s).
Proof. unfold chars, reverse. apply list_ascii_of_string_of_list_ascii. Qed.

Lemma chars_empty (s : string) : chars s = [] <-> s = EmptyString.
Proof. destruct s; simpl; split; congruence. Qed.

Lemma trimStart_empty (s : string) : trimStart s = EmptyString <-> all_whitespace s.
Proof.
  unfold all_whitespace.
  induction s as [|c s IH]; simpl.
  - split; [constructor | reflexivity].
  - destruct (is_whitespace c) eqn:Hc.
    + rewrite IH. split; [now constructor | now inversion 1].
    + split; [discriminate | inversion 1; congruence].
Qed.

Lemma trimStart_blank_or_starts (s : string) :
  all_whitespace (trimStart s) -> trimStart s = EmptyString.
Proof.
  unfold all_whitespace.
  induction s as [|c s IH]; simpl; [reflexivity|].
  destruct (is_whitespace c) eqn:Hc; [exact IH|].
  simpl. inversion 1; congruence.
Qed.

Lemma trim_empty (s : string) : trim s = EmptyString <-> all_whitespace s.
Proof.
  unfold trim, trimEnd.
  rewrite <- chars_empty, chars_reverse.
  assert (Hrev : forall l : list ascii, rev l = [] <-> l = []).
  { intros l. split; [|now intros ->].
    intros Hl. apply (f_equal (@rev ascii)) in Hl. now rewrite rev_involutive in Hl. }
  rewrite Hrev, chars_empty, trimStart_empty.
  unfold all_whitespace at 1. rewrite chars_reverse.
  split.
  - intros Hall. apply trimStart_empty. apply trimStart_blank_or_starts.
    unfold all_whitespace. apply Forall_rev in Hall. now rewrite rev_involutive in Hall.
  - intros Hall. apply trimStart_empty in Hall. rewrite Hall. constructor.
Qed.

(** The first test of the validators, [!s || s.trim().length === 0],
    holds of the strings made of white space only. *)
Lemma is_blank_spec (s : string) : is_blank s = true <-> all_whitespace s.
Proof.
  unfold is_blank. destruct s as [|c s].
  - split; [constructor | reflexivity].
  - rewrite Nat.eqb_eq, <- trim_empty.
    destruct (trim (String c s)); simpl; split; congruence.
Qed.

Lemma is_blank_false (s : string) : is_blank s = false <-> ~ all_whitespace s.
Proof.
  rewrite <- is_blank_spec. destruct (is_blank s); split; congruence.
Qed.

Lemma email_shape_not_blank (s : string) : email_shape s -> ~ all_whitespace s.
Proof.
  intros (local & domain & tld & Hs & (Hne & Hlocal) & _) Hall.
  unfold all_whitespace in Hall. rewrite Hs in Hall.
  destruct local as [|c local]; [contradiction|].
  inversion Hall as [|? ? Hc _]; subst. inversion Hlocal as [|? ? Hc' _]; subst.
  unfold not_space_or_at in Hc'. rewrite Hc in Hc'. discriminate.
Qed.

(** ** The validators of one field *)

Lemma address_part_no_at (l : list ascii) :
  Forall (fun c => not_space_or_at c = true) l ->
  count_occ ascii_dec l "@"%char = 0%nat /\
  Forall (fun c => is_whitespace c = false) l.
Proof.
  induction 1 as [|c l Hc _ [IHcount IHws]]; [split; [reflexivity | constructor]|].
  unfold not_space_or_at in Hc. apply andb_true_iff in Hc. destruct Hc as [Hws Hat].
  apply negb_true_iff in Hws, Hat. apply Ascii.eqb_neq in Hat.
  split; [|now constructor].
  rewrite count_occ_cons_neq by assumption. exact IHcount.
Qed.

(** X1.  [validateEmail] returns the success or a failure with exactly
    one error, on the field [email].  It succeeds exactly on the strings
    of the shape [local@domain.tld], where the three parts are non-empty
    and free of white space and of [@] (the domain may contain dots); such
    a string has exactly one [@] and no white space.  A string of white
    space only (the empty string included) is reported as [REQUIRED], any
    other rejected string as [INVALID_FORMAT]. *)
Theorem validateEmail_accepts_addresses (email : string) :
  let r := validateEmail email in
  one_field_result "email" r /\
  (ValidationResult.ok r = true <-> email_shape email) /\
  (all_whitespace email -> only_error_code r = Some "REQUIRED"%string) /\
  (~ all_whitespace email -> ~ email_shape email ->
   only_error_code r = Some "INVALID_FORMAT"%string) /\
  (ValidationResult.ok r = true ->
   count_occ ascii_dec (chars email) "@"%char = 1%nat /\
   Forall (fun c => is_whitespace c = false) (chars email)).
Proof.
  intros r. subst r. unfold validateEmail.
  assert (Hfacts : email_shape email ->
                   count_occ ascii_dec (chars email) "@"%char = 1%nat /\
                   Forall (fun c => is_whitespace c = false) (chars email)).
  { intros (local & domain & tld & Hs & (_ & Hlocal) & (_ & Hdomain) & (_ & Htld)).
    apply address_part_no_at in Hlocal, Hdomain, Htld.
    destruct Hlocal as [Hl1 Hl2], Hdomain as [Hd1 Hd2], Htld as [Ht1 Ht2].
    rewrite Hs. split.
    - rewrite count_occ_app, Hl1. rewrite count_occ_cons_eq by reflexivity.
      rewrite count_occ_app, Hd1. rewrite count_occ_cons_neq by discriminate.
      now rewrite Ht1.
    - apply Forall_app. split; [assumption|]. constructor; [reflexivity|].
      apply Forall_app. split; [assumption|]. constructor; [reflexivity | assumption]. }
  destruct (is_blank email) eqn:Hblank.
  - apply is_blank_spec in Hblank.
    split; [right; eauto|].
    split; [split; [discriminate | intros Hs; now apply email_shape_not_blank in Hs]|].
    split; [reflexivity|].
    split; [contradiction | discriminate].
  - apply is_blank_false in Hblank.
    destruct (RegExp_test EMAIL_REGEX email) eqn:Htest; cbn [negb].
    + apply EMAIL_REGEX_language in Htest.
      split; [now left|].
      split; [tauto|].
      split; [contradiction|].
      split; [contradiction | auto].
    + assert (Hno : ~ email_shape email).
      { intros Hs. apply EMAIL_REGEX_language in Hs. congruence. }
      split; [right; eauto|].
      split; [split; [discriminate | contradiction]|].
      split; [contradiction|].
      split; [reflexivity | discriminate].
Qed.

Lemma validateEmail_accepts_addresses_witness :
  ValidationResult.ok (validateEmail "a@b.com") = true /\
  count_occ ascii_dec (chars "a@b.com") "@"%char = 1%nat /\
  all_whitespace "  " /\
  only_error_code (validateEmail "  ") = Some "REQUIRED"%string.
Proof.
  assert (Hok : ValidationResult.ok (validateEmail "a@b.com") = true) by reflexivity.
  assert (Hblank : all_whitespace "  ") by (repeat constructor).
  split; [exact Hok|].
  destruct (validateEmail_accepts_addresses "a@b.com") as (_ & _ & _ & _ & Hfacts).
  destruct (validateEmail_accepts_addresses "  ") as (_ & _ & Hrequired & _).
  split; [exact (proj1 (Hfacts Hok))|].
  split; [exact Hblank | exact (Hrequired Hblank)].
Defined.

(** X2.  [validateName] reports the first failing rule only, in the
    order required, minimum length, maximum length, as one error on the
    field it was given (['name'] by default).  It succeeds exactly when
    the name has a character that is not white space and its length,
    leading and trailing white space included, is between 2 and 100. *)
Theorem validateName_first_failing_rule (name : string) (fieldName : option string) :
  let field := match fieldName with Some f => f | None => "name"%string end in
  let r := validateName name fieldName in
  one_field_result field r /\
  (ValidationResult.ok r = true <->
   ~ all_whitespace name /\ (2 <= String.length name <= 100)%nat) /\
  (all_whitespace name -> only_error_code r = Some "REQUIRED"%string) /\
  (~ all_whitespace name -> (String.length name < 2)%nat ->
   only_error_code r = Some "MIN_LENGTH"%string) /\
  (~ all_whitespace name -> (100 < String.length name)%nat ->
   only_error_code r = Some "MAX_LENGTH"%string).
Proof.
  intros field r. subst r. unfold validateName. fold field.
  destruct (is_blank name) eqn:Hblank.
  - apply is_blank_spec in Hblank.
    split; [right; eauto|].
    split; [split; [discriminate | tauto]|].
    split; [reflexivity|].
    split; intros Hn; contradiction.
  - apply is_blank_false in Hblank.
    destruct (Nat.ltb_spec (String.length name) 2) as [Hshort|Hmin].
    + split; [right; eauto|].
      split; [split; [discriminate | lia]|].
      split; [contradiction|].
      split; [reflexivity | lia].
    + destruct (Nat.ltb_spec 100 (String.length name)) as [Hlong|Hmax].
      * split; [right; eauto|].
        split; [split; [discriminate | lia]|].
        split; [contradiction|].
        split; [lia | reflexivity].
      * split; [now left|].
        split; [split; [intros _; split; [assumption | lia] | reflexivity]|].
        split; [contradiction|].
        split; lia.
Qed.

Lemma validateName_first_failing_rule_witness :
  ~ all_whitespace "x" /\ (String.length "x" < 2)%nat /\
  only_error_code (validateName "x" (Some "title"%string)) = Some "MIN_LENGTH"%string /\
  all_whitespace " " /\
  only_error_code (validateName " " None) = Some "REQUIRED"%string.
Proof.
  assert (Hx : ~ all_whitespace "x").
  { intros Hall. inversion Hall as [|? ? Hc _]. discriminate. }
  assert (Hshort : (String.length "x" < 2)%nat) by (simpl; lia).
  assert (Hblank : all_whitespace " ") by (repeat constructor).
  destruct (validateName_first_failing_rule "x" (Some "title"%string))
    as (_ & _ & _ & Hmin & _).
  destruct (validateName_first_failing_rule " " None) as (_ & _ & Hrequired & _).
  split; [exact Hx|]. split; [exact Hshort|].
  split; [exact (Hmin Hx Hshort)|].
  split; [exact Hblank | exact (Hrequired Hblank)].
Defined.

(** ** The validators of a DTO *)

Lemma validateEmail_one_field (email : string) :
  one_field_result "email" (validateEmail email).
Proof.
  unfold validateEmail, one_field_result.
  destruct (is_blank email); [right; eauto|].
  destruct (RegExp_test EMAIL_REGEX email); cbn [negb]; [now left | right; eauto].
Qed.

Lemma validateName_one_field (name field : string) :
  one_field_result field (validateName name (Some field)).
Proof.
  unfold validateName, one_field_result.
  destruct (is_blank name); [right; eauto|].
  destruct (String.length name <? 2)%nat; [right; eauto|].
  destruct (100 <? String.length name)%nat; [right; eauto | now left].
Qed.

Lemma required_result_one_field (value : option string) (field message code : string) :
  one_field_result field
    (required_result value (ValidationError.mk field message code)).
Proof.
  unfold required_result, one_field_result.
  destruct (truthy value); [now left | right; eauto].
Qed.

Lemma one_field_result_ok (field : string) (r : ValidationResult.t) :
  one_field_result field r ->
  (ValidationResult.ok r = true /\ r = validationSuccess) \/
  (ValidationResult.ok r = false /\
   exists message code, r = validationError [ValidationError.mk field message code]).
Proof.
  intros [->|(message & code & ->)]; [left | right]; eauto.
Qed.

(** Leaving out elements of distinct names. *)
Ltac subsequence :=
  cbv;
  repeat first [apply Subsequence_nil | apply Subsequence_keep | apply Subsequence_skip].

(** Case analysis on the result of a validator of one field. *)
Ltac field_cases H :=
  let m := fresh "message" in
  let c := fresh "code" in
  destruct H as [->|(m & c & ->)].

(** X3.  [validateUserDto] is the combination, in the order email, name,
    role, of [validateEmail] on the email (the empty string when it is
    missing), [validateName] on the name, and the check that the role is
    there: it returns what [combineValidations] returns on these three
    results.  It succeeds exactly when the three succeed, and a failure
    lists at most one error per field, in this order, and at least
    one. *)
Theorem validateUserDto_combines_fields (user : PartialUserDto.t) :
  let emailResult := validateEmail (or_empty (PartialUserDto.email user)) in
  let nameResult := validateName (or_empty (PartialUserDto.name user)) (Some "name"%string) in
  let roleResult :=
    required_result (PartialUserDto.role user)
      (ValidationError.mk "role" "Role is required" "REQUIRED") in
  let r := validateUserDto user in
  r = combineValidations [emailResult; nameResult; roleResult] /\
  (ValidationResult.ok r = true <->
   ValidationResult.ok emailResult = true /\
   ValidationResult.ok nameResult = true /\
   truthy (PartialUserDto.role user) = true) /\
  Subsequence (error_fields r) ["email"; "name"; "role"]%string /\
  (ValidationResult.ok r = true -> ValidationResult.errors r = None) /\
  (ValidationResult.ok r = false -> error_fields r <> []).
Proof.
  intros emailResult nameResult roleResult r.
  pose proof (validateEmail_one_field (or_empty (PartialUserDto.email user))) as He.
  pose proof (validateName_one_field (or_empty (PartialUserDto.name user)) "name") as Hn.
  subst r. unfold validateUserDto. fold emailResult nameResult in He, Hn |- *.
  subst roleResult. unfold required_result, push_if_missing.
  clearbody emailResult nameResult.
  field_cases He; field_cases Hn; destruct (truthy (PartialUserDto.role user));
    (split; [reflexivity|]);
    (split; [cbv; intuition congruence|]);
    (split; [subsequence|]);
    (split; cbv; congruence).
Qed.

Lemma validateUserDto_combines_fields_witness :
  ValidationResult.ok
    (validateUserDto (PartialUserDto.mk None None None (Some "bad"%string) (Some "Ann"%string) None))
  = false /\
  error_fields
    (validateUserDto (PartialUserDto.mk None None None (Some "bad"%string) (Some "Ann"%string) None))
  <> [].
Proof.
  assert (Hfail : ValidationResult.ok
                    (validateUserDto
                       (PartialUserDto.mk None None None (Some "bad"%string) (Some "Ann"%string) None))
                  = false) by reflexivity.
  split; [exact Hfail|].
  destruct (validateUserDto_combines_fields
              (PartialUserDto.mk None None None (Some "bad"%string) (Some "Ann"%string) None))
    as (_ & _ & _ & _ & Hnonempty).
  exact (Hnonempty Hfail).
Defined.

(** X4.  [validateItemDto] is the combination, in the order title,
    description, ownerId, status, of [validateName] on the title (under
    the field name ['title']) and of the checks that the three other
    properties are there and, for the strings, not empty.  It succeeds
    exactly when the four succeed; a description of white space only is
    accepted.  A failure lists at most one error per field, in this
    order, and at least one. *)
Theorem validateItemDto_combines_fields (item : PartialItemDto.t) :
  let titleResult := validateName (or_empty (PartialItemDto.title item)) (Some "title"%string) in
  let descriptionResult :=
    required_result (PartialItemDto.description item)
      (ValidationError.mk "description" "Description is required" "REQUIRED") in
  let ownerResult :=
    required_result (PartialItemDto.ownerId item)
      (ValidationError.mk "ownerId" "Owner ID is required" "REQUIRED") in
  let statusResult :=
    required_result (PartialItemDto.status item)
      (ValidationError.mk "status" "Status is required" "REQUIRED") in
  let r := validateItemDto item in
  r = combineValidations [titleResult; descriptionResult; ownerResult; statusResult] /\
  (ValidationResult.ok r = true <->
   ValidationResult.ok titleResult = true /\
   truthy (PartialItemDto.description item) = true /\
   truthy (PartialItemDto.ownerId item) = true /\
   truthy (PartialItemDto.status item) = true) /\
  Subsequence (error_fields r) ["title"; "description"; "ownerId"; "status"]%string /\
  (ValidationResult.ok r = true -> ValidationResult.errors r = None) /\
  (ValidationResult.ok r = false -> error_fields r <> []).
Proof.
  intros titleResult descriptionResult ownerResult statusResult r.
  pose proof (validateName_one_field (or_empty (PartialItemDto.title item)) "title") as Ht.
  subst r. unfold validateItemDto. fold titleResult in Ht |- *.
  subst descriptionResult ownerResult statusResult.
  unfold required_result, push_if_missing.
  clearbody titleResult.
  field_cases Ht;
    destruct (truthy (PartialItemDto.description item));
    destruct (truthy (PartialItemDto.ownerId item));
    destruct (truthy (PartialItemDto.status item));
    (split; [reflexivity|]);
    (split; [cbv; intuition congruence|]);
    (split; [subsequence|]);
    (split; cbv; congruence).
Qed.

Lemma validateItemDto_combines_fields_witness :
  ValidationResult.ok
    (validateItemDto
       (PartialItemDto.mk None None None (Some "Report"%string) (Some " "%string) (Some "u1"%string)
          (Some "draft"%string)))
  = true /\
  ValidationResult.errors
    (validateItemDto
       (PartialItemDto.mk None None None (Some "Report"%string) (Some " "%string) (Some "u1"%string)
          (Some "draft"%string)))
  = None.
Proof.
  assert (Hok : ValidationResult.ok
                  (validateItemDto
                     (PartialItemDto.mk None None None (Some "Report"%string) (Some " "%string)
                        (Some "u1"%string) (Some "draft"%string)))
                = true) by reflexivity.
  split; [exact Hok|].
  destruct (validateItemDto_combines_fields
              (PartialItemDto.mk None None None (Some "Report"%string) (Some " "%string) (Some "u1"%string)
                 (Some "draft"%string)))
    as (_ & _ & _ & Hnone & _).
  exact (Hnone Hok).
Defined.

(** ** Results *)

(** X5.  [unwrapResult] returns a value exactly for a success that has
    one, and then returns that value; it throws the error of a failure
    as message (['Unknown error'] when the failure has none), whatever
    value the failure carries, and it throws on a success without value.
    So it undoes [createSuccess] on a defined value, and turns
    [createError] into a throw of the error. *)
Theorem unwrapResult_returns_only_values_of_successes {T : Type} (r : Result.t T string) :
  (forall v, unwrapResult r = Returned v <->
             Result.ok r = true /\ Result.value r = Some v) /\
  (forall message, unwrapResult r = Thrown message <->
     (Result.ok r = false /\
      message = match Result.error r with Some e => e | None => "Unknown error"%string end) \/
     (Result.ok r = true /\ Result.value r = None /\
      message = "Result value is undefined"%string)) /\
  (forall v : T, unwrapResult (createSuccess (Some v)) = Returned v) /\
  (forall e : string, unwrapResult (@createError T string e) = Thrown e).
Proof.
  unfold unwrapResult.
  destruct r as [[] [v0|] [e0|]]; cbn [Result.ok Result.value Result.error negb];
    repeat split; try reflexivity; intros; try intuition congruence.
Qed.

(** ** Pagination outside the expected parameters *)

Section PaginateEdges.
Context {T : Type}.

Lemma slice_segment (l : list T) (start end_ : Z) :
  exists before behind, l = before ++ slice l start end_ ++ behind.
Proof.
  unfold slice.
  match goal with
  | |- context [firstn ?n (skipn ?k l)] =>
      exists (firstn k l), (skipn n (skipn k l));
      now rewrite (firstn_skipn n), (firstn_skipn k)
  end.
Qed.

Lemma slice_length_bound (l : list T) (start width : Z) :
  0 <= width -> Z.of_nat (List.length (slice l start (start + width))) <= width.
Proof.
  intros Hw. unfold slice. rewrite length_firstn, length_skipn.
  destruct (Z.ltb_spec start 0), (Z.ltb_spec (start + width) 0); lia.
Qed.

Lemma slice_from_end (l : list T) (from upto : Z) :
  from <= upto -> upto < 0 ->
  slice l from upto =
  rev (firstn (Z.to_nat (upto - from)) (skipn (Z.to_nat (- upto)) (rev l))).
Proof.
  intros Hle Hneg. unfold slice.
  destruct (Z.ltb_spec from 0) as [_|?]; [|lia].
  destruct (Z.ltb_spec upto 0) as [_|?]; [|lia].
  set (n := List.length l).
  rewrite skipn_rev, firstn_rev, rev_involutive, length_firstn. fold n.
  rewrite firstn_skipn_comm.
  replace (Z.to_nat (Z.max (Z.of_nat n + from) 0))
    with (Nat.min (n - Z.to_nat (- upto)) n - Z.to_nat (upto - from))%nat by lia.
  f_equal.
  destruct (Nat.le_gt_cases (n - Z.to_nat (- upto)) n) as [Hin|Hout]; [|lia].
  rewrite Nat.min_l by assumption.
  replace (_ + _)%nat with (n - Z.to_nat (- upto))%nat by lia.
  reflexivity.
Qed.
End PaginateEdges.

(** X6.  Whatever the page and the page size, zero and negative ones
    included, the items [paginate] returns are a segment of the input:
    consecutive elements, in their order, nothing added.  [total] is the
    length of the input, and when the page size is not negative there are
    at most [pageSize] items. *)
Theorem paginate_items_are_a_segment {T : Type} (items : list T)
  (params : PaginationParams.t) :
  let r := paginate items params in
  (exists before behind, items = before ++ PaginatedResponse.items r ++ behind) /\
  PaginatedResponse.total r = Z.of_nat (List.length items) /\
  (0 <= PaginationParams.pageSize params ->
   Z.of_nat (List.length (PaginatedResponse.items r)) <= PaginationParams.pageSize params).
Proof.
  intros r. subst r. unfold paginate. cbn [PaginatedResponse.items PaginatedResponse.total].
  split; [apply slice_segment|].
  split; [reflexivity|].
  apply slice_length_bound.
Qed.

Lemma paginate_items_are_a_segment_witness :
  0 <= 2 /\
  Z.of_nat (List.length (PaginatedResponse.items
                           (paginate [1; 2; 3]%nat (PaginationParams.mk (-1) 2 None None))))
  <= 2.
Proof.
  split; [lia|].
  destruct (paginate_items_are_a_segment [1; 2; 3]%nat
              (PaginationParams.mk (-1) 2 None None)) as (_ & _ & Hbound).
  apply Hbound. simpl. lia.
Defined.

(** X7.  [paginate] accepts parameters outside their range.  With page
    size 0 every page is empty and [totalPages] is not a number of pages:
    it is infinite, or [NaN] for the empty list.  Page 0 is empty.  A
    negative page counts from the end: page [-m] holds what page [m + 1]
    of the reversed list holds, in the order of the input. *)
Theorem paginate_degenerate_parameters {T : Type} (items : list T)
  (params : PaginationParams.t) :
  let page := PaginationParams.page params in
  let pageSize := PaginationParams.pageSize params in
  let r := paginate items params in
  (pageSize = 0 ->
   PaginatedResponse.items r = [] /\
   PaginatedResponse.totalPages r = match items with [] => NaN | _ => PosInfinity end) /\
  (page = 0 -> 0 <= pageSize -> PaginatedResponse.items r = []) /\
  (page < 0 -> 1 <= pageSize ->
   PaginatedResponse.items r =
   rev (PaginatedResponse.items (paginate (rev items) (at_page (- page + 1) params)))).
Proof.
  intros page pageSize r.
  split; [|split].
  - intros Hzero. subst r. unfold paginate.
    cbn [PaginatedResponse.items PaginatedResponse.totalPages]. fold pageSize page.
    rewrite Hzero. split.
    + pose proof (slice_length_bound items ((page - 1) * 0) 0 ltac:(lia)) as Hlen.
      destruct (slice items ((page - 1) * 0) ((page - 1) * 0 + 0)); [reflexivity|].
      simpl in Hlen. lia.
    + unfold ceil_div. simpl. now destruct items.
  - intros Hpage Hsize. subst r. unfold paginate.
    cbn [PaginatedResponse.items]. fold pageSize page. rewrite Hpage.
    unfold slice.
    destruct (Z.ltb_spec ((0 - 1) * pageSize) 0);
      destruct (Z.ltb_spec ((0 - 1) * pageSize + pageSize) 0); try lia;
      match goal with |- firstn ?n _ = _ => replace n with 0%nat by lia end;
      reflexivity.
  - intros Hpage Hsize.
    rewrite (paginate_items_window (rev items))
      by (cbn [at_page PaginationParams.page PaginationParams.pageSize];
          fold page pageSize; lia).
    unfold spec_page_window.
    cbn [at_page PaginationParams.page PaginationParams.pageSize]. fold page pageSize.
    subst r. unfold paginate. cbn [PaginatedResponse.items]. fold page pageSize.
    replace ((page - 1) * pageSize) with (page * pageSize - pageSize) by ring.
    replace ((- page + 1 - 1) * pageSize) with (- (page * pageSize)) by ring.
    assert (Hprod : page * pageSize <= - pageSize) by nia.
    set (P := page * pageSize) in *.
    rewrite slice_from_end by lia.
    do 3 f_equal; lia.
Qed.

Lemma paginate_degenerate_parameters_witness :
  -1 < 0 /\ 1 <= 2 /\
  PaginatedResponse.items
    (paginate [1; 2; 3; 4; 5]%nat (PaginationParams.mk (-1) 2 None None))
  = [2; 3]%nat.
Proof.
  split; [lia|]. split; [lia|].
  destruct (paginate_degenerate_parameters [1; 2; 3; 4; 5]%nat
              (PaginationParams.mk (-1) 2 None None)) as (_ & _ & Hnegative).
  exact (Hnegative ltac:(simpl; lia) ltac:(simpl; lia)).
Defined.

(** ** The repository: round trips and listings *)

Section RepositoryRoundTrips.
Context {T : Type} `{SharedEntity.t T}.
Implicit Types (store : Backend.Store T) (e : T) (id : string).

Lemma Map_get_unique (store : Backend.Store T) id e :
  NoDup (Map_keys store) -> In (id, e) store -> Map_get id store = Some e.
Proof.
  unfold Map_keys.
  induction store as [|[k v] m IH]; simpl; [contradiction|].
  intros Hnd Hin. inversion Hnd as [|? ? Hnotin Hnd']; subst.
  destruct Hin as [[= -> ->]|Hin].
  - now rewrite String.eqb_refl.
  - destruct (String.eqb_spec id k) as [->|_]; [|now apply IH].
    exfalso. apply Hnotin. apply in_map_iff. now exists (k, e).
Qed.

Lemma Map_delete_last (store : Backend.Store T) id e :
  Map_get id store = None -> Map_delete id (store ++ [(id, e)]) = store.
Proof.
  intros Hnone. unfold Map_delete. rewrite filter_app. simpl.
  rewrite String.eqb_refl. simpl. rewrite app_nil_r.
  apply Map_delete_absent. now apply Map_get_None_keys.
Qed.

(** X8.  Saving an entity whose id is not in the store and then deleting
    that id gives the store back as it was, entry for entry; both calls
    succeed. *)
Theorem save_then_delete_restores store (now : Date) e
  (Hnew : Map_has (SharedEntity.id e) store = false) :
  let saved := Backend.save now e store in
  let deleted := Backend.delete (SharedEntity.id e) (snd saved) in
  Result.ok (fst saved) = true /\
  Result.ok (fst deleted) = true /\
  snd deleted = store.
Proof.
  intros saved deleted. subst deleted saved.
  rewrite save_unfold. cbn [fst snd]. rewrite touchEntity_id.
  unfold Map_set. rewrite Hnew.
  apply Map_has_false in Hnew.
  rewrite delete_unfold.
  assert (Hhas : Map_has (SharedEntity.id e)
                   (store ++ [(SharedEntity.id e, touchEntity now e)]) = true).
  { apply Map_has_get. rewrite Map_get_last, Hnew, String.eqb_refl. discriminate. }
  rewrite Hhas. cbn [fst snd].
  repeat split. now apply Map_delete_last.
Qed.

(** X9.  [save] is an upsert that keeps the insertion order: the keys of
    the store are the former keys, with the id of the entity added at the
    end when it was not there, and they stay distinct; the id of the
    entity maps to the touched entity, and the entries of the other ids
    keep their values. *)
Theorem save_keeps_insertion_order store (now : Date) e :
  let store' := snd (Backend.save now e store) in
  Map_keys store' =
  (if Map_has (SharedEntity.id e) store
   then Map_keys store
   else Map_keys store ++ [SharedEntity.id e]) /\
  Map_get (SharedEntity.id e) store' = Some (touchEntity now e) /\
  (forall id, id <> SharedEntity.id e -> Map_get id store' = Map_get id store) /\
  (keys_unique store -> keys_unique store') /\
  List.length (Map_values store') =
  (List.length (Map_values store)
   + if Map_has (SharedEntity.id e) store then 0 else 1)%nat.
Proof.
  intros store'. subst store'. rewrite save_unfold. cbn [snd].
  rewrite touchEntity_id.
  assert (Hkeys : Map_keys (Map_set (SharedEntity.id e) (touchEntity now e) store) =
                  if Map_has (SharedEntity.id e) store
                  then Map_keys store
                  else Map_keys store ++ [SharedEntity.id e]).
  { unfold Map_set. destruct (Map_has (SharedEntity.id e) store).
    - apply Map_keys_replace.
    - unfold Map_keys. now rewrite map_app. }
  split; [exact Hkeys|].
  split; [now rewrite Map_get_set, String.eqb_refl|].
  split.
  { intros id Hid. rewrite Map_get_set.
    now destruct (String.eqb_spec id (SharedEntity.id e)). }
  split; [apply Map_set_keys_unique|].
  unfold Map_values. rewrite !length_map.
  rewrite <- (length_map fst (Map_set _ _ _)).
  fold (Map_keys (Map_set (SharedEntity.id e) (touchEntity now e) store)).
  rewrite Hkeys. unfold Map_keys.
  destruct (Map_has (SharedEntity.id e) store);
    rewrite ?length_app, !length_map; simpl; lia.
Qed.

(** X10.  In a store whose entries are filed under the ids of their
    entities, with distinct keys (every store reached from the empty one
    is such), [findAll] lists exactly the entities that [findById] finds
    under their id. *)
Theorem findAll_lists_what_findById_finds store
  (Hinv : key_consistent store) (Huniq : keys_unique store) :
  fst (Backend.findAll store) = createSuccess (Some (Map_values store)) /\
  forall e, In e (Map_values store) <->
            fst (Backend.findById (SharedEntity.id e) store) = createSuccess (Some e).
Proof.
  split; [reflexivity|].
  intros e. rewrite findById_unfold. cbn [fst]. split.
  - intros Hin. unfold Map_values in Hin. apply in_map_iff in Hin.
    destruct Hin as ([k v] & Hv & Hin). simpl in Hv. subst v.
    assert (Hk : SharedEntity.id e = k).
    { unfold key_consistent in Hinv. rewrite Forall_forall in Hinv.
      exact (Hinv _ Hin). }
    subst k. now rewrite (Map_get_unique store _ e Huniq Hin).
  - destruct (Map_get (SharedEntity.id e) store) as [found|] eqn:Hget;
      [|discriminate].
    intros Heq. injection Heq as ->.
    apply Map_get_In in Hget. unfold Map_values. apply in_map_iff.
    now exists (SharedEntity.id e, e).
Qed.
End RepositoryRoundTrips.

Lemma save_then_delete_restores_witness :
  Map_has (SharedEntity.id ann) (@Backend.new_store Backend.BackendUser.t) = false /\
  snd (Backend.delete "u1" (snd (Backend.save 2000 ann Backend.new_store)))
  = Backend.new_store.
Proof.
  assert (Hnew : Map_has (SharedEntity.id ann)
                   (@Backend.new_store Backend.BackendUser.t) = false) by reflexivity.
  split; [exact Hnew|].
  exact (proj2 (proj2 (save_then_delete_restores Backend.new_store 2000 ann Hnew))).
Defined.

Lemma save_keeps_insertion_order_witness :
  keys_unique store_ann_bob /\
  keys_unique (snd (Backend.save 3000 ann store_ann_bob)).
Proof.
  assert (Huniq : keys_unique store_ann_bob).
  { unfold keys_unique. simpl. repeat constructor; simpl; intuition discriminate. }
  split; [exact Huniq|].
  destruct (save_keeps_insertion_order store_ann_bob 3000 ann) as (_ & _ & _ & Hkeep & _).
  exact (Hkeep Huniq).
Defined.

Lemma findAll_lists_what_findById_finds_witness :
  key_consistent store_ann_bob /\ keys_unique store_ann_bob /\
  In (touchEntity 2500 bob) (Map_values store_ann_bob).
Proof.
  assert (Hinv : key_consistent store_ann_bob) by (repeat constructor).
  assert (Huniq : keys_unique store_ann_bob).
  { unfold keys_unique. simpl. repeat constructor; simpl; intuition discriminate. }
  split; [exact Hinv|]. split; [exact Huniq|].
  destruct (findAll_lists_what_findById_finds store_ann_bob Hinv Huniq) as (_ & Hiff).
  apply Hiff. reflexivity.
Defined.

(** ** The queries of the user and item repositories *)

Lemma findByEmail_loop_spec (email : string) (users : list Backend.BackendUser.t) :
  (exists before u behind,
      users = before ++ u :: behind /\
      Backend.BackendUser.email u = email /\
      Forall (fun v => Backend.BackendUser.email v <> email) before /\
      Backend.findByEmail_loop email users = createSuccess (Some u)) \/
  (Forall (fun v => Backend.BackendUser.email v <> email) users /\
   Backend.findByEmail_loop email users =
   createError ("User with email " ++ email ++ " not found")%string).
Proof.
  induction users as [|u users IH]; simpl.
  - right. split; [constructor | reflexivity].
  - destruct (String.eqb_spec (Backend.BackendUser.email u) email) as [Heq|Hne].
    + left. exists [], u, users. repeat split; trivial.
    + destruct IH as [(before & found & behind & -> & Hemail & Hbefore & Hloop)|[Hnone Hloop]].
      * left. exists (u :: before), found, behind. repeat split; trivial.
        now constructor.
      * right. split; [now constructor | exact Hloop].
Qed.

(** X11.  [findByEmail] leaves the store as it is.  It succeeds exactly
    when a stored user has the email, and then returns the success that
    carries the first such user in insertion order; otherwise it returns
    the failure [User with email ... not found]. *)
Theorem findByEmail_finds_first_match (store : Backend.UserStore) (email : string) :
  let r := fst (Backend.findByEmail email store) in
  snd (Backend.findByEmail email store) = store /\
  (Result.ok r = true <->
   exists u, In u (Map_values store) /\ Backend.BackendUser.email u = email) /\
  (Result.ok r = true ->
   exists before u behind,
     r = createSuccess (Some u) /\
     Map_values store = before ++ u :: behind /\
     Backend.BackendUser.email u = email /\
     Forall (fun v => Backend.BackendUser.email v <> email) before) /\
  (forall u, Result.value r = Some u ->
     exists before behind,
       Map_values store = before ++ u :: behind /\
       Backend.BackendUser.email u = email /\
       Forall (fun v => Backend.BackendUser.email v <> email) before) /\
  (Result.ok r = false ->
   r = createError ("User with email " ++ email ++ " not found")%string /\
   Forall (fun v => Backend.BackendUser.email v <> email) (Map_values store)).
Proof.
  intros r. subst r.
  unfold Backend.findByEmail, bind, this_get, ret. cbn [fst snd].
  split; [reflexivity|].
  destruct (findByEmail_loop_spec email (Map_values store))
    as [(before & u & behind & Hvalues & Hemail & Hbefore & ->)|[Hnone ->]].
  - split; [|split; [|split]].
    + split; [|reflexivity]. intros _. exists u. split; [|exact Hemail].
      rewrite Hvalues. apply in_or_app. right. now left.
    + intros _. exists before, u, behind. repeat split; trivial.
    + intros u' [= <-]. exists before, behind. repeat split; trivial.
    + discriminate.
  - split; [|split; [|split]].
    + split; [discriminate|]. intros (u & Hin & Hemail).
      rewrite Forall_forall in Hnone. now apply Hnone in Hin.
    + discriminate.
    + discriminate.
    + intros _. split; [reflexivity | exact Hnone].
Qed.

Lemma findByEmail_finds_first_match_witness :
  Result.ok (fst (Backend.findByEmail "nobody@b.com" store_ann_bob)) = false /\
  Forall (fun v => Backend.BackendUser.email v <> "nobody@b.com"%string)
    (Map_values store_ann_bob).
Proof.
  assert (Hfail : Result.ok (fst (Backend.findByEmail "nobody@b.com" store_ann_bob)) = false)
    by reflexivity.
  split; [exact Hfail|].
  destruct (findByEmail_finds_first_match store_ann_bob "nobody@b.com")
    as (_ & _ & _ & _ & Hnone).
  exact (proj2 (Hnone Hfail)).
Defined.

Section SortByViews.
Let by_views (a b : Backend.BackendItem.t) : Z :=
  Backend.BackendItem.views b - Backend.BackendItem.views a.

Lemma sort_insert_permutation {T : Type} (comparefn : T -> T -> Z) (x : T) (l : list T) :
  Permutation (sort_insert comparefn x l) (x :: l).
Proof.
  induction l as [|y l IH]; simpl; [reflexivity|].
  destruct (comparefn y x <? 0); [|reflexivity].
  rewrite IH. apply perm_swap.
Qed.

Lemma sort_permutation {T : Type} (comparefn : T -> T -> Z) (l : list T) :
  Permutation (sort comparefn l) l.
Proof.
  induction l as [|x l IH]; simpl; [reflexivity|].
  rewrite sort_insert_permutation. now constructor.
Qed.

Lemma sort_insert_by_views (x : Backend.BackendItem.t) (l : list Backend.BackendItem.t) :
  StronglySorted more_viewed l ->
  StronglySorted more_viewed (sort_insert by_views x l).
Proof.
  induction 1 as [|y l Hsorted IH Hall]; simpl; [repeat constructor|].
  unfold by_views at 1.
  destruct (Z.ltb_spec (Backend.BackendItem.views x - Backend.BackendItem.views y) 0)
    as [Hlt|Hge].
  - constructor; [exact IH|].
    rewrite (sort_insert_permutation by_views x l).
    constructor; [unfold more_viewed; lia | exact Hall].
  - constructor; [now constructor|].
    constructor; [unfold more_viewed; lia|].
    eapply Forall_impl; [|exact Hall]. unfold more_viewed. intros z Hz. lia.
Qed.

Lemma sort_by_views_sorted (l : list Backend.BackendItem.t) :
  StronglySorted more_viewed (sort by_views l).
Proof.
  induction l as [|x l IH]; simpl; [constructor|].
  now apply sort_insert_by_views.
Qed.

Lemma StronglySorted_split {T : Type} (R : T -> T -> Prop) (l1 l2 : list T) :
  StronglySorted R (l1 ++ l2) ->
  StronglySorted R l1 /\ forall x y, In x l1 -> In y l2 -> R x y.
Proof.
  induction l1 as [|a l1 IH]; simpl; intros Hs.
  - split; [constructor | contradiction].
  - inversion Hs as [|? ? Hs' Hall]; subst.
    destruct (IH Hs') as [Hl1 Hcross].
    rewrite Forall_app in Hall. destruct Hall as [Hall1 Hall2].
    split; [now constructor|].
    intros x y [<-|Hx] Hy.
    + rewrite Forall_forall in Hall2. now apply Hall2.
    + now apply Hcross.
Qed.

(** X12.  [findMostViewed] with a limit that is not negative leaves the
    store as it is and returns the [limit] most viewed items, or all of
    them when there are fewer: the items it returns are in descending
    order of views, together with the items it leaves out they are the
    stored items, each as often as it is stored, and no item left out
    has more views than an item returned. *)
Theorem findMostViewed_returns_the_top (store : Backend.ItemStore) (limit : Z)
  (Hlimit : 0 <= limit) :
  exists top rest,
    Backend.findMostViewed limit store = (createSuccess (Some top), store) /\
    Permutation (Map_values store) (top ++ rest) /\
    List.length top = Nat.min (Z.to_nat limit) (List.length (Map_values store)) /\
    StronglySorted more_viewed top /\
    forall x y, In x top -> In y rest -> more_viewed x y.
Proof.
  set (sorted := sort by_views (Map_values store)).
  exists (firstn (Z.to_nat limit) sorted), (skipn (Z.to_nat limit) sorted).
  assert (Hperm : Permutation sorted (Map_values store)) by apply sort_permutation.
  assert (Hsorted : StronglySorted more_viewed sorted) by apply sort_by_views_sorted.
  rewrite <- (firstn_skipn (Z.to_nat limit) sorted) in Hsorted.
  apply StronglySorted_split in Hsorted. destruct Hsorted as [Htop Hcross].
  split.
  - unfold Backend.findMostViewed, bind, this_get, ret. cbn [fst snd].
    do 3 f_equal. fold by_views. fold sorted.
    pose proof (slice_window sorted 0 limit ltac:(lia) Hlimit) as Hslice.
    rewrite Z.add_0_l in Hslice. rewrite Hslice. reflexivity.
  - split; [now rewrite firstn_skipn|].
    split; [|split; [exact Htop | exact Hcross]].
    rewrite length_firstn. now rewrite (Permutation_length Hperm).
Qed.
End SortByViews.

Lemma findMostViewed_returns_the_top_witness :
  0 <= 2 /\
  exists top,
    Backend.findMostViewed 2 store_items = (createSuccess (Some top), store_items) /\
    List.length top = 2%nat /\
    StronglySorted more_viewed top.
Proof.
  split; [lia|].
  destruct (findMostViewed_returns_the_top store_items 2 ltac:(lia))
    as (top & rest & Hresult & _ & Hlength & Hsorted & _).
  exists top. split; [exact Hresult|]. split; [exact Hlength | exact Hsorted].
Defined.

Lemma Status_string_injective (s1 s2 : Backend.Status) :
  Backend.Status_string s1 = Backend.Status_string s2 -> s1 = s2.
Proof. destruct s1, s2; simpl; intros Heq; congruence || discriminate. Qed.

Lemma filter_Subsequence {A : Type} (p : A -> bool) (l : list A) :
  Subsequence (filter p l) l.
Proof.
  induction l as [|x l IH]; cbn [filter]; [constructor|].
  destruct (p x); now constructor.
Qed.

(** X13.  [findByStatus] returns the stored items of the status, in
    insertion order, and the answers for the three statuses share the
    stored items among them: every stored item is in exactly one of
    them, as often as it is stored. *)
Theorem findByStatus_partitions_the_items (store : Backend.ItemStore) :
  exists drafts publications archive,
    Backend.findByStatus Backend.draft store = (createSuccess (Some drafts), store) /\
    Backend.findByStatus Backend.published store = (createSuccess (Some publications), store) /\
    Backend.findByStatus Backend.archived store = (createSuccess (Some archive), store) /\
    Permutation (Map_values store) (drafts ++ publications ++ archive) /\
    Subsequence drafts (Map_values store) /\
    Subsequence publications (Map_values store) /\
    Subsequence archive (Map_values store) /\
    Forall (fun i => Backend.BackendItem.status i = Backend.draft) drafts /\
    Forall (fun i => Backend.BackendItem.status i = Backend.published) publications /\
    Forall (fun i => Backend.BackendItem.status i = Backend.archived) archive.
Proof.
  unfold Backend.findByStatus, bind, this_get, ret.
  do 3 eexists. split; [reflexivity|]. split; [reflexivity|]. split; [reflexivity|].
  assert (Hall : forall status,
             Forall (fun i => Backend.BackendItem.status i = status)
               (filter (fun i => String.eqb
                                   (Backend.Status_string (Backend.BackendItem.status i))
                                   (Backend.Status_string status))
                  (Map_values store))).
  { intros status. apply Forall_forall. intros i Hin.
    apply filter_In in Hin. destruct Hin as [_ Heq].
    apply String.eqb_eq in Heq. now apply Status_string_injective. }
  split; [|split; [apply filter_Subsequence|
           split; [apply filter_Subsequence|
           split; [apply filter_Subsequence|repeat split; apply Hall]]]].
  clear Hall.
  induction (Map_values store) as [|i items IH]; [reflexivity|].
  cbn [filter]. destruct (Backend.BackendItem.status i); cbn.
  - now constructor.
  - now apply Permutation_cons_app.
  - rewrite app_assoc. apply Permutation_cons_app. now rewrite <- app_assoc.
Qed.

(** X14.  [toItemDto] returns an object whose own properties are [id],
    [createdAt], [updatedAt], [title], [description], [ownerId] and
    [status], none of which is an internal property of [BackendItem]; two
    backend items have the same DTO if and only if they agree on these
    seven properties, so the DTO does not depend on [views],
    [lastViewedAt] or [internalNotes]. *)
Theorem toItemDto_projection (i1 i2 : Backend.BackendItem.t) :
  ownKeys (Backend.toItemDto i1)
  = ["id"; "createdAt"; "updatedAt"; "title"; "description"; "ownerId"; "status"]%string /\
  (forall key, In key item_internal_keys -> ~ In key (ownKeys (Backend.toItemDto i1))) /\
  (Backend.toItemDto i1 = Backend.toItemDto i2 <-> same_item_fields i1 i2).
Proof.
  split; [reflexivity|].
  split.
  { intros key Hkey Hin. simpl in Hkey, Hin.
    repeat (destruct Hkey as [<-|Hkey]; [intuition discriminate|]).
    exact Hkey. }
  unfold Backend.toItemDto, same_item_fields. split.
  - intros Heq. injection Heq as Hid Hc Hu Ht Hd Ho Hs.
    apply Status_string_injective in Hs. tauto.
  - intros (Hid & Hc & Hu & Ht & Hd & Ho & Hs).
    now rewrite Hid, Hc, Hu, Ht, Hd, Ho, Hs.
Qed.

Lemma toItemDto_projection_witness :
  In "views"%string item_internal_keys /\
  ~ In "views"%string (ownKeys (Backend.toItemDto report)).
Proof.
  assert (Hkey : In "views"%string item_internal_keys) by (now left).
  split; [exact Hkey|].
  destruct (toItemDto_projection report report) as (_ & Hnone & _).
  exact (Hnone _ Hkey).
Defined.

(** ** The user service *)

(** X15.  [verifyPassword] accepts a password against the hash of a
    password exactly when the two passwords are the same. *)
Theorem verifyPassword_accepts_the_hashed_password (password hashed : string) :
  Backend.UserService.verifyPassword password
    (Backend.UserService.hashPassword hashed) = true
  <-> password = hashed.
Proof.
  unfold Backend.UserService.verifyPassword, Backend.UserService.hashPassword.
  rewrite String.eqb_eq. simpl. split.
  - intros Heq. injection Heq as Heq. now symmetry.
  - now intros ->.
Qed.

Lemma validateUserDto_ok (email name role : string) :
  role <> EmptyString ->
  ValidationResult.ok
    (validateUserDto (PartialUserDto.mk None None None (Some email) (Some name) (Some role)))
  = ValidationResult.ok (validateEmail email)
    && ValidationResult.ok (validateName name (Some "name"%string)).
Proof.
  intros Hrole. unfold validateUserDto, push_if_missing.
  cbn [PartialUserDto.email PartialUserDto.name PartialUserDto.role or_empty].
  assert (Htruthy : truthy (Some role) = true) by (destruct role; [contradiction | reflexivity]).
  rewrite Htruthy.
  pose proof (validateEmail_one_field email) as He.
  pose proof (validateName_one_field name "name") as Hn.
  field_cases He; field_cases Hn; reflexivity.
Qed.

Lemma Role_string_not_empty (role : Backend.Role) : Backend.Role_string role <> EmptyString.
Proof. destruct role; discriminate. Qed.

Lemma findByEmail_loop_free (email : string) (users : list Backend.BackendUser.t) :
  Result.ok (Backend.findByEmail_loop email users) = false <->
  Forall (fun u => Backend.BackendUser.email u <> email) users.
Proof.
  destruct (findByEmail_loop_spec email users)
    as [(before & u & behind & -> & Hemail & _ & ->)|[Hnone ->]].
  - split; [discriminate|]. intros Hall.
    apply Forall_app in Hall. destruct Hall as [_ Hall].
    inversion Hall; subst. contradiction.
  - split; [trivial | reflexivity].
Qed.

Section UserServiceFacts.
Context {World : Type}.
Variable behaviour :
  FnRef -> Backend.Event Object -> World -> Backend.Reaction World.
Implicit Types (svc : Backend.UserService.t World).

Lemma registerUser_invalid_run svc (generated : string)
  (now_new now_save now_emit : Date) (email name password : string)
  (role : option Backend.Role)
  (Hinvalid : ~ valid_registration email name) :
  exists validation,
    ValidationResult.ok validation = false /\
    Backend.UserService.registerUser behaviour generated now_new now_save now_emit
      email name password role svc
    = (Returned (createError (Backend.validation_failed validation)), svc) /\
    ((ValidationResult.ok (validateEmail email) = false ->
      In "email"%string (error_fields validation)) /\
     (ValidationResult.ok (validateName name (Some "name"%string)) = false ->
      In "name"%string (error_fields validation))).
Proof.
  unfold Backend.UserService.registerUser.
  set (validation := validateUserDto _).
  exists validation.
  assert (Hok : ValidationResult.ok validation = false).
  { subst validation. rewrite validateUserDto_ok by apply Role_string_not_empty.
    unfold valid_registration in Hinvalid.
    destruct (ValidationResult.ok (validateEmail email));
      destruct (ValidationResult.ok (validateName name (Some "name"%string)));
      simpl; tauto. }
  split; [exact Hok|].
  split; [now rewrite Hok|].
  subst validation. unfold validateUserDto, push_if_missing.
  cbn [PartialUserDto.email PartialUserDto.name PartialUserDto.role or_empty].
  pose proof (validateEmail_one_field email) as He.
  pose proof (validateName_one_field name "name") as Hn.
  destruct (truthy _);
    field_cases He; field_cases Hn; split; intros Hfail;
      try discriminate Hfail; cbv; tauto.
Qed.


Lemma registerUser_invalid_message svc (generated : string)
  (now_new now_save now_emit : Date) (email name password : string)
  (role : option Backend.Role)
  (Hinvalid : ~ valid_registration email name) :
  Backend.UserService.registerUser behaviour generated now_new now_save now_emit
    email name password role svc
  = (Returned
       (createError
          ("Validation failed: "
           ++ String.concat ", "
                (error_messages (validateEmail email)
                 ++ error_messages (validateName name (Some "name"))))%string),
     svc).
Proof.
  unfold Backend.UserService.registerUser, validateUserDto, push_if_missing.
  cbn [PartialUserDto.email PartialUserDto.name PartialUserDto.role or_empty].
  cbv zeta.
  assert (Htruthy : forall r, truthy (Some (Backend.Role_string r)) = true)
    by (intros []; reflexivity).
  rewrite Htruthy.
  unfold valid_registration in Hinvalid.
  destruct (validateEmail_one_field email) as [He|(m1 & c1 & He)];
    destruct (validateName_one_field name "name") as [Hn|(m2 & c2 & Hn)];
    rewrite He, Hn in *; try reflexivity.
  exfalso. apply Hinvalid. split; reflexivity.
Qed.

(** X16.  [registerUser] validates before anything else: when the email
    or the name does not pass its validator, it returns the failure whose
    error is [Validation failed: ] followed by the messages of
    [validateEmail] on the email and of [validateName] on the name, in
    this order, separated by a comma and a space, and neither the
    repository nor the subscribers have been touched. *)
Theorem registerUser_validates_first svc (generated : string)
  (now_new now_save now_emit : Date) (email name password : string)
  (role : option Backend.Role)
  (Hinvalid : ~ valid_registration email name) :
  let result :=
    Backend.UserService.registerUser behaviour generated now_new now_save now_emit
      email name password role svc in
  let messages :=
    error_messages (validateEmail email)
    ++ error_messages (validateName name (Some "name"%string)) in
  snd result = svc /\
  fst result
  = Returned (createError ("Validation failed: " ++ String.concat ", " messages)%string) /\
  messages <> [] /\
  (List.length messages <= 2)%nat.
Proof.
  intros result messages. subst result.
  rewrite registerUser_invalid_message by exact Hinvalid.
  split; [reflexivity|]. split; [reflexivity|].
  subst messages. unfold valid_registration in Hinvalid.
  destruct (validateEmail_one_field email) as [He|(m1 & c1 & He)];
    destruct (validateName_one_field name "name") as [Hn|(m2 & c2 & Hn)];
    rewrite He, Hn in *; cbn; try (split; [discriminate | lia]).
  exfalso. apply Hinvalid. split; reflexivity.
Qed.

Lemma registerUser_taken_run svc (generated : string)
  (now_new now_save now_emit : Date) (email name password : string)
  (role : option Backend.Role)
  (Hvalid : valid_registration email name)
  (Htaken : ~ email_free email (Backend.UserService.repository svc)) :
  Backend.UserService.registerUser behaviour generated now_new now_save now_emit
    email name password role svc
  = (Returned (createError "Email already in use"%string), svc).
Proof.
  unfold Backend.UserService.registerUser.
  rewrite validateUserDto_ok by apply Role_string_not_empty.
  destruct Hvalid as [-> ->]. cbn [andb negb].
  unfold act_bind, Backend.UserService.on_repository, Backend.findByEmail,
    bind, this_get, ret.
  destruct (Result.ok (Backend.findByEmail_loop email
                         (Map_values (Backend.UserService.repository svc)))) eqn:Hfound.
  - unfold act_ret. now destruct svc.
  - apply findByEmail_loop_free in Hfound. contradiction.
Qed.

(** X17.  [registerUser] keeps emails unique: when a stored user already
    has the email, it returns the failure [Email already in use], stores
    nothing and publishes nothing. *)
Theorem registerUser_rejects_a_taken_email svc (generated : string)
  (now_new now_save now_emit : Date) (email name password : string)
  (role : option Backend.Role)
  (Hvalid : valid_registration email name)
  (Htaken : ~ email_free email (Backend.UserService.repository svc)) :
  let result :=
    Backend.UserService.registerUser behaviour generated now_new now_save now_emit
      email name password role svc in
  fst result = Returned (createError "Email already in use"%string) /\
  Backend.UserService.repository (snd result) = Backend.UserService.repository svc /\
  Backend.UserService.notifier (snd result) = Backend.UserService.notifier svc.
Proof.
  intros result. subst result.
  rewrite (registerUser_taken_run svc generated now_new now_save now_emit
             email name password role Hvalid Htaken).
  repeat split.
Qed.

End UserServiceFacts.

Lemma registerUser_validates_first_witness :
  ~ valid_registration "not-an-address" "A" /\
  Backend.UserService.registerUser all_return "g1" 10 11 12
    "not-an-address" "A" "secret" None new_user_service
  = (Returned
       (createError
          "Validation failed: Invalid email format, name must be at least 2 characters"%string),
     new_user_service).
Proof.
  assert (Hinvalid : ~ valid_registration "not-an-address" "A").
  { intros [Hemail _]. discriminate. }
  split; [exact Hinvalid|].
  destruct (registerUser_validates_first all_return new_user_service "g1" 10 11 12
              "not-an-address" "A" "secret" None Hinvalid)
    as (Hsame & Hresult & _).
  rewrite (surjective_pairing (Backend.UserService.registerUser _ _ _ _ _ _ _ _ _ _)).
  rewrite Hresult, Hsame. reflexivity.
Defined.

Lemma registerUser_rejects_a_taken_email_witness :
  valid_registration "a@b.com" "Bob" /\
  ~ email_free "a@b.com" (Backend.UserService.repository service_with_ann) /\
  fst (Backend.UserService.registerUser all_return "g2" 20 21 22
         "a@b.com" "Bob" "hunter2" None service_with_ann)
  = Returned (createError "Email already in use"%string).
Proof.
  assert (Hvalid : valid_registration "a@b.com" "Bob") by (split; reflexivity).
  assert (Htaken : ~ email_free "a@b.com" (Backend.UserService.repository service_with_ann)).
  { intros Hfree. inversion Hfree as [|u us Hu _]; subst. now apply Hu. }
  split; [exact Hvalid|]. split; [exact Htaken|].
  exact (proj1 (registerUser_rejects_a_taken_email all_return service_with_ann
                  "g2" 20 21 22 "a@b.com" "Bob" "hunter2" None Hvalid Htaken)).
Defined.

Lemma findByEmail_loop_skip (email : string) (before rest : list Backend.BackendUser.t) :
  Forall (fun u => Backend.BackendUser.email u <> email) before ->
  Backend.findByEmail_loop email (before ++ rest) = Backend.findByEmail_loop email rest.
Proof.
  induction 1 as [|u before Hu _ IH]; simpl; [reflexivity|].
  destruct (String.eqb_spec (Backend.BackendUser.email u) email); [contradiction | exact IH].
Qed.

(** After [set] of a user with an email that no stored user had, the
    first user with the email is that user. *)
Lemma findByEmail_loop_set (email id : string) (v : Backend.BackendUser.t)
  (store : Backend.UserStore) :
  email_free email store -> Backend.BackendUser.email v = email ->
  Backend.findByEmail_loop email (Map_values (Map_set id v store))
  = createSuccess (Some v).
Proof.
  unfold email_free, Map_set, Map_has. intros Hfree Hv.
  destruct (Map_get id store) as [old|] eqn:Hget.
  - assert (Hhas : Map_get id store <> None) by congruence.
    clear Hget. revert Hhas Hfree.
    induction store as [|[k0 v0] m IH]; simpl; [congruence|].
    intros Hhas Hfree. inversion Hfree as [|? ? Hv0 Hm]; subst.
    destruct (String.eqb_spec id k0) as [->|Hne]; simpl.
    + now rewrite String.eqb_refl.
    + destruct (String.eqb_spec (Backend.BackendUser.email v0)
                  (Backend.BackendUser.email v)); [contradiction|].
      now apply IH.
  - unfold Map_values. rewrite map_app.
    rewrite findByEmail_loop_skip by exact Hfree.
    simpl. now rewrite Hv, String.eqb_refl.
Qed.

Section UserServiceRuns.
Context {World : Type}.
Variable behaviour :
  FnRef -> Backend.Event Object -> World -> Backend.Reaction World.
Implicit Types (svc : Backend.UserService.t World).

(** The successful path of [registerUser]: a save and a publication. *)
Lemma registerUser_run svc (generated : string) (now_new now_save now_emit : Date)
  (email name password : string) (role : option Backend.Role) :
  valid_registration email name ->
  email_free email (Backend.UserService.repository svc) ->
  let stored :=
    touchEntity now_save
      (Backend.createBackendUser generated now_new email name
         (Backend.UserService.hashPassword password)
         (Some (match role with Some r => r | None => Backend.user end))) in
  let published :=
    Backend.emitEvent behaviour now_emit created (Backend.toUserDto stored)
      (Backend.UserService.notifier svc) in
  Backend.UserService.registerUser behaviour generated now_new now_save now_emit
    email name password role svc
  = (match snd published with
     | Returned _ => Returned (createSuccess (Some (Backend.toUserDto stored)))
     | Thrown message => Thrown message
     end,
     Backend.UserService.mk
       (Map_set generated stored (Backend.UserService.repository svc))
       (fst published)).
Proof.
  intros [Hemail Hname] Hfree stored published.
  unfold Backend.UserService.registerUser.
  rewrite validateUserDto_ok by apply Role_string_not_empty.
  rewrite Hemail, Hname. cbn [andb negb].
  unfold act_bind at 1.
  unfold Backend.UserService.on_repository at 1.
  unfold Backend.findByEmail, bind, this_get, ret.
  apply findByEmail_loop_free in Hfree. rewrite Hfree.
  unfold act_bind at 1. unfold Backend.UserService.on_repository.
  rewrite save_unfold. fold stored.
  cbn [Backend.UserService.repository Backend.UserService.notifier
       Result.ok createSuccess negb].
  unfold act_bind at 1. unfold act_outcome.
  cbn [unwrapResult Result.ok Result.value createSuccess negb].
  unfold act_bind, Backend.UserService.emit, act_ret.
  cbn [Backend.UserService.repository Backend.UserService.notifier].
  fold published.
  destruct published as [n [[]|message]]; reflexivity.
Qed.

(** The two paths of [authenticateUser]. *)
Lemma authenticateUser_run svc (now_login now_touch now_save : Date)
  (email password : string) :
  Backend.UserService.authenticateUser now_login now_touch now_save email password svc
  = match Result.value
            (Backend.findByEmail_loop email
               (Map_values (Backend.UserService.repository svc))) with
    | Some u =>
        if Backend.UserService.verifyPassword password (Backend.BackendUser.passwordHash u)
        then
          (Returned (createSuccess
                       (Some (Backend.toUserDto
                                (Backend.recordUserLogin now_login now_touch u)))),
           Backend.UserService.mk
             (snd (Backend.save now_save (Backend.recordUserLogin now_login now_touch u)
                     (Backend.UserService.repository svc)))
             (Backend.UserService.notifier svc))
        else (Returned (createError "Invalid credentials"%string), svc)
    | None => (Returned (createError "Invalid credentials"%string), svc)
    end.
Proof.
  unfold Backend.UserService.authenticateUser.
  unfold act_bind at 1. unfold Backend.UserService.on_repository at 1.
  unfold Backend.findByEmail, bind, this_get, ret.
  destruct (findByEmail_loop_spec email (Map_values (Backend.UserService.repository svc)))
    as [(before & u & behind & _ & _ & _ & ->)|[_ ->]].
  - cbn [Result.ok Result.value createSuccess negb].
    unfold act_bind at 1. unfold act_outcome.
    cbn [unwrapResult Result.ok Result.value createSuccess negb].
    destruct svc as [repository notifier].
    cbn [Backend.UserService.repository Backend.UserService.notifier].
    destruct (Backend.UserService.verifyPassword password
                (Backend.BackendUser.passwordHash u)); reflexivity.
  - cbn. now destruct svc.
Qed.
End UserServiceRuns.

Lemma verifyPassword_hashPassword (password hashed : string) :
  Backend.UserService.verifyPassword password
    (Backend.UserService.hashPassword hashed) = true
  <-> password = hashed.
Proof.
  unfold Backend.UserService.verifyPassword, Backend.UserService.hashPassword.
  rewrite String.eqb_eq. simpl. split; [|now intros ->].
  intros Heq. injection Heq as Heq. now symmetry.
Qed.

(** Counting by [+ 1] is exact up to 2^53, where it stops. *)
Lemma number_add_exact (a b : Z) :
  Z.abs (a + b) <= 2 ^ 53 -> number_add a b = a + b.
Proof.
  intros Hbound. unfold number_add, round_to_number. cbv zeta.
  destruct (Z.ltb_spec (Z.abs (a + b)) (2 ^ 53)) as [_|Hge]; [reflexivity|].
  assert (Heq : Z.abs (a + b) = 2 ^ 53) by lia.
  destruct (Z.abs_spec (a + b)) as [[_ Habs]|[_ Habs]].
  - assert (Hsum : a + b = 2 ^ 53) by lia. rewrite Hsum. reflexivity.
  - assert (Hsum : a + b = - 2 ^ 53) by lia. rewrite Hsum. reflexivity.
Qed.

Lemma number_add_one (n : Z) : 0 <= n < 2 ^ 53 -> number_add n 1 = n + 1.
Proof. intros Hn. apply number_add_exact. lia. Qed.

Lemma number_add_one_stops : number_add (2 ^ 53) 1 = 2 ^ 53.
Proof. reflexivity. Qed.

Section UserServiceContract.
Context {World : Type}.
Variable behaviour :
  FnRef -> Backend.Event Object -> World -> Backend.Reaction World.
Implicit Types (svc : Backend.UserService.t World).

(** X18.  When the input is valid and no stored user has the email,
    [registerUser] stores the new user under the generated id, touched at
    the time of the save, with the hash of the password, no login and the
    creation time, so that [findByEmail] finds it; then it publishes a
    [created] event that carries the DTO of the stored user, which has no
    [passwordHash].  It returns the success with that DTO when the
    publication returns, and throws what a subscriber throws otherwise:
    the user is stored in both cases. *)
Theorem registerUser_stores_then_publishes svc (generated : string)
  (now_new now_save now_emit : Date) (email name password : string)
  (role : option Backend.Role)
  (Hvalid : valid_registration email name)
  (Hfree : email_free email (Backend.UserService.repository svc)) :
  let stored :=
    touchEntity now_save
      (Backend.createBackendUser generated now_new email name
         (Backend.UserService.hashPassword password)
         (Some (match role with Some r => r | None => Backend.user end))) in
  let dto := Backend.toUserDto stored in
  let published :=
    Backend.emitEvent behaviour now_emit created dto (Backend.UserService.notifier svc) in
  let result :=
    Backend.UserService.registerUser behaviour generated now_new now_save now_emit
      email name password role svc in
  Backend.UserService.repository (snd result)
  = Map_set generated stored (Backend.UserService.repository svc) /\
  fst (Backend.findByEmail email (Backend.UserService.repository (snd result)))
  = createSuccess (Some stored) /\
  Backend.UserService.notifier (snd result) = fst published /\
  (snd published = Returned tt -> fst result = Returned (createSuccess (Some dto))) /\
  (forall message, snd published = Thrown message -> fst result = Thrown message) /\
  Backend.BackendUser.passwordHash stored = Backend.UserService.hashPassword password /\
  Backend.BackendUser.loginCount stored = 0 /\
  Backend.BackendUser.createdAt stored = now_new /\
  Backend.BackendUser.updatedAt stored = now_save /\
  ~ In "passwordHash"%string (ownKeys dto).
Proof.
  intros stored dto published result.
  subst result. rewrite (registerUser_run behaviour) by assumption.
  fold stored. fold dto. fold published.
  cbn [fst snd Backend.UserService.repository Backend.UserService.notifier].
  split; [reflexivity|].
  split.
  { unfold Backend.findByEmail, bind, this_get, ret. cbn [fst].
    now apply findByEmail_loop_set. }
  split; [reflexivity|].
  split; [now intros ->|].
  split; [now intros message ->|].
  repeat (split; [reflexivity|]).
  simpl. intuition discriminate.
Qed.

(** X19.  [authenticateUser] looks at the first stored user with the
    email.  When there is none, and when the password does not verify
    against the hash of that user, it returns the same failure,
    [Invalid credentials], and the service is as before.  When the
    password verifies, it stores the user with the login time, a new
    [updatedAt] and the login count incremented by the addition of
    numbers: one more login for a count from 0 to below 2^53, the same
    count at 2^53; it keeps the entries of the other ids, publishes
    nothing, and returns the DTO of the user as [recordUserLogin] made
    it. *)
Theorem authenticateUser_checks_the_first_match svc
  (now_login now_touch now_save : Date) (email password : string) :
  let found :=
    Result.value (fst (Backend.findByEmail email (Backend.UserService.repository svc))) in
  let result :=
    Backend.UserService.authenticateUser now_login now_touch now_save email password svc in
  (found = None ->
   result = (Returned (createError "Invalid credentials"%string), svc)) /\
  (forall u, found = Some u ->
     Backend.UserService.verifyPassword password (Backend.BackendUser.passwordHash u) = false ->
     result = (Returned (createError "Invalid credentials"%string), svc)) /\
  (forall u, found = Some u ->
     Backend.UserService.verifyPassword password (Backend.BackendUser.passwordHash u) = true ->
     let logged := Backend.recordUserLogin now_login now_touch u in
     fst result = Returned (createSuccess (Some (Backend.toUserDto logged))) /\
     Backend.UserService.notifier (snd result) = Backend.UserService.notifier svc /\
     Map_get (Backend.BackendUser.id u) (Backend.UserService.repository (snd result))
     = Some (touchEntity now_save logged) /\
     (forall other, other <> Backend.BackendUser.id u ->
        Map_get other (Backend.UserService.repository (snd result))
        = Map_get other (Backend.UserService.repository svc)) /\
     Backend.BackendUser.loginCount (touchEntity now_save logged)
     = number_add (Backend.BackendUser.loginCount u) 1 /\
     (0 <= Backend.BackendUser.loginCount u < 2 ^ 53 ->
      Backend.BackendUser.loginCount (touchEntity now_save logged)
      = Backend.BackendUser.loginCount u + 1) /\
     (Backend.BackendUser.loginCount u = 2 ^ 53 ->
      Backend.BackendUser.loginCount (touchEntity now_save logged) = 2 ^ 53) /\
     Backend.BackendUser.lastLoginAt (touchEntity now_save logged) = Some now_login /\
     Backend.BackendUser.updatedAt (touchEntity now_save logged) = now_save).
Proof.
  intros found result. subst result found.
  rewrite authenticateUser_run.
  unfold Backend.findByEmail, bind, this_get, ret. cbn [fst].
  split; [now intros ->|].
  split.
  - intros u -> Hwrong. now rewrite Hwrong.
  - intros u -> Hright. rewrite Hright. cbn [fst snd].
    cbn [Backend.UserService.repository Backend.UserService.notifier].
    split; [reflexivity|]. split; [reflexivity|].
    split; [rewrite save_unfold; cbn [snd]; rewrite Map_get_set;
            now rewrite String.eqb_refl|].
    split.
    { intros other Hother. rewrite save_unfold. cbn [snd]. rewrite Map_get_set.
      cbn. now destruct (String.eqb_spec other (Backend.BackendUser.id u)). }
    split; [reflexivity|].
    split; [intros Hcount; now apply number_add_one|].
    split; [intros Hcount; cbn; rewrite Hcount; apply number_add_one_stops|].
    split; reflexivity.
Qed.

(** X20.  After a registration that stored the user, [authenticateUser]
    with the email of the registration succeeds with the password of the
    registration and with no other password. *)
Theorem register_then_authenticate svc (generated : string)
  (now_new now_save now_emit : Date) (email name password : string)
  (role : option Backend.Role)
  (now_login now_touch now_again : Date) (attempt : string)
  (Hvalid : valid_registration email name)
  (Hfree : email_free email (Backend.UserService.repository svc)) :
  let registered :=
    snd (Backend.UserService.registerUser behaviour generated now_new now_save now_emit
           email name password role svc) in
  let answer :=
    fst (Backend.UserService.authenticateUser now_login now_touch now_again
           email attempt registered) in
  (attempt = password -> exists dto, answer = Returned (createSuccess (Some dto))) /\
  (attempt <> password -> answer = Returned (createError "Invalid credentials"%string)).
Proof.
  intros registered answer. subst answer registered.
  rewrite (registerUser_run behaviour) by assumption. cbn [snd].
  rewrite authenticateUser_run. cbn [Backend.UserService.repository].
  rewrite findByEmail_loop_set by (assumption || reflexivity).
  cbn [Result.value createSuccess].
  change (Backend.BackendUser.passwordHash (touchEntity now_save _))
    with (Backend.UserService.hashPassword password).
  destruct (Backend.UserService.verifyPassword attempt
              (Backend.UserService.hashPassword password)) eqn:Hverify.
  - apply verifyPassword_hashPassword in Hverify.
    split; [intros _; eexists; reflexivity | contradiction].
  - split; [|reflexivity].
    intros Heq. apply verifyPassword_hashPassword in Heq. congruence.
Qed.
End UserServiceContract.

Lemma registerUser_stores_then_publishes_witness :
  valid_registration "a@b.com" "Ann" /\
  email_free "a@b.com" (Backend.UserService.repository new_user_service) /\
  Map_keys (Backend.UserService.repository service_with_ann) = ["g1"%string].
Proof.
  assert (Hvalid : valid_registration "a@b.com" "Ann") by (split; reflexivity).
  assert (Hfree : email_free "a@b.com" (Backend.UserService.repository new_user_service))
    by constructor.
  split; [exact Hvalid|]. split; [exact Hfree|].
  destruct (registerUser_stores_then_publishes all_return new_user_service
              "g1" 10 11 12 "a@b.com" "Ann" "secret" None Hvalid Hfree)
    as (Hrepository & _).
  unfold service_with_ann. rewrite Hrepository. reflexivity.
Defined.

Lemma authenticateUser_checks_the_first_match_witness :
  Result.value (fst (Backend.findByEmail "nobody@b.com"
                       (Backend.UserService.repository service_with_ann))) = None /\
  Backend.UserService.authenticateUser 30 31 32 "nobody@b.com" "secret" service_with_ann
  = (Returned (createError "Invalid credentials"%string), service_with_ann).
Proof.
  assert (Hnone : Result.value
                    (fst (Backend.findByEmail "nobody@b.com"
                            (Backend.UserService.repository service_with_ann))) = None)
    by reflexivity.
  split; [exact Hnone|].
  destruct (authenticateUser_checks_the_first_match service_with_ann 30 31 32
              "nobody@b.com" "secret") as (Hunknown & _).
  exact (Hunknown Hnone).
Defined.

Lemma register_then_authenticate_witness :
  valid_registration "a@b.com" "Ann" /\
  email_free "a@b.com" (Backend.UserService.repository new_user_service) /\
  "hunter2"%string <> "secret"%string /\
  fst (Backend.UserService.authenticateUser 30 31 32 "a@b.com" "hunter2" service_with_ann)
  = Returned (createError "Invalid credentials"%string).
Proof.
  assert (Hvalid : valid_registration "a@b.com" "Ann") by (split; reflexivity).
  assert (Hfree : email_free "a@b.com" (Backend.UserService.repository new_user_service))
    by constructor.
  assert (Hother : "hunter2"%string <> "secret"%string) by discriminate.
  split; [exact Hvalid|]. split; [exact Hfree|]. split; [exact Hother|].
  destruct (register_then_authenticate all_return new_user_service
              "g1" 10 11 12 "a@b.com" "Ann" "secret" None 30 31 32 "hunter2"
              Hvalid Hfree) as (_ & Hwrong).
  exact (Hwrong Hother).
Defined.

Section UserServiceOtherRuns.
Context {World : Type}.
Variable behaviour :
  FnRef -> Backend.Event Object -> World -> Backend.Reaction World.
Implicit Types (svc : Backend.UserService.t World).

Lemma getUserById_run svc (id : string) :
  Backend.UserService.getUserById id svc
  = (Returned
       match Map_get id (Backend.UserService.repository svc) with
       | None => createError (Backend.not_found id)
       | Some u => createSuccess (Some (Backend.toUserDto u))
       end,
     svc).
Proof.
  unfold Backend.UserService.getUserById.
  unfold act_bind at 1. unfold Backend.UserService.on_repository.
  rewrite findById_unfold. destruct svc as [repository notifier].
  cbn [Backend.UserService.repository Backend.UserService.notifier].
  now destruct (Map_get id repository).
Qed.

Lemma listUsers_run svc (params : PaginationParams.t) :
  Backend.UserService.listUsers params svc
  = (Returned (createSuccess
                 (Some (Backend.map_page Backend.toUserDto
                          (paginate (Map_values (Backend.UserService.repository svc))
                             params)))),
     svc).
Proof.
  unfold Backend.UserService.listUsers. now destruct svc.
Qed.

Lemma updateUser_run svc (now_save now_emit : Date) (id : string)
  (updates : Backend.UserService.Updates) :
  Backend.UserService.updateUser behaviour now_save now_emit id updates svc
  = match Map_get id (Backend.UserService.repository svc) with
    | None => (Returned (createError (Backend.not_found id)), svc)
    | Some existing =>
        let stored :=
          touchEntity now_save (Backend.UserService.apply_updates existing updates) in
        let published :=
          Backend.emitEvent behaviour now_emit updated (Backend.toUserDto stored)
            (Backend.UserService.notifier svc) in
        (match snd published with
         | Returned _ => Returned (createSuccess (Some (Backend.toUserDto stored)))
         | Thrown message => Thrown message
         end,
         Backend.UserService.mk
           (Map_set (Backend.BackendUser.id existing) stored
              (Backend.UserService.repository svc))
           (fst published))
    end.
Proof.
  unfold Backend.UserService.updateUser.
  unfold act_bind at 1. unfold Backend.UserService.on_repository at 1.
  rewrite findById_unfold.
  destruct svc as [repository notifier].
  cbn [Backend.UserService.repository Backend.UserService.notifier].
  destruct (Map_get id repository) as [existing|]; [|reflexivity].
  cbn [Result.ok createSuccess negb].
  unfold act_bind at 1. unfold act_outcome.
  cbn [unwrapResult Result.ok Result.value createSuccess negb].
  unfold act_bind at 1. unfold Backend.UserService.on_repository.
  rewrite save_unfold.
  cbn [Backend.UserService.repository Backend.UserService.notifier
       Result.ok createSuccess negb].
  unfold act_bind at 1. unfold act_outcome.
  cbn [unwrapResult Result.ok Result.value createSuccess negb].
  unfold act_bind, Backend.UserService.emit, act_ret.
  cbn [Backend.UserService.repository Backend.UserService.notifier].
  cbv zeta.
  destruct (Backend.emitEvent behaviour now_emit updated _ notifier) as [n [[]|message]];
    reflexivity.
Qed.

Lemma deleteUser_run svc (now_emit : Date) (id : string) :
  Backend.UserService.deleteUser behaviour now_emit id svc
  = match Map_get id (Backend.UserService.repository svc) with
    | None => (Returned (createError (Backend.not_found id)), svc)
    | Some existing =>
        let published :=
          Backend.emitEvent behaviour now_emit deleted (Backend.toUserDto existing)
            (Backend.UserService.notifier svc) in
        (match snd published with
         | Returned _ => Returned (createSuccess None)
         | Thrown message => Thrown message
         end,
         Backend.UserService.mk
           (Map_delete id (Backend.UserService.repository svc))
           (fst published))
    end.
Proof.
  unfold Backend.UserService.deleteUser.
  unfold act_bind at 1. unfold Backend.UserService.on_repository at 1.
  rewrite findById_unfold.
  destruct svc as [repository notifier].
  cbn [Backend.UserService.repository Backend.UserService.notifier].
  destruct (Map_get id repository) as [existing|] eqn:Hget; [|reflexivity].
  cbn [Result.ok createSuccess negb].
  unfold act_bind at 1. unfold act_outcome.
  cbn [unwrapResult Result.ok Result.value createSuccess negb].
  unfold act_bind at 1. unfold Backend.UserService.on_repository.
  rewrite delete_unfold.
  cbn [Backend.UserService.repository Backend.UserService.notifier].
  assert (Hhas : Map_has id repository = true).
  { apply Map_has_get. congruence. }
  rewrite Hhas. cbn [Result.ok createSuccess].
  unfold act_bind, Backend.UserService.emit, act_ret.
  cbn [Backend.UserService.repository Backend.UserService.notifier].
  cbv zeta.
  destruct (Backend.emitEvent behaviour now_emit deleted _ notifier) as [n [[]|message]];
    reflexivity.
Qed.
End UserServiceOtherRuns.

(** ** The user service keeps emails unique *)

Lemma well_kept_set (store : Backend.UserStore) (v : Backend.BackendUser.t) :
  well_kept store ->
  (forall id u, Map_get id store = Some u ->
                Backend.BackendUser.email u = Backend.BackendUser.email v ->
                id = Backend.BackendUser.id v) ->
  well_kept (Map_set (Backend.BackendUser.id v) v store).
Proof.
  intros (Hkeys & Huniq & Hemails) Hothers.
  split; [|split].
  - now apply key_consistent_set.
  - now apply Map_set_keys_unique.
  - intros id1 id2 u1 u2. rewrite !Map_get_set.
    destruct (String.eqb_spec id1 (Backend.BackendUser.id v)) as [->|H1];
      destruct (String.eqb_spec id2 (Backend.BackendUser.id v)) as [->|H2].
    + reflexivity.
    + intros [= <-] Hu2 Heq. symmetry. now apply (Hothers id2 u2).
    + intros Hu1 [= <-] Heq. now apply (Hothers id1 u1).
    + apply Hemails.
Qed.

Lemma well_kept_delete (store : Backend.UserStore) (id : string) :
  well_kept store -> well_kept (Map_delete id store).
Proof.
  intros (Hkeys & Huniq & Hemails).
  split; [|split].
  - now apply key_consistent_delete.
  - now apply Map_delete_keys_unique.
  - intros id1 id2 u1 u2. rewrite !Map_get_delete.
    destruct (String.eqb id1 id); [discriminate|].
    destruct (String.eqb id2 id); [discriminate|].
    apply Hemails.
Qed.

Lemma well_kept_member (store : Backend.UserStore) (u : Backend.BackendUser.t) :
  well_kept store -> In u (Map_values store) ->
  Map_get (Backend.BackendUser.id u) store = Some u.
Proof.
  intros (Hkeys & Huniq & _) Hin.
  unfold Map_values in Hin. apply in_map_iff in Hin.
  destruct Hin as ([k v] & Hv & Hin). simpl in Hv. subst v.
  assert (Hk : Backend.BackendUser.id u = k).
  { unfold key_consistent in Hkeys. rewrite Forall_forall in Hkeys.
    exact (Hkeys _ Hin). }
  subst k. now apply Map_get_unique.
Qed.

Section UserServiceInvariant.
Context {World : Type}.
Variable behaviour :
  FnRef -> Backend.Event Object -> World -> Backend.Reaction World.
Implicit Types (svc : Backend.UserService.t World).

Lemma user_service_after_well_kept (c : UserServiceCall) svc :
  well_kept (Backend.UserService.repository svc) ->
  well_kept (Backend.UserService.repository (user_service_after behaviour c svc)).
Proof.
  intros Hkept.
  destruct c as [generated now_new now_save now_emit email name password role
                |now_login now_touch now_save email password
                |id|params|now_save now_emit id updates|now_emit id|emitter];
    cbn [user_service_after].
  - (* registerUser *)
    destruct (ValidationResult.ok (validateEmail email)
              && ValidationResult.ok (validateName name (Some "name"%string))) eqn:Hvalid.
    + apply andb_true_iff in Hvalid.
      destruct (findByEmail_loop_spec email
                  (Map_values (Backend.UserService.repository svc)))
        as [(before & u & behind & Hvalues & Hemail & _ & _)|[Hfree _]].
      * rewrite registerUser_taken_run; [exact Hkept | exact Hvalid |].
        intros Hfree. unfold email_free in Hfree. rewrite Hvalues in Hfree.
        apply Forall_app in Hfree. destruct Hfree as [_ Hfree].
        inversion Hfree; subst. contradiction.
      * rewrite (registerUser_run behaviour) by assumption.
        cbn [snd Backend.UserService.repository].
        set (stored := touchEntity now_save _).
        change (well_kept (Map_set (Backend.BackendUser.id stored) stored
                             (Backend.UserService.repository svc))).
        apply well_kept_set; [exact Hkept|].
        intros id u Hget Heq. exfalso.
        apply Map_get_In in Hget.
        unfold email_free in Hfree. rewrite Forall_forall in Hfree.
        apply (Hfree u); [|exact Heq].
        unfold Map_values. apply in_map_iff. now exists (id, u).
    + destruct (registerUser_invalid_run behaviour svc generated
                  now_new now_save now_emit email name password role)
        as (validation & _ & -> & _); [|exact Hkept].
      unfold valid_registration. intros [He Hn]. rewrite He, Hn in Hvalid. discriminate.
  - (* authenticateUser *)
    rewrite authenticateUser_run.
    destruct (findByEmail_loop_spec email
                (Map_values (Backend.UserService.repository svc)))
      as [(before & u & behind & Hvalues & Hemail & _ & ->)|[_ ->]];
      [|exact Hkept].
    cbn [Result.value createSuccess].
    destruct (Backend.UserService.verifyPassword password
                (Backend.BackendUser.passwordHash u)); [|exact Hkept].
    cbn [snd Backend.UserService.repository]. rewrite save_unfold. cbn [snd].
    assert (Hmember : Map_get (Backend.BackendUser.id u)
                        (Backend.UserService.repository svc) = Some u).
    { apply well_kept_member; [exact Hkept|].
      rewrite Hvalues. apply in_or_app. right. now left. }
    set (stored := touchEntity now_save _).
    change (well_kept (Map_set (Backend.BackendUser.id stored) stored
                         (Backend.UserService.repository svc))).
    apply well_kept_set; [exact Hkept|].
    intros id u' Hget Heq.
    destruct Hkept as (_ & _ & Hemails).
    exact (Hemails id (Backend.BackendUser.id u) u' u Hget Hmember Heq).
  - rewrite getUserById_run. exact Hkept.
  - rewrite listUsers_run. exact Hkept.
  - (* updateUser *)
    rewrite (updateUser_run behaviour).
    destruct (Map_get id (Backend.UserService.repository svc)) as [existing|] eqn:Hget;
      [|exact Hkept].
    cbn [snd Backend.UserService.repository].
    set (stored := touchEntity now_save _).
    change (well_kept (Map_set (Backend.BackendUser.id stored) stored
                         (Backend.UserService.repository svc))).
    apply well_kept_set; [exact Hkept|].
    intros id' u' Hget' Heq.
    assert (Hid : Backend.BackendUser.id existing = id).
    { destruct Hkept as (Hkeys & _ & _).
      exact (key_consistent_get _ _ _ Hkeys Hget). }
    destruct Hkept as (_ & _ & Hemails).
    cbn. rewrite Hid.
    exact (Hemails id' id u' existing Hget' Hget Heq).
  - (* deleteUser *)
    rewrite (deleteUser_run behaviour).
    destruct (Map_get id (Backend.UserService.repository svc)); [|exact Hkept].
    cbn [snd Backend.UserService.repository]. now apply well_kept_delete.
  - exact Hkept.
Qed.

End UserServiceInvariant.


Section UserServiceReads.
Context {World : Type}.
Variable behaviour :
  FnRef -> Backend.Event Object -> World -> Backend.Reaction World.
Implicit Types (svc : Backend.UserService.t World).

(** X22.  [deleteUser] of an id that is not stored returns the not-found
    failure of the repository ([Entity with id ... not found], never the
    fallback ['User not found']) and changes nothing.  For a stored id it
    removes the user and publishes one [deleted] event that carries the
    DTO of the user as it was stored; it returns the success when the
    publication returns and throws what a subscriber throws otherwise,
    the user being removed in both cases. *)
Theorem deleteUser_removes_then_publishes svc (now_emit : Date) (id : string) :
  let result := Backend.UserService.deleteUser behaviour now_emit id svc in
  (Map_get id (Backend.UserService.repository svc) = None ->
   result = (Returned (createError (Backend.not_found id)), svc)) /\
  (forall existing,
      Map_get id (Backend.UserService.repository svc) = Some existing ->
      let published :=
        Backend.emitEvent behaviour now_emit deleted (Backend.toUserDto existing)
          (Backend.UserService.notifier svc) in
      Backend.UserService.repository (snd result)
      = Map_delete id (Backend.UserService.repository svc) /\
      Map_get id (Backend.UserService.repository (snd result)) = None /\
      Backend.UserService.notifier (snd result) = fst published /\
      (snd published = Returned tt -> fst result = Returned (createSuccess None)) /\
      (forall message, snd published = Thrown message -> fst result = Thrown message)).
Proof.
  intros result. subst result. rewrite (deleteUser_run behaviour).
  split.
  - now intros ->.
  - intros existing -> published. fold published.
    cbn [fst snd Backend.UserService.repository Backend.UserService.notifier].
    split; [reflexivity|].
    split; [rewrite Map_get_delete, String.eqb_refl; reflexivity|].
    split; [reflexivity|].
    split; [now intros -> | now intros message ->].
Qed.

(** X23.  [getUserById] and [listUsers] change nothing and never expose
    a password hash.  [getUserById] returns the DTO of the stored user,
    or the not-found failure of the repository.  [listUsers] always
    succeeds; its page is the page of [paginate] over the stored users,
    with the same [total], [page], [pageSize] and [totalPages], and with
    the DTOs of the users of that page as items, each with exactly the
    six properties of [UserDto]. *)
Theorem user_reads_return_dtos svc (id : string) (params : PaginationParams.t) :
  let listed := paginate (Map_values (Backend.UserService.repository svc)) params in
  Backend.UserService.getUserById id svc
  = (Returned
       match Map_get id (Backend.UserService.repository svc) with
       | None => createError (Backend.not_found id)
       | Some u => createSuccess (Some (Backend.toUserDto u))
       end,
     svc) /\
  Backend.UserService.listUsers params svc
  = (Returned
       (createSuccess
          (Some (PaginatedResponse.mk
                   (map Backend.toUserDto (PaginatedResponse.items listed))
                   (PaginatedResponse.total listed)
                   (PaginatedResponse.page listed)
                   (PaginatedResponse.pageSize listed)
                   (PaginatedResponse.totalPages listed)))),
     svc) /\
  PaginatedResponse.total listed
  = Z.of_nat (List.length (Map_values (Backend.UserService.repository svc))) /\
  PaginatedResponse.page listed = PaginationParams.page params /\
  PaginatedResponse.pageSize listed = PaginationParams.pageSize params /\
  Forall (fun dto => ownKeys dto = user_dto_keys)
    (map Backend.toUserDto (PaginatedResponse.items listed)) /\
  Forall (fun dto => ~ In "passwordHash"%string (ownKeys dto))
    (map Backend.toUserDto (PaginatedResponse.items listed)).
Proof.
  intros listed.
  split; [apply getUserById_run|].
  split; [apply listUsers_run|].
  split; [reflexivity|]. split; [reflexivity|]. split; [reflexivity|].
  split; apply Forall_forall; intros dto Hin; apply in_map_iff in Hin;
    destruct Hin as (u & <- & _).
  - reflexivity.
  - simpl. intuition discriminate.
Qed.
End UserServiceReads.

Lemma deleteUser_removes_then_publishes_witness :
  Map_get "nobody" (Backend.UserService.repository service_with_ann) = None /\
  Backend.UserService.deleteUser first_throws 40 "nobody" service_with_ann
  = (Returned (createError (Backend.not_found "nobody")), service_with_ann) /\
  snd (Backend.emitEvent first_throws 40 deleted
         (Backend.toUserDto (touchEntity 11
            (Backend.createBackendUser "g1" 10 "a@b.com" "Ann" "hashed_secret" None)))
         (Backend.UserService.notifier service_with_ann))
  = Thrown "handler 1 failed" /\
  fst (Backend.UserService.deleteUser first_throws 40 "g1" service_with_ann)
  = Thrown "handler 1 failed" /\
  Backend.UserService.repository
    (snd (Backend.UserService.deleteUser first_throws 40 "g1" service_with_ann))
  = [].
Proof.
  assert (Hnone : Map_get "nobody" (Backend.UserService.repository service_with_ann) = None)
    by reflexivity.
  assert (Hthrows :
            snd (Backend.emitEvent first_throws 40 deleted
                   (Backend.toUserDto (touchEntity 11
                      (Backend.createBackendUser "g1" 10 "a@b.com" "Ann"
                         "hashed_secret" None)))
                   (Backend.UserService.notifier service_with_ann))
            = Thrown "handler 1 failed") by reflexivity.
  destruct (deleteUser_removes_then_publishes first_throws service_with_ann 40 "nobody")
    as (Hmissing & _).
  destruct (deleteUser_removes_then_publishes first_throws service_with_ann 40 "g1")
    as (_ & Hstored).
  destruct (Hstored _ eq_refl) as (Hrepository & _ & _ & _ & Hthrown).
  split; [exact Hnone|]. split; [exact (Hmissing Hnone)|].
  split; [exact Hthrows|]. split; [exact (Hthrown _ Hthrows)|].
  rewrite Hrepository. reflexivity.
Defined.

(** ** The item service *)

Lemma Status_string_not_empty (status : Backend.Status) :
  Backend.Status_string status <> EmptyString.
Proof. destruct status; discriminate. Qed.

Lemma truthy_some (s : string) : truthy (Some s) = true <-> s <> EmptyString.
Proof. destruct s; simpl; split; congruence. Qed.

Lemma validateItemDto_ok (title description ownerId status : string) :
  status <> EmptyString ->
  ValidationResult.ok
    (validateItemDto
       (PartialItemDto.mk None None None (Some title) (Some description) (Some ownerId)
          (Some status))) = true
  <-> valid_item title description ownerId.
Proof.
  intros Hstatus. unfold validateItemDto, push_if_missing, valid_item.
  cbn [PartialItemDto.title PartialItemDto.description PartialItemDto.ownerId
       PartialItemDto.status or_empty].
  apply truthy_some in Hstatus. rewrite Hstatus.
  rewrite <- !truthy_some.
  pose proof (validateName_one_field title "title") as Ht.
  field_cases Ht;
    destruct (truthy (Some description)); destruct (truthy (Some ownerId));
    cbv; intuition congruence.
Qed.

Section ItemServiceFacts.
Context {World : Type}.
Variable behaviour :
  FnRef -> Backend.Event Object -> World -> Backend.Reaction World.
Implicit Types (svc : Backend.ItemService.t World).

Lemma getItemById_run svc (now_view now_touch now_save : Date) (id : string) :
  Backend.ItemService.getItemById now_view now_touch now_save id svc
  = match Map_get id (Backend.ItemService.repository svc) with
    | None => (Returned (createError (Backend.not_found id)), svc)
    | Some item =>
        (Returned (createSuccess
                     (Some (Backend.toItemDto
                              (Backend.recordItemView now_view now_touch item)))),
         Backend.ItemService.mk
           (snd (Backend.save now_save (Backend.recordItemView now_view now_touch item)
                   (Backend.ItemService.repository svc)))
           (Backend.ItemService.notifier svc))
    end.
Proof.
  unfold Backend.ItemService.getItemById.
  unfold act_bind at 1. unfold Backend.ItemService.on_repository at 1.
  rewrite findById_unfold.
  destruct svc as [repository notifier].
  cbn [Backend.ItemService.repository Backend.ItemService.notifier].
  destruct (Map_get id repository) as [item|]; reflexivity.
Qed.

Lemma createItem_run svc (generated : string) (now_new now_save now_emit : Date)
  (title description ownerId : string) (status : option Backend.Status) :
  let validation :=
    validateItemDto
      (PartialItemDto.mk None None None (Some title) (Some description) (Some ownerId)
         (Some (Backend.Status_string
                  (match status with Some s => s | None => Backend.draft end)))) in
  let stored :=
    touchEntity now_save
      (Backend.createBackendItem generated now_new title description ownerId
         (Some (match status with Some s => s | None => Backend.draft end))) in
  let published :=
    Backend.emitEvent behaviour now_emit created (Backend.toItemDto stored)
      (Backend.ItemService.notifier svc) in
  Backend.ItemService.createItem behaviour generated now_new now_save now_emit
    title description ownerId status svc
  = if ValidationResult.ok validation then
      (match snd published with
       | Returned _ => Returned (createSuccess (Some (Backend.toItemDto stored)))
       | Thrown message => Thrown message
       end,
       Backend.ItemService.mk
         (Map_set generated stored (Backend.ItemService.repository svc))
         (fst published))
    else (Returned (createError (Backend.validation_failed validation)), svc).
Proof.
  intros validation stored published.
  unfold Backend.ItemService.createItem. fold validation.
  destruct (ValidationResult.ok validation); cbn [negb]; [|reflexivity].
  unfold act_bind at 1. unfold Backend.ItemService.on_repository.
  rewrite save_unfold. fold stored.
  cbn [Backend.ItemService.repository Backend.ItemService.notifier
       Result.ok createSuccess negb].
  unfold act_bind at 1. unfold act_outcome.
  cbn [unwrapResult Result.ok Result.value createSuccess negb].
  unfold act_bind, Backend.ItemService.emit, act_ret.
  cbn [Backend.ItemService.repository Backend.ItemService.notifier].
  fold published.
  destruct published as [n [[]|message]]; reflexivity.
Qed.

(** X24.  [getItemById] counts a view.  For an id that is not stored it
    returns the not-found failure of the repository and changes nothing.
    For a stored item it stores, under the id of the item, the item with
    the time of the view, a new [updatedAt] and the views incremented by
    the addition of numbers: one more view for a count from 0 to below
    2^53, the same count at 2^53.  The other properties of the item and
    the entries of the other ids are kept.  It publishes nothing, and
    returns the DTO of the item as [recordItemView] touched it, which
    does not show the views. *)
Theorem getItemById_counts_a_view svc (now_view now_touch now_save : Date) (id : string) :
  let result := Backend.ItemService.getItemById now_view now_touch now_save id svc in
  (Map_get id (Backend.ItemService.repository svc) = None ->
   result = (Returned (createError (Backend.not_found id)), svc)) /\
  (forall item,
      Map_get id (Backend.ItemService.repository svc) = Some item ->
      let stored :=
        Backend.BackendItem.mk
          (Backend.BackendItem.id item) (Backend.BackendItem.createdAt item) now_save
          (Backend.BackendItem.title item) (Backend.BackendItem.description item)
          (Backend.BackendItem.ownerId item) (Backend.BackendItem.status item)
          (number_add (Backend.BackendItem.views item) 1)
          (Some now_view)
          (Backend.BackendItem.internalNotes item) in
      Map_get (Backend.BackendItem.id item) (Backend.ItemService.repository (snd result))
      = Some stored /\
      (forall other, other <> Backend.BackendItem.id item ->
         Map_get other (Backend.ItemService.repository (snd result))
         = Map_get other (Backend.ItemService.repository svc)) /\
      (0 <= Backend.BackendItem.views item < 2 ^ 53 ->
       Backend.BackendItem.views stored = Backend.BackendItem.views item + 1) /\
      (Backend.BackendItem.views item = 2 ^ 53 ->
       Backend.BackendItem.views stored = 2 ^ 53) /\
      Backend.ItemService.notifier (snd result) = Backend.ItemService.notifier svc /\
      fst result
      = Returned (createSuccess
                    (Some (Backend.toItemDto
                             (Backend.BackendItem.with_updatedAt now_touch item)))) /\
      ~ In "views"%string
          (ownKeys (Backend.toItemDto (Backend.BackendItem.with_updatedAt now_touch item)))).
Proof.
  intros result. subst result. rewrite getItemById_run.
  split; [now intros ->|].
  intros item -> stored.
  cbn [fst snd Backend.ItemService.repository Backend.ItemService.notifier].
  rewrite save_unfold. cbn [snd].
  split; [rewrite Map_get_set; cbn; now rewrite String.eqb_refl|].
  split.
  { intros other Hother. rewrite Map_get_set. cbn.
    now destruct (String.eqb_spec other (Backend.BackendItem.id item)). }
  split; [intros Hviews; now apply number_add_one|].
  split; [intros Hviews; cbn; rewrite Hviews; apply number_add_one_stops|].
  split; [reflexivity|]. split; [reflexivity|].
  simpl. intuition discriminate.
Qed.

Lemma createItem_invalid_message (title description ownerId status : string) :
  status <> EmptyString ->
  ~ valid_item title description ownerId ->
  Backend.validation_failed
    (validateItemDto
       (PartialItemDto.mk None None None (Some title) (Some description) (Some ownerId)
          (Some status)))
  = ("Validation failed: "
     ++ String.concat ", "
          (error_messages (validateName title (Some "title"))
           ++ required_message description "Description is required"
           ++ required_message ownerId "Owner ID is required"))%string.
Proof.
  intros Hstatus Hinvalid.
  unfold validateItemDto, push_if_missing, valid_item in *.
  cbn [PartialItemDto.title PartialItemDto.description PartialItemDto.ownerId
       PartialItemDto.status or_empty].
  apply truthy_some in Hstatus. rewrite Hstatus.
  destruct (validateName_one_field title "title") as [Ht|(m & c & Ht)];
    rewrite Ht in *;
    destruct description as [|d description]; destruct ownerId as [|o ownerId];
    try reflexivity.
  exfalso. apply Hinvalid. split; [reflexivity|]. split; discriminate.
Qed.

End ItemServiceFacts.

Lemma getItemById_counts_a_view_witness :
  Map_get "i1" (Backend.ItemService.repository item_service)
  = Some (touchEntity 150 report) /\
  Backend.BackendItem.id (touchEntity 150 report) = "i1"%string /\
  exists stored,
    Map_get "i1" (Backend.ItemService.repository
                    (snd (Backend.ItemService.getItemById 400 401 402 "i1" item_service)))
    = Some stored /\
    Backend.BackendItem.views stored = 8.
Proof.
  assert (Hget : Map_get "i1" (Backend.ItemService.repository item_service)
                 = Some (touchEntity 150 report)) by reflexivity.
  assert (Hid : Backend.BackendItem.id (touchEntity 150 report) = "i1"%string)
    by reflexivity.
  split; [exact Hget|]. split; [exact Hid|].
  destruct (getItemById_counts_a_view item_service 400 401 402 "i1") as (_ & Hfound).
  destruct (Hfound _ Hget) as (Hstored & _ & Hviews & _).
  eexists. split; [exact Hstored|]. apply Hviews. cbn. lia.
Defined.


(** ** The notification manager *)

Lemma to_int_not_nil (k : Z) :
  Z.to_int k <> Decimal.Pos Decimal.Nil /\ Z.to_int k <> Decimal.Neg Decimal.Nil.
Proof.
  split; intros Hk; pose proof (f_equal Z.of_int Hk) as Hzero;
    rewrite DecimalZ.of_to in Hzero; cbn in Hzero; subst k; discriminate Hk.
Qed.

Lemma string_of_to_int_injective (j k : Z) :
  NilZero.string_of_int (Z.to_int j) = NilZero.string_of_int (Z.to_int k) -> j = k.
Proof.
  intros Heq. apply DecimalZ.to_int_inj.
  destruct (to_int_not_nil j) as (Hj1 & Hj2), (to_int_not_nil k) as (Hk1 & Hk2).
  pose proof (NilZero.isi _ Hj1 Hj2) as Hj.
  pose proof (NilZero.isi _ Hk1 Hk2) as Hk.
  rewrite Heq in Hj. congruence.
Qed.

Lemma append_injective (prefix a b : string) :
  (prefix ++ a = prefix ++ b)%string -> a = b.
Proof.
  induction prefix as [|c prefix IH]; cbn [String.append]; [easy|].
  intros [= Heq]. now apply IH.
Qed.

Lemma notification_id_injective (j k : Z) :
  NotificationManager.notification_id j = NotificationManager.notification_id k -> j = k.
Proof.
  unfold NotificationManager.notification_id. intros Heq.
  apply string_of_to_int_injective. eapply append_injective. exact Heq.
Qed.

Lemma StronglySorted_snoc (ks : list Z) (k : Z) :
  StronglySorted Z.lt ks -> Forall (fun j => j < k) ks -> StronglySorted Z.lt (ks ++ [k]).
Proof.
  induction 1 as [|j ks Hsorted IH Hj]; intros Hall; cbn [app].
  - repeat constructor.
  - inversion Hall as [|? ? Hjk Hrest]; subst.
    constructor; [now apply IH|].
    apply Forall_app. split; [exact Hj | now constructor].
Qed.

Lemma StronglySorted_filter (p : Z -> bool) (ks : list Z) :
  StronglySorted Z.lt ks -> StronglySorted Z.lt (filter p ks).
Proof.
  induction 1 as [|j ks Hsorted IH Hj]; cbn [filter]; [constructor|].
  destruct (p j); [|exact IH].
  constructor; [exact IH|].
  rewrite Forall_forall in *. intros x Hx. apply Hj.
  apply filter_In in Hx. tauto.
Qed.

Lemma StronglySorted_lt_NoDup (ks : list Z) : StronglySorted Z.lt ks -> NoDup ks.
Proof.
  induction 1 as [|j ks Hsorted IH Hj]; constructor; [|exact IH].
  intros Hin. rewrite Forall_forall in Hj. specialize (Hj _ Hin). lia.
Qed.

Lemma map_filter_commute {A B : Type} (f : A -> B) (p : B -> bool) (l : list A) :
  map f (filter (fun x => p (f x)) l) = filter p (map f l).
Proof.
  induction l as [|x l IH]; [reflexivity|].
  cbn [filter map]. destruct (p (f x)); cbn [map]; now rewrite IH.
Qed.

Lemma ids_issued_NoDup (nm : NotificationManager.t) :
  ids_issued nm -> NoDup (notification_ids nm).
Proof.
  intros (_ & ks & -> & Hsorted & _).
  apply StronglySorted_lt_NoDup in Hsorted.
  induction Hsorted as [|k ks Hk _ IH]; cbn [map]; constructor; [|exact IH].
  intros Hin. apply in_map_iff in Hin. destruct Hin as (j & Heq & Hj).
  apply notification_id_injective in Heq. now subst j.
Qed.

(** The id that the next [add] makes is the id of no notification. *)
Lemma ids_issued_next_fresh (nm : NotificationManager.t) :
  ids_issued nm ->
  ~ In (NotificationManager.notification_id (NotificationManager.idCounter nm + 1))
      (notification_ids nm).
Proof.
  intros (_ & ks & -> & _ & Hbound) Hin.
  apply in_map_iff in Hin. destruct Hin as (k & Heq & Hk).
  apply notification_id_injective in Heq.
  rewrite Forall_forall in Hbound. specialize (Hbound _ Hk). lia.
Qed.

Lemma filter_absent_id (id : string) (ns : list Notification.t) :
  ~ In id (map Notification.id ns) ->
  filter (fun n => negb (String.eqb (Notification.id n) id)) ns = ns.
Proof.
  induction ns as [|n ns IH]; [reflexivity|].
  cbn [map filter]. intros Hnotin.
  destruct (String.eqb_spec (Notification.id n) id) as [Heq|_]; cbn [negb].
  - exfalso. apply Hnotin. now left.
  - f_equal. apply IH. intros Hin. apply Hnotin. now right.
Qed.

(** The first two statements of [add] keep the ids in order, while the
    counter counts. *)
Lemma ids_issued_store (type : NotificationType) (message : string) (duration : Z)
  (nm : NotificationManager.t) :
  ids_issued nm -> NotificationManager.idCounter nm < 2 ^ 53 ->
  ids_issued (NotificationManager.store type message duration nm).
Proof.
  intros (Hrange & ks & Hids & Hsorted & Hbound) Hcounts.
  unfold NotificationManager.store, ids_issued, notification_ids in *.
  cbn [NotificationManager.notifications NotificationManager.idCounter].
  rewrite number_add_one by lia.
  split; [lia|].
  exists (ks ++ [NotificationManager.idCounter nm + 1]).
  rewrite !map_app, Hids. cbn [map Notification.id].
  split; [reflexivity|]. split.
  - apply StronglySorted_snoc; [exact Hsorted|].
    eapply Forall_impl; [|exact Hbound]. cbv beta. intros; lia.
  - apply Forall_app. split.
    + eapply Forall_impl; [|exact Hbound]. cbv beta. intros; lia.
    + constructor; [lia | constructor].
Qed.

Lemma ids_issued_discard (id : string) (nm : NotificationManager.t) :
  ids_issued nm -> ids_issued (NotificationManager.discard id nm).
Proof.
  intros (Hrange & ks & Hids & Hsorted & Hbound).
  unfold NotificationManager.discard, ids_issued, notification_ids in *.
  cbn [NotificationManager.notifications NotificationManager.idCounter].
  split; [exact Hrange|].
  exists (filter (fun k => negb (String.eqb (NotificationManager.notification_id k) id)) ks).
  rewrite (map_filter_commute Notification.id (fun i => negb (String.eqb i id))), Hids.
  rewrite <- (map_filter_commute NotificationManager.notification_id
                (fun i => negb (String.eqb i id))).
  split; [reflexivity|]. split.
  - now apply StronglySorted_filter.
  - rewrite Forall_forall in *. intros k Hk. apply Hbound.
    apply filter_In in Hk. tauto.
Qed.

(** Whatever is called on the manager, by clients and by listeners, the
    counter stays between 0 and 2^53, and the ids stay in order while it
    is below 2^53. *)
Lemma manager_perform_all_counts {World : Type}
  (behaviour : FnRef -> list Notification.t -> World -> NotificationManager.Code World)
  (depth : nat) (cs : list NotificationManager.Call)
  (st : NotificationManager.Running World) :
  ids_issued (NotificationManager.this st) ->
  0 <= NotificationManager.idCounter
         (NotificationManager.this (manager_perform_all behaviour depth cs st)) <= 2 ^ 53 /\
  (NotificationManager.idCounter
     (NotificationManager.this (manager_perform_all behaviour depth cs st)) < 2 ^ 53 ->
   ids_issued (NotificationManager.this (manager_perform_all behaviour depth cs st))).
Proof.
  intros Hissued.
  apply (manager_perform_all_keeps behaviour
           (fun st' =>
              0 <= NotificationManager.idCounter (NotificationManager.this st') <= 2 ^ 53 /\
              (NotificationManager.idCounter (NotificationManager.this st') < 2 ^ 53 ->
               ids_issued (NotificationManager.this st')))
           (fun _ _ => True)); try (intros; exact I).
  - intros st' w HP. split; [exact HP | exact I].
  - intros st0 st' l _ _ _ HP. split; [exact HP | exact I].
  - intros st' delay id HP. split; [exact HP | exact I].
  - intros st' type message duration (Hrange & Hkeeps). split; [|exact I].
    cbn [NotificationManager.with_this NotificationManager.this].
    destruct (Z.eq_dec (NotificationManager.idCounter (NotificationManager.this st'))
                (2 ^ 53)) as [Hlimit|Hbelow].
    + assert (Hstays : NotificationManager.idCounter
                         (NotificationManager.store type message duration
                            (NotificationManager.this st')) = 2 ^ 53).
      { unfold NotificationManager.store. cbn [NotificationManager.idCounter].
        rewrite Hlimit. apply number_add_one_stops. }
      rewrite Hstays. split; [lia|]. intros Hless. exfalso. lia.
    + assert (Hcounts : NotificationManager.idCounter (NotificationManager.this st')
                        < 2 ^ 53) by lia.
      pose proof (ids_issued_store type message duration _ (Hkeeps Hcounts) Hcounts)
        as Hstored.
      split; [exact (proj1 Hstored) | intros _; exact Hstored].
  - intros st' id (Hrange & Hkeeps). split; [|exact I].
    cbn [NotificationManager.with_this NotificationManager.this].
    split; [exact Hrange|].
    intros Hcounts. apply ids_issued_discard. now apply Hkeeps.
  - intros st' c HP. split; [exact HP | exact I].
  - intros st' l HP. split; [exact HP | exact I].
  - intros st' u HP. split; [exact HP | exact I].
  - split; [exact (proj1 Hissued) | intros _; exact Hissued].
Qed.

(** X26.  The ids of the notifications of a manager stay distinct while
    the counter counts.  In a manager whose notifications carry ids made
    of increasing values of a counter between 0 and 2^53, as in a new
    manager, the counter stays in this range after any calls of [add],
    [remove], [subscribe], [getAll] and of the closures of [subscribe],
    whatever the listeners do and call on the manager while they are
    notified; and as long as the counter is below 2^53 the notifications
    still carry such ids, so that no two of them have the same id.  At
    2^53 the increment of the counter is lost in the addition of numbers,
    and [add] makes the same id again. *)
Theorem manager_ids_stay_distinct {World : Type}
  (behaviour : FnRef -> list Notification.t -> World -> NotificationManager.Code World)
  (depth : nat) (cs : list NotificationManager.Call)
  (st : NotificationManager.Running World) :
  (ids_issued (NotificationManager.this st) ->
   let st' := manager_perform_all behaviour depth cs st in
   0 <= NotificationManager.idCounter (NotificationManager.this st') <= 2 ^ 53 /\
   (NotificationManager.idCounter (NotificationManager.this st') < 2 ^ 53 ->
    ids_issued (NotificationManager.this st') /\
    NoDup (notification_ids (NotificationManager.this st')))) /\
  (let full :=
     manager_perform_all listeners_return 0
       [NotificationManager.CallAdd info "one" None;
        NotificationManager.CallAdd info "two" None] manager_at_limit in
   ids_issued (NotificationManager.this manager_at_limit) /\
   NotificationManager.idCounter (NotificationManager.this full) = 2 ^ 53 /\
   notification_ids (NotificationManager.this full)
   = ["notification-9007199254740992"; "notification-9007199254740992"]%string).
Proof.
  split.
  - intros Hissued st'.
    destruct (manager_perform_all_counts behaviour depth cs st Hissued)
      as (Hrange & Hkeeps).
    split; [exact Hrange|].
    intros Hcounts. split; [now apply Hkeeps|].
    apply ids_issued_NoDup. now apply Hkeeps.
  - cbv zeta. split; [|split; vm_compute; reflexivity].
    split; [cbn; lia|]. exists []. repeat split; constructor.
Qed.

(** What [add] and [remove] do to the fields when the listeners do not
    call the manager. *)
Lemma add_observers {World : Type}
  (behaviour : FnRef -> list Notification.t -> World -> NotificationManager.Code World)
  (below : NotificationManager.Call -> NotificationManager.Running World ->
           NotificationManager.Running World * Outcome NotificationManager.Answer)
  (type : NotificationType) (message : string) (duration : option Z)
  (st : NotificationManager.Running World) :
  observers behaviour ->
  NotificationManager.this (fst (NotificationManager.add behaviour below type message duration st))
  = NotificationManager.store type message
      (match duration with Some d => d | None => 5000 end) (NotificationManager.this st).
Proof.
  intros Hobservers. unfold NotificationManager.add. cbv zeta.
  set (st0 := NotificationManager.with_this _ st).
  destruct (notifyListeners_observers behaviour Hobservers below st0)
    as (_ & _ & _ & Hthis & _).
  destruct (NotificationManager.notifyListeners behaviour below st0) as [st1 [[]|m]];
    cbn [fst] in *.
  - destruct (0 <? _); [cbn [NotificationManager.set_timer NotificationManager.this]|];
      exact Hthis.
  - exact Hthis.
Qed.

Lemma remove_observers {World : Type}
  (behaviour : FnRef -> list Notification.t -> World -> NotificationManager.Code World)
  (below : NotificationManager.Call -> NotificationManager.Running World ->
           NotificationManager.Running World * Outcome NotificationManager.Answer)
  (id : string) (st : NotificationManager.Running World) :
  observers behaviour ->
  NotificationManager.this (fst (NotificationManager.remove behaviour below id st))
  = NotificationManager.discard id (NotificationManager.this st).
Proof.
  intros Hobservers. unfold NotificationManager.remove.
  set (st0 := NotificationManager.with_this _ st).
  destruct (notifyListeners_observers behaviour Hobservers below st0)
    as (_ & _ & _ & Hthis & _).
  exact Hthis.
Qed.

(** X27.  When the listeners do not call the manager while they are
    notified, [add] followed by [remove] of the id that [add] made
    restores the notifications, in a manager whose notifications carry
    ids made of increasing values of a counter that is below 2^53: the
    new id is the id of none of them.  The counter is not restored, so
    that the id is not made again.  A listener that calls the manager
    undoes this: when listener 1 answers a success by adding a
    notification of its own, this notification is there after [add] and
    [remove]. *)
Theorem add_then_remove_restores {World : Type}
  (behaviour : FnRef -> list Notification.t -> World -> NotificationManager.Code World)
  (depth : nat) (type : NotificationType) (message : string)
  (duration : option Z) (st : NotificationManager.Running World) :
  (observers behaviour ->
   ids_issued (NotificationManager.this st) ->
   NotificationManager.idCounter (NotificationManager.this st) < 2 ^ 53 ->
   let id :=
     NotificationManager.notification_id
       (NotificationManager.idCounter (NotificationManager.this st) + 1) in
   let added :=
     fst (NotificationManager.add behaviour
            (NotificationManager.perform_at behaviour depth) type message duration st) in
   let removed :=
     fst (NotificationManager.remove behaviour
            (NotificationManager.perform_at behaviour depth) id added) in
   ~ In id (notification_ids (NotificationManager.this st)) /\
   In id (notification_ids (NotificationManager.this added)) /\
   NotificationManager.notifications (NotificationManager.this removed)
   = NotificationManager.notifications (NotificationManager.this st) /\
   NotificationManager.idCounter (NotificationManager.this removed)
   = NotificationManager.idCounter (NotificationManager.this st) + 1) /\
  (let added :=
     NotificationManager.add first_adds_one
       (NotificationManager.perform_at first_adds_one 1) success "saved" None manager_1 in
   let removed :=
     fst (NotificationManager.remove first_adds_one
            (NotificationManager.perform_at first_adds_one 1) "notification-1"
            (fst added)) in
   snd added = Returned "notification-1"%string /\
   notification_ids (NotificationManager.this (fst added))
   = ["notification-1"; "notification-2"]%string /\
   notification_ids (NotificationManager.this removed) = ["notification-2"]%string).
Proof.
  split; [|cbv zeta; repeat split; reflexivity].
  intros Hobservers Hissued Hcounts id added removed. subst removed added.
  pose proof (ids_issued_next_fresh _ Hissued) as Hfresh. fold id in Hfresh.
  rewrite remove_observers, add_observers by exact Hobservers.
  unfold NotificationManager.store, NotificationManager.discard.
  rewrite number_add_one by (destruct Hissued as (Hrange & _); lia).
  fold id.
  cbn [NotificationManager.notifications NotificationManager.idCounter].
  split; [exact Hfresh|]. split.
  - unfold notification_ids. cbn [NotificationManager.notifications].
    rewrite map_app. apply in_or_app. right. now left.
  - split; [|reflexivity].
    rewrite filter_app. cbn [filter Notification.id].
    rewrite String.eqb_refl. cbn [negb]. rewrite app_nil_r.
    now apply filter_absent_id.
Qed.

(** X28.  When the listeners do not call the manager while they are
    notified, [add] stores the notification before it notifies: the
    notification, with the id made of the incremented counter and the
    duration 5000 when none is given, is behind the others whatever the
    listeners return or throw, and the listeners reached are called with
    the list that ends with it.  When a listener throws, [add] throws,
    the listeners behind it are not called and no timer is set, although
    the notification is stored.  When all return, all have been called,
    the id is returned, and one timer for this id is set if the duration
    is positive, none otherwise; [add] returns exactly when the listeners
    return in turn.  A listener that calls the manager
    undoes this: when listener 1 removes the last notification of the
    list it is handed, [add] returns the id of a notification that is not
    stored. *)
Theorem add_stores_before_notifying {World : Type}
  (behaviour : FnRef -> list Notification.t -> World -> NotificationManager.Code World)
  (depth : nat) (type : NotificationType) (message : string)
  (duration : option Z) (st : NotificationManager.Running World) :
  (observers behaviour ->
   let d := match duration with Some d => d | None => 5000 end in
   let id :=
     NotificationManager.notification_id
       (number_add (NotificationManager.idCounter (NotificationManager.this st)) 1) in
   let result :=
     NotificationManager.add behaviour
       (NotificationManager.perform_at behaviour depth) type message duration st in
   let stored :=
     NotificationManager.notifications (NotificationManager.this st)
     ++ [Notification.mk id type message (Some d)] in
   NotificationManager.notifications (NotificationManager.this (fst result)) = stored /\
   (forall earlier l later thrown,
       NotificationManager.listeners (NotificationManager.this st)
       = earlier ++ l :: later ->
       observers_return_in_turn behaviour stored earlier (NotificationManager.world st) ->
       observer_completion behaviour stored l
         (observers_world_after behaviour stored earlier (NotificationManager.world st))
       = Thrown thrown ->
       snd result = Thrown thrown /\
       NotificationManager.calls (fst result)
       = NotificationManager.calls st ++ deliveries stored (earlier ++ [l]) /\
       NotificationManager.timers (fst result) = NotificationManager.timers st) /\
   (snd result = Returned id
    <-> observers_return_in_turn behaviour stored
          (NotificationManager.listeners (NotificationManager.this st))
          (NotificationManager.world st)) /\
   exists delivered skipped,
     NotificationManager.listeners (NotificationManager.this st) = delivered ++ skipped /\
     NotificationManager.calls (fst result)
     = NotificationManager.calls st ++ deliveries stored delivered /\
     match snd result with
     | Thrown _ =>
         delivered <> [] /\
         NotificationManager.timers (fst result) = NotificationManager.timers st
     | Returned returned =>
         returned = id /\ skipped = [] /\
         NotificationManager.timers (fst result)
         = if 0 <? d then NotificationManager.timers st ++ [(d, id)]
           else NotificationManager.timers st
     end) /\
  (let result :=
     NotificationManager.add first_removes_last
       (NotificationManager.perform_at first_removes_last 1) success "saved" None
       manager_1 in
   snd result = Returned "notification-1"%string /\
   NotificationManager.notifications (NotificationManager.this (fst result)) = [] /\
   NotificationManager.timers (fst result) = [(5000, "notification-1"%string)]).
Proof.
  split; [|cbv zeta; repeat split; reflexivity].
  intros Hobservers d id result stored. subst result.
  split; [rewrite add_observers by exact Hobservers; reflexivity|].
  unfold NotificationManager.add. cbv zeta. fold d. fold id.
  set (st0 := NotificationManager.with_this _ st).
  split.
  { intros earlier l later thrown Hlisteners Hreturn Hthrow.
    destruct (notifyListeners_observers_throw behaviour Hobservers
                (NotificationManager.perform_at behaviour depth)
                earlier later l thrown st0 Hlisteners Hreturn Hthrow) as (Hsnd & Hcalls).
    destruct (notifyListeners_observers behaviour Hobservers
                (NotificationManager.perform_at behaviour depth) st0)
      as (_ & _ & _ & _ & _ & Htimers & _).
    destruct (NotificationManager.notifyListeners behaviour
                (NotificationManager.perform_at behaviour depth) st0) as [st1 o].
    cbn [fst snd] in *. subst o. cbn [fst snd]. repeat split; assumption. }
  split.
  { pose proof (notifyListeners_observers_return behaviour Hobservers
                  (NotificationManager.perform_at behaviour depth) st0) as Hiff.
    destruct (NotificationManager.notifyListeners behaviour
                (NotificationManager.perform_at behaviour depth) st0) as [st1 [[]|m]];
      cbn [fst snd] in *.
    - split; [intros _; now apply Hiff | reflexivity].
    - split; [discriminate|]. intros Hreturn. apply Hiff in Hreturn. discriminate. }
  destruct (notifyListeners_observers behaviour Hobservers
              (NotificationManager.perform_at behaviour depth) st0)
    as (delivered & skipped & Hls & _ & _ & Htimers & Hcalls & Hend).
  exists delivered, skipped. split; [exact Hls|].
  destruct (NotificationManager.notifyListeners behaviour
              (NotificationManager.perform_at behaviour depth) st0) as [st1 [[]|m]];
    cbn [fst snd] in *.
  - destruct (0 <? d);
      cbn [NotificationManager.set_timer NotificationManager.calls
           NotificationManager.timers];
      rewrite ?Htimers; repeat split; assumption.
  - repeat split; assumption.
Qed.

Lemma manager_ids_stay_distinct_witness :
  ids_issued (NotificationManager.this new_running_manager) /\
  notification_ids
    (NotificationManager.this
       (manager_perform_all first_adds_one 2
          [NotificationManager.CallSubscribe 1%nat;
           NotificationManager.CallAdd success "saved" None;
           NotificationManager.CallRemove "notification-1";
           NotificationManager.CallAdd error "failed" (Some 0)]
          new_running_manager))
  = ["notification-2"; "notification-3"]%string /\
  NoDup
    (notification_ids
       (NotificationManager.this
          (manager_perform_all first_adds_one 2
             [NotificationManager.CallSubscribe 1%nat;
              NotificationManager.CallAdd success "saved" None;
              NotificationManager.CallRemove "notification-1";
              NotificationManager.CallAdd error "failed" (Some 0)]
             new_running_manager))).
Proof.
  assert (Hnew : ids_issued (NotificationManager.this new_running_manager)).
  { split; [cbn; lia|]. exists []. repeat split; constructor. }
  split; [exact Hnew|]. split; [reflexivity|].
  destruct (manager_ids_stay_distinct first_adds_one 2
              [NotificationManager.CallSubscribe 1%nat;
               NotificationManager.CallAdd success "saved" None;
               NotificationManager.CallRemove "notification-1";
               NotificationManager.CallAdd error "failed" (Some 0)]
              new_running_manager) as (Hkeeps & _).
  destruct (Hkeeps Hnew) as (_ & Hdistinct).
  apply Hdistinct. cbn. lia.
Defined.

Lemma add_then_remove_restores_witness :
  observers listeners_return /\
  ids_issued (NotificationManager.this new_running_manager) /\
  NotificationManager.idCounter (NotificationManager.this new_running_manager) < 2 ^ 53 /\
  NotificationManager.notifications
    (NotificationManager.this
       (fst (NotificationManager.remove listeners_return
               (NotificationManager.perform_at listeners_return 0) "notification-1"
               (fst (NotificationManager.add listeners_return
                       (NotificationManager.perform_at listeners_return 0)
                       info "saved" None new_running_manager)))))
  = [].
Proof.
  assert (Hobservers : observers listeners_return).
  { intros l ns w. exists w, (Returned tt). reflexivity. }
  assert (Hnew : ids_issued (NotificationManager.this new_running_manager)).
  { split; [cbn; lia|]. exists []. repeat split; constructor. }
  assert (Hcounts : NotificationManager.idCounter
                      (NotificationManager.this new_running_manager) < 2 ^ 53)
    by (cbn; lia).
  split; [exact Hobservers|]. split; [exact Hnew|]. split; [exact Hcounts|].
  destruct (add_then_remove_restores listeners_return 0 info "saved" None
              new_running_manager) as (Hrestores & _).
  exact (proj1 (proj2 (proj2 (Hrestores Hobservers Hnew Hcounts)))).
Defined.

Lemma add_stores_before_notifying_witness :
  observers listener_2_throws /\
  snd (NotificationManager.add listener_2_throws
         (NotificationManager.perform_at listener_2_throws 0) info "saved" None
         manager_1_2_3)
  = Thrown "listener failed" /\
  notification_ids
    (NotificationManager.this
       (fst (NotificationManager.add listener_2_throws
               (NotificationManager.perform_at listener_2_throws 0) info "saved" None
               manager_1_2_3)))
  = ["notification-1"%string] /\
  NotificationManager.timers
    (fst (NotificationManager.add listener_2_throws
            (NotificationManager.perform_at listener_2_throws 0) info "saved" None
            manager_1_2_3))
  = [].
Proof.
  assert (Hobservers : observers listener_2_throws).
  { intros l ns w. eexists. eexists. reflexivity. }
  assert (Hthrown :
            snd (NotificationManager.add listener_2_throws
                   (NotificationManager.perform_at listener_2_throws 0) info "saved" None
                   manager_1_2_3)
            = Thrown "listener failed") by reflexivity.
  split; [exact Hobservers|]. split; [exact Hthrown|].
  destruct (add_stores_before_notifying listener_2_throws 0 info "saved" None
              manager_1_2_3) as (Hstores & _).
  destruct (Hstores Hobservers) as (Hstored & _ & _ & delivered & skipped & _ & _ & Hend).
  split.
  - unfold notification_ids. rewrite Hstored. reflexivity.
  - rewrite Hthrown in Hend. exact (proj2 Hend).
Defined.

(** ** The reducers and the forms of the user interface *)

Lemma update_map_ids (payload : ItemDto.t) (items : list ItemDto.t) :
  map ItemDto.id
    (map (fun item =>
            if String.eqb (ItemDto.id item) (ItemDto.id payload) then payload else item)
       items)
  = map ItemDto.id items.
Proof.
  induction items as [|x items IH]; [reflexivity|].
  cbn [map]. rewrite IH. f_equal.
  now destruct (String.eqb_spec (ItemDto.id x) (ItemDto.id payload)).
Qed.

Lemma filter_absent_item (id : string) (items : list ItemDto.t) :
  ~ In id (map ItemDto.id items) ->
  filter (fun item => negb (String.eqb (ItemDto.id item) id)) items = items.
Proof.
  induction items as [|x items IH]; [reflexivity|].
  cbn [map filter]. intros Hnotin.
  destruct (String.eqb_spec (ItemDto.id x) id) as [Heq|_]; cbn [negb].
  - exfalso. apply Hnotin. now left.
  - f_equal. apply IH. intros Hin. apply Hnotin. now right.
Qed.

Lemma filter_partition {A : Type} (p : A -> bool) (l : list A) :
  Permutation l (filter p l ++ filter (fun x => negb (p x)) l).
Proof.
  induction l as [|x l IH]; [reflexivity|].
  cbn [filter]. destruct (p x); cbn [negb app].
  - now constructor.
  - now apply Permutation_cons_app.
Qed.

(** X29.  [itemsReducer] knows an item by its id.  [UPDATE_ITEM] puts the
    payload in the place of every item with its id, and of the selected
    item if it has this id: the other items and a selected item with
    another id stay where they are, the ids of the list and its length
    stay as they are, and nothing is inserted when no item has the id.
    [REMOVE_ITEM] takes out every item with the id and keeps the others,
    as often and in the order they were there; it deselects a selected
    item with the id and keeps another one.  Both leave [isLoading],
    [error] and [pagination] as they are, and so does [ADD_ITEM], which
    puts the payload behind the items and does not look for the id:
    followed by [REMOVE_ITEM] of the id of the added item it leaves the
    items that [REMOVE_ITEM] alone leaves, which are the items of before
    when none had the id. *)
Theorem itemsReducer_identifies_items_by_id (state : ItemsState.t) (item : ItemDto.t) :
  let updated := itemsReducer state (ItemAction.UPDATE_ITEM item) in
  let removed := itemsReducer state (ItemAction.REMOVE_ITEM (ItemDto.id item)) in
  let added := itemsReducer state (ItemAction.ADD_ITEM item) in
  (item_ids updated = item_ids state /\
   selectItemsCount updated = selectItemsCount state /\
   (forall k x, nth_error (ItemsState.items state) k = Some x ->
      (ItemDto.id x = ItemDto.id item ->
       nth_error (ItemsState.items updated) k = Some item) /\
      (ItemDto.id x <> ItemDto.id item ->
       nth_error (ItemsState.items updated) k = Some x)) /\
   (forall s, ItemsState.selectedItem state = Some s ->
      (ItemDto.id s = ItemDto.id item -> ItemsState.selectedItem updated = Some item) /\
      (ItemDto.id s <> ItemDto.id item -> ItemsState.selectedItem updated = Some s)) /\
   (ItemsState.selectedItem state = None -> ItemsState.selectedItem updated = None) /\
   same_view state updated /\
   (~ In (ItemDto.id item) (item_ids state) ->
    ItemsState.items updated = ItemsState.items state)) /\
  (~ In (ItemDto.id item) (item_ids removed) /\
   Subsequence (ItemsState.items removed) (ItemsState.items state) /\
   (exists gone,
       Permutation (ItemsState.items state) (ItemsState.items removed ++ gone) /\
       Forall (fun x => ItemDto.id x = ItemDto.id item) gone) /\
   (forall s, ItemsState.selectedItem state = Some s ->
      (ItemDto.id s = ItemDto.id item -> ItemsState.selectedItem removed = None) /\
      (ItemDto.id s <> ItemDto.id item -> ItemsState.selectedItem removed = Some s)) /\
   (ItemsState.selectedItem state = None -> ItemsState.selectedItem removed = None) /\
   same_view state removed) /\
  (ItemsState.items added = ItemsState.items state ++ [item] /\
   ItemsState.selectedItem added = ItemsState.selectedItem state /\
   same_view state added /\
   ItemsState.items (itemsReducer added (ItemAction.REMOVE_ITEM (ItemDto.id item)))
   = ItemsState.items removed /\
   (~ In (ItemDto.id item) (item_ids state) ->
    ItemsState.items (itemsReducer added (ItemAction.REMOVE_ITEM (ItemDto.id item)))
    = ItemsState.items state)).
Proof.
  intros updated removed added. subst updated removed added.
  unfold item_ids, selectItemsCount, same_view.
  cbn [itemsReducer ItemsState.items ItemsState.selectedItem ItemsState.isLoading
       ItemsState.error ItemsState.pagination].
  assert (Hadded :
            filter (fun x => negb (String.eqb (ItemDto.id x) (ItemDto.id item)))
              (ItemsState.items state ++ [item])
            = filter (fun x => negb (String.eqb (ItemDto.id x) (ItemDto.id item)))
                (ItemsState.items state)).
  { rewrite filter_app. cbn [filter]. rewrite String.eqb_refl. cbn [negb].
    apply app_nil_r. }
  split; [|split].
  - split; [apply update_map_ids|].
    split; [now rewrite length_map|].
    split.
    { intros k x Hk. rewrite nth_error_map, Hk. cbn [option_map].
      destruct (String.eqb_spec (ItemDto.id x) (ItemDto.id item)) as [Heq|Hne];
        split; intros Hid; congruence. }
    split.
    { intros s Hs. rewrite Hs. unfold selected_has_id.
      destruct (String.eqb_spec (ItemDto.id s) (ItemDto.id item)) as [Heq|Hne];
        split; intros Hid; congruence. }
    split; [intros Hs; rewrite Hs; reflexivity|].
    split; [repeat split|].
    clear Hadded. induction (ItemsState.items state) as [|x items IH];
      intros Hnotin; [reflexivity|].
    cbn [map] in *.
    destruct (String.eqb_spec (ItemDto.id x) (ItemDto.id item)) as [Heq|_].
    + exfalso. apply Hnotin. now left.
    + f_equal. apply IH. intros Hin. apply Hnotin. now right.
  - split.
    { intros Hin. apply in_map_iff in Hin. destruct Hin as (x & Hid & Hx).
      apply filter_In in Hx. destruct Hx as (_ & Hx).
      rewrite Hid, String.eqb_refl in Hx. discriminate. }
    split; [apply filter_Subsequence|].
    split.
    { eexists. split; [apply filter_partition|].
      apply Forall_forall. intros x Hx. apply filter_In in Hx.
      destruct Hx as (_ & Hx). rewrite negb_involutive in Hx.
      now apply String.eqb_eq. }
    split.
    { intros s Hs. rewrite Hs. unfold selected_has_id.
      destruct (String.eqb_spec (ItemDto.id s) (ItemDto.id item)) as [Heq|Hne];
        split; intros Hid; congruence. }
    split; [intros Hs; rewrite Hs; reflexivity | repeat split].
  - split; [reflexivity|]. split; [reflexivity|]. split; [repeat split|].
    split; [exact Hadded|].
    intros Hnotin. rewrite Hadded. now apply filter_absent_item.
Qed.

Lemma itemsReducer_identifies_items_by_id_witness :
  ItemsState.items (itemsReducer items_state (ItemAction.UPDATE_ITEM report_revised))
  = [report_revised; notes_dto] /\
  ItemsState.selectedItem (itemsReducer items_state (ItemAction.UPDATE_ITEM report_revised))
  = Some report_revised /\
  ~ In (ItemDto.id plan_dto) (item_ids items_state) /\
  ItemsState.items (itemsReducer items_state (ItemAction.UPDATE_ITEM plan_dto))
  = ItemsState.items items_state /\
  ItemsState.items
    (itemsReducer (itemsReducer items_state (ItemAction.ADD_ITEM plan_dto))
       (ItemAction.REMOVE_ITEM (ItemDto.id plan_dto)))
  = ItemsState.items items_state.
Proof.
  assert (Hfresh : ~ In (ItemDto.id plan_dto) (item_ids items_state)).
  { cbv. intuition discriminate. }
  destruct (itemsReducer_identifies_items_by_id items_state plan_dto)
    as ((_ & _ & _ & _ & _ & _ & Hupdate) & _ & _ & _ & _ & _ & Hround).
  split; [reflexivity|]. split; [reflexivity|]. split; [exact Hfresh|].
  split; [exact (Hupdate Hfresh) | exact (Hround Hfresh)].
Defined.

Lemma Map_set_not_empty {V : Type} (k : string) (v : V) (m : Map V) :
  Map_set k v m <> [].
Proof.
  intros Hempty. pose proof (Map_get_set k k v m) as Hget.
  rewrite Hempty, String.eqb_refl in Hget. discriminate.
Qed.

Lemma set_first_message_empty (key : string) (result : ValidationResult.t)
  (fallback : string) (errors : Map string) :
  one_field_result key result ->
  set_first_message key result fallback errors = []
  <-> ValidationResult.ok result = true /\ errors = [].
Proof.
  intros Hresult. field_cases Hresult; cbn.
  - intuition.
  - split; [intros Hempty; now apply Map_set_not_empty in Hempty | intros [[=] _]].
Qed.

(** The errors of a form only grow in the statements that follow. *)
Lemma set_if_empty (condition : bool) (key message : string) (errors : Map string) :
  (if condition then Map_set key message errors else errors) = []
  <-> condition = false /\ errors = [].
Proof.
  destruct condition.
  - split; [intros Hempty; now apply Map_set_not_empty in Hempty | intros [[=] _]].
  - intuition.
Qed.

Lemma validateUserForm_empty (form : UserFormState.t) :
  validateUserForm form = [] <-> valid_user_form form.
Proof.
  unfold validateUserForm, valid_user_form, valid_registration. cbv zeta.
  rewrite set_if_empty, set_if_empty.
  change (validateName (UserFormState.name form) None)
    with (validateName (UserFormState.name form) (Some "name"%string)).
  rewrite (set_first_message_empty "name") by apply validateName_one_field.
  rewrite (set_first_message_empty "email") by apply validateEmail_one_field.
  rewrite negb_false_iff, String.eqb_eq, Nat.ltb_ge.
  unfold Map_empty. tauto.
Qed.

Lemma validateItemForm_empty (form : ItemFormState.t) :
  validateItemForm form = []
  <-> ValidationResult.ok (validateName (ItemFormState.title form) (Some "title"%string))
      = true /\
      ~ all_whitespace (ItemFormState.description form).
Proof.
  unfold validateItemForm. cbv zeta.
  rewrite set_if_empty.
  rewrite (set_first_message_empty "title") by apply validateName_one_field.
  rewrite is_blank_false. unfold Map_empty. tauto.
Qed.

(** X30.  The forms and the services agree on the fields that both
    check.  [validateUserForm] has no error exactly when the email and
    the name pass the validators that [registerUser] applies, the
    password has at least eight characters and the confirmation is the
    same string.  What [validateItemForm] has no error for passes the
    validation of [createItem], for any owner id that is not empty; the
    form is the stricter one, since it refuses a description of white
    space only, which [createItem] accepts. *)
Theorem forms_agree_with_the_services :
  (forall form : UserFormState.t, validateUserForm form = [] <-> valid_user_form form) /\
  (forall (form : ItemFormState.t) (ownerId : string),
      ownerId <> EmptyString ->
      validateItemForm form = [] ->
      valid_item (ItemFormState.title form) (ItemFormState.description form) ownerId) /\
  (forall (form : ItemFormState.t) (ownerId : string),
      valid_item (ItemFormState.title form) (ItemFormState.description form) ownerId ->
      all_whitespace (ItemFormState.description form) ->
      Map_keys (validateItemForm form) = ["description"%string]).
Proof.
  split; [exact validateUserForm_empty|]. split.
  - intros form ownerId Howner Hform. apply validateItemForm_empty in Hform.
    destruct Hform as (Htitle & Hdescription).
    split; [exact Htitle|]. split; [|exact Howner].
    intros Hempty. apply Hdescription. rewrite Hempty. constructor.
  - intros form ownerId (Htitle & _ & _) Hblank.
    unfold validateItemForm. cbv zeta.
    apply is_blank_spec in Hblank. rewrite Hblank.
    pose proof (validateName_one_field (ItemFormState.title form) "title") as Hresult.
    destruct Hresult as [Hresult|(message & code & Hresult)]; rewrite Hresult in *;
      [reflexivity | discriminate Htitle].
Qed.

Lemma forms_agree_with_the_services_witness :
  valid_user_form
    (UserFormState.mk "ann@example.org" "Ann" "correct horse" "correct horse" [] false) /\
  validateUserForm
    (UserFormState.mk "ann@example.org" "Ann" "correct horse" "correct horse" [] false)
  = [] /\
  valid_item "Minutes" " " "u2" /\
  all_whitespace " " /\
  Map_keys (validateItemForm (ItemFormState.mk "Minutes" " " Backend.draft [] false))
  = ["description"%string].
Proof.
  assert (Huser : valid_user_form
                    (UserFormState.mk "ann@example.org" "Ann" "correct horse"
                       "correct horse" [] false)).
  { repeat split. cbn. lia. }
  assert (Hitem : valid_item "Minutes" " " "u2").
  { split; [reflexivity|]. split; discriminate. }
  assert (Hblank : all_whitespace " ").
  { repeat constructor. }
  destruct forms_agree_with_the_services as (Hform & _ & Hstrict).
  split; [exact Huser|]. split; [exact (proj2 (Hform _) Huser)|].
  split; [exact Hitem|]. split; [exact Hblank|].
  exact (Hstrict (ItemFormState.mk "Minutes" " " Backend.draft [] false) "u2"%string
           Hitem Hblank).
Defined.
